(** * build.js: the static-site build pipeline of pptr.dev

    A shallow embedding of [build.js].  The script is a straight-line
    sequence of steps over the file system, the console and a headless
    browser; it is modelled in a state-and-failure monad over an explicit
    [World].  The third-party tools it drives (rollup, uglify-es, csso, glob,
    puppeteer, child_process) are capabilities of a [Tools] record.  The
    helper [writeAsync] is never called and is left out. *)

From Stdlib Require Import String Ascii ZArith QArith Qround Qabs Qpower Lia Lqa.
From stdpp Require Import base option list gmap strings.

Local Open Scope string_scope.
Local Open Scope list_scope.
Local Open Scope Z_scope.

(** ** Strings *)

Definition nl : string := String (ascii_of_nat 10) EmptyString.
Definition dquote : string := String (ascii_of_nat 34) EmptyString.

(** [s.startsWith(p)] *)
Definition startsWith (s p : string) : bool := String.prefix p s.

(** [l.join(sep)] *)
Definition join (sep : string) (l : list string) : string := String.concat sep l.

(** [s.split('\n')]: the segments between line feeds; never an empty list. *)
Fixpoint split_lines (s : string) : list string :=
  match s with
  | EmptyString => [EmptyString]
  | String c s' =>
      if Ascii.eqb c (ascii_of_nat 10) then EmptyString :: split_lines s'
      else match split_lines s' with
           | [] => [String c EmptyString]
           | l :: ls => String c l :: ls
           end
  end.

(** The code of a byte, and whether it lies in a range. *)
Definition byte_code (c : ascii) : nat := nat_of_ascii c.

Definition in_range (lo hi : nat) (c : ascii) : bool :=
  (Nat.leb lo (byte_code c) && Nat.leb (byte_code c) hi)%bool.

(** Text is held as its UTF-8 encoding; a JS string operation that looks at
    characters looks at the encoded sequences. *)

(** The one-byte members of the class [\s]: space and U+0009 to U+000D. *)
Definition is_space (c : ascii) : bool :=
  let n := nat_of_ascii c in
  (Nat.eqb n 32 || (Nat.leb 9 n && Nat.leb n 13))%bool.

(** The members of [\s] beyond U+007F, by their encoding: U+00A0 (C2 A0),
    U+1680 (E1 9A 80), U+2000 to U+200A, U+2028, U+2029, U+202F (E2 80 ..),
    U+205F (E2 81 9F), U+3000 (E3 80 80) and U+FEFF (EF BB BF). *)
Definition is_space2 (b0 b1 : ascii) : bool :=
  (Nat.eqb (byte_code b0) 194 && Nat.eqb (byte_code b1) 160)%bool.

Definition is_space3 (b0 b1 b2 : ascii) : bool :=
  let lead (x y : nat) := (Nat.eqb (byte_code b0) x && Nat.eqb (byte_code b1) y)%bool in
  if lead 225%nat 154%nat then Nat.eqb (byte_code b2) 128
  else if lead 226%nat 128%nat then
    (in_range 128 138 b2 || in_range 168 169 b2 || Nat.eqb (byte_code b2) 175)%bool
  else if lead 226%nat 129%nat then Nat.eqb (byte_code b2) 159
  else if lead 227%nat 128%nat then Nat.eqb (byte_code b2) 128
  else if lead 239%nat 187%nat then Nat.eqb (byte_code b2) 191
  else false.

(** [/^\s*$/.test(line)] *)
Fixpoint is_blank (line : string) : bool :=
  match line with
  | EmptyString => true
  | String b0 r0 =>
      if is_space b0 then is_blank r0
      else
        match r0 with
        | String b1 r1 =>
            if is_space2 b0 b1 then is_blank r1
            else
              match r1 with
              | String b2 r2 => (is_space3 b0 b1 b2 && is_blank r2)%bool
              | EmptyString => false
              end
        | EmptyString => false
        end
  end.

(** ASCII lower case, for values that HTML compares without case. *)
Definition ascii_lower (c : ascii) : ascii :=
  if in_range 65 90 c then ascii_of_nat (byte_code c + 32) else c.

Fixpoint lower (s : string) : string :=
  match s with
  | EmptyString => EmptyString
  | String c s' => String (ascii_lower c) (lower s')
  end.

(** ** UTF-8 *)

(** U+FFFD, which a decoder puts where the bytes are not UTF-8. *)
Definition replacement : string :=
  String (ascii_of_nat 239) (String (ascii_of_nat 191) (String (ascii_of_nat 189) EmptyString)).

(** The range of the second byte after the lead byte [b0] of a three- or
    four-byte sequence: it excludes overlong forms, surrogates and code
    points above U+10FFFF. *)
Definition second_lo (b0 : ascii) : nat :=
  if Nat.eqb (byte_code b0) 224 then 160%nat
  else if Nat.eqb (byte_code b0) 240 then 144%nat else 128%nat.

Definition second_hi (b0 : ascii) : nat :=
  if Nat.eqb (byte_code b0) 237 then 159%nat
  else if Nat.eqb (byte_code b0) 244 then 143%nat else 191%nat.

(** [buffer.toString('utf8')] followed by the encoding of the result: the
    well-formed sequences are kept, and every maximal ill-formed run of
    bytes becomes one U+FFFD. *)
Fixpoint utf8_decode (s : string) : string :=
  match s with
  | EmptyString => EmptyString
  | String b0 r0 =>
      if Nat.ltb (byte_code b0) 128 then String b0 (utf8_decode r0)
      else if in_range 194 223 b0 then
        match r0 with
        | String b1 r1 =>
            if in_range 128 191 b1 then String b0 (String b1 (utf8_decode r1))
            else replacement +:+ utf8_decode r0
        | EmptyString => replacement
        end
      else if in_range 224 239 b0 then
        match r0 with
        | String b1 r1 =>
            if in_range (second_lo b0) (second_hi b0) b1 then
              match r1 with
              | String b2 r2 =>
                  if in_range 128 191 b2
                  then String b0 (String b1 (String b2 (utf8_decode r2)))
                  else replacement +:+ utf8_decode r1
              | EmptyString => replacement
              end
            else replacement +:+ utf8_decode r0
        | EmptyString => replacement
        end
      else if in_range 240 244 b0 then
        match r0 with
        | String b1 r1 =>
            if in_range (second_lo b0) (second_hi b0) b1 then
              match r1 with
              | String b2 r2 =>
                  if in_range 128 191 b2 then
                    match r2 with
                    | String b3 r3 =>
                        if in_range 128 191 b3
                        then String b0 (String b1 (String b2 (String b3 (utf8_decode r3))))
                        else replacement +:+ utf8_decode r2
                    | EmptyString => replacement
                    end
                  else replacement +:+ utf8_decode r1
              | EmptyString => replacement
              end
            else replacement +:+ utf8_decode r0
        | EmptyString => replacement
        end
      else replacement +:+ utf8_decode r0
  end.

(** Well-formed UTF-8, after the table of well-formed byte sequences of the
    Unicode standard. *)
Fixpoint utf8_valid (s : string) : bool :=
  match s with
  | EmptyString => true
  | String b0 r0 =>
      if Nat.ltb (byte_code b0) 128 then utf8_valid r0
      else if in_range 194 223 b0 then
        match r0 with
        | String b1 r1 => (in_range 128 191 b1 && utf8_valid r1)%bool
        | EmptyString => false
        end
      else if in_range 224 239 b0 then
        match r0 with
        | String b1 (String b2 r2) =>
            (in_range (second_lo b0) (second_hi b0) b1 && in_range 128 191 b2
             && utf8_valid r2)%bool
        | _ => false
        end
      else if in_range 240 244 b0 then
        match r0 with
        | String b1 (String b2 (String b3 r3)) =>
            (in_range (second_lo b0) (second_hi b0) b1 && in_range 128 191 b2
             && in_range 128 191 b3 && utf8_valid r3)%bool
        | _ => false
        end
      else false
  end.

(** JS truthiness of a string: only the empty string is falsy. *)
Definition truthy (s : string) : bool :=
  match s with EmptyString => false | _ => true end.

(** ** Paths and the file system *)

(** A path is its list of segments; [path.join(d, 'x')] appends. *)
Abbreviation path := (list string).

Definition path_join (d : path) (rel : path) : path := d ++ rel.

(** The string form, as used in the [file://] URL. *)
Definition path_str (p : path) : string :=
  foldr (fun seg acc => "/" +:+ seg +:+ acc) EmptyString p.

Inductive entry :=
| File (content : string)
| Dir.

Global Instance entry_eq_dec : EqDecision entry.
Proof. solve_decision. Defined.

Abbreviation FS := (gmap path entry).

Inductive fallible (A : Type) :=
| Success (a : A)
| Failure (err : string).
Arguments Success {A} a.
Arguments Failure {A} err.

Definition parent (p : path) : path := removelast p.

Definition is_dir (fs : FS) (p : path) : bool :=
  match fs !! p with Some Dir => true | _ => false end.

(** [fs.existsSync] *)
Definition existsSync (fs : FS) (p : path) : bool :=
  match fs !! p with Some _ => true | None => false end.

(** [fs.readFileSync(p, 'utf8')]: the bytes of the file, decoded. *)
Definition readFileSync (fs : FS) (p : path) : fallible string :=
  match fs !! p with
  | Some (File c) => Success (utf8_decode c)
  | Some Dir => Failure "EISDIR"
  | None => Failure "ENOENT"
  end.

(** [fs.mkdirSync] *)
Definition mkdirSync (fs : FS) (p : path) : fallible FS :=
  if existsSync fs p then Failure "EEXIST"
  else if is_dir fs (parent p) then Success (<[p := Dir]> fs)
  else Failure "ENOENT".

(** [fs.writeFileSync(p, content, 'utf8')]: the text is held as its
    encoding, which is what the file receives. *)
Definition writeFileSync (fs : FS) (p : path) (content : string) : fallible FS :=
  match fs !! p with
  | Some Dir => Failure "EISDIR"
  | _ => if is_dir fs (parent p) then Success (<[p := File content]> fs)
         else Failure "ENOENT"
  end.

(** [rimraf(dir)]: the directory and everything below it goes; a missing
    directory is not an error. *)
Definition rimraf (fs : FS) (d : path) : FS :=
  filter (fun kv => ¬ (d `prefix_of` kv.1)) fs.

(** [ncp(from, to)]: every entry at or below [from] is copied to the same
    relative place below [to]. *)
Definition ncp (fs : FS) (from to : path) : fallible FS :=
  if existsSync fs from then
    if is_dir fs (parent to) then
      Success (map_fold
                 (fun k e acc =>
                    if decide (from `prefix_of` k)
                    then <[to ++ drop (length from) k := e]> acc
                    else acc)
                 fs fs)
    else Failure "ENOENT"
  else Failure "ENOENT".

(** The regular files below directory [d], by their path relative to [d]. *)
Definition files_under (fs : FS) (d : path) : list (path * string) :=
  omap (fun kv =>
          match kv.2 with
          | File c =>
              if decide (d `prefix_of` kv.1 ∧ kv.1 ≠ d)
              then Some (drop (length d) kv.1, c) else None
          | Dir => None
          end)
       (map_to_list fs).

(** ** Numbers, console output and observable events *)

(** JS numbers are IEEE 754 doubles.  A number is held as the rational it
    denotes; an arithmetic operation computes the exact result and rounds it
    to the nearest double, ties to the even significand.  The exponent range
    is not bounded (no overflow to Infinity, no subnormal numbers), zero has
    no sign and there is no NaN: the quotients, products and differences
    that the script forms are far from all of these. *)
Definition pow2 (e : Z) : Q := Qpower 2 e.

(** The nearest integer, ties to the even one. *)
Definition round_half_even (x : Q) : Z :=
  let f := Qfloor x in
  match Qcompare (x - inject_Z f) (1 # 2) with
  | Lt => f
  | Gt => f + 1
  | Eq => if Z.even f then f else f + 1
  end.

(** The exponent [e] of the last place of the 53-bit significand of a
    positive number [a]: [2^52 <= a / 2^e < 2^53]. *)
Definition binade (a : Q) : Z :=
  let e0 := Z.log2 (Qnum a) - Z.log2 (Zpos (Qden a)) - 52 in
  match Qcompare (a / pow2 e0) (pow2 52) with
  | Lt => e0 - 1
  | _ => e0
  end.

Definition to_double_pos (a : Q) : Q :=
  (inject_Z (round_half_even (a / pow2 (binade a))) * pow2 (binade a))%Q.

(** The double nearest to a rational. *)
Definition to_double (x : Q) : Q :=
  let r := Qred x in
  match Qcompare r 0 with
  | Eq => 0%Q
  | Gt => to_double_pos r
  | Lt => (- to_double_pos (- r))%Q
  end.

(** [x - y], [x * y] and [x / y] on doubles. *)
Definition js_sub (x y : Q) : Q := to_double (x - y).
Definition js_mul (x y : Q) : Q := to_double (x * y).
Definition js_div (x y : Q) : Q := to_double (x / y).

(** [Math.round]: the nearest integer, ties upwards.  It is exact: the
    integer nearest to a double is a double. *)
Definition Math_round (x : Q) : Q := inject_Z (Qfloor (x + (1 # 2))).

(** What [Date.now()] returns is a time value: whole milliseconds since the
    epoch, at most 8.64e15 in magnitude. *)
Definition time_value (z : Z) : Prop := Z.abs z <= 8640000000000000.

(** A template literal: text interleaved with numbers.  A number is printed
    as the shortest decimal numeral that converts back to it, which for the
    double nearest to a decimal of at most 15 significant digits is that
    decimal. *)
Inductive piece :=
| Str (s : string)
| Num (q : Q).

Inductive event :=
| ConsoleLog (msg : list piece)
| ConsoleError (msg : string)
| ConsoleTime (label : string)
| ConsoleTimeEnd (label : string)
| BrowserLaunch
| BrowserClose.

(** ** The page held by the headless browser *)

(** The nodes of the document in document order.  The script only reads and
    detaches [link] elements, which have no children, so nesting is not
    represented. *)
Inductive node :=
| Element (tag : string) (attrs : list (string * string))
| Text (s : string).

(** The page keeps one slot per parsed node; a node reference is its slot
    index and [remove()] empties the slot. *)
Abbreviation dom := (list (option node)).

Fixpoint getAttribute (attrs : list (string * string)) (name : string) : option string :=
  match attrs with
  | [] => None
  | (k, v) :: rest => if String.eqb k name then Some v else getAttribute rest name
  end.

Fixpoint setAttribute (attrs : list (string * string)) (name value : string)
  : list (string * string) :=
  match attrs with
  | [] => [(name, value)]
  | (k, v) :: rest =>
      if String.eqb k name then (k, value) :: rest
      else (k, v) :: setAttribute rest name value
  end.

(** The selector [link[rel=stylesheet]].  [tag] is the local name of the
    element, which the HTML parser gives in lower case; the value of [rel]
    is one of the attribute values that selectors in an HTML document
    compare without regard to ASCII case. *)
Definition is_stylesheet_link (n : node) : bool :=
  match n with
  | Element tag attrs =>
      (String.eqb tag "link" &&
       match getAttribute attrs "rel" with
       | Some r => String.eqb (lower r) "stylesheet"
       | None => false
       end)%bool
  | Text _ => false
  end.

(** Whether slot [i] holds an attached node that the selector matches. *)
Definition selected (d : dom) (i : nat) : bool :=
  match d !! i with
  | Some (Some n) => is_stylesheet_link n
  | _ => false
  end.

(** [Array.from(document.querySelectorAll('link[rel=stylesheet]'))]:
    references to the matching attached nodes, in document order. *)
Definition querySelectorAll_stylesheet (d : dom) : list nat :=
  filter (fun i => selected d i = true) (seq 0 (length d)).

(** [link.href = value] *)
Definition set_href (value : string) (slot : option node) : option node :=
  match slot with
  | Some (Element tag attrs) => Some (Element tag (setAttribute attrs "href" value))
  | other => other
  end.

(** [link.remove()] *)
Definition remove (d : dom) (i : nat) : dom := <[i := None]> d.

(** ** The world and the tools *)

Record minify_result := { error : option string; code : string }.

Record Tools := {
  (** [os.platform()] *)
  platform : string;
  (** [__dirname] *)
  dirname : path;
  (** the n-th reading of [Date.now()], in milliseconds *)
  clock : nat -> Z;
  (** [require('./package.json').version] *)
  package_version : string;
  (** [exec('git log -n 1 --pretty=format:%h')]: an error or stdout *)
  git_log : fallible string;
  (** rollup: the bundle of an entry module in [iife] format *)
  rollup : FS -> path -> fallible string;
  (** [UglifyJS.minify] *)
  uglify_minify : string -> minify_result;
  (** [csso.minify(css, {restructure}).css] *)
  csso_minify : string -> bool -> string;
  (** [glob(pattern, {cwd})]: an error or the matches relative to [cwd] *)
  glob : FS -> path -> string -> fallible (list path);
  (** [puppeteer.launch()] *)
  pptr_launch : fallible unit;
  (** the browser's HTML parser *)
  parse_html : string -> list node;
  (** the [href] property: the attribute resolved against the page URL *)
  resolve_url : string -> string -> string;
  (** [page.content()] on the attached nodes *)
  page_content : list node -> fallible string;
  (** workbox-build: revision hash of a file's content *)
  revision : string -> string;
  (** workbox-build: the template with the manifest injected *)
  inject : string -> list (path * string) -> string
}.

Record World := mkWorld {
  w_fs : FS;
  (** console output and browser events, oldest first *)
  w_events : list event;
  (** headless browser sessions launched and not yet closed *)
  w_browsers : nat;
  (** how often [Date.now()] was read *)
  w_ticks : nat
}.

(** How a computation ends: normally, by [process.exit(code)], or by a
    rejection (a thrown error) that nothing in the script catches. *)
Inductive outcome (A : Type) :=
| Ok (a : A)
| Exit (status : Z)
| Throw (err : string).
Arguments Ok {A} a.
Arguments Exit {A} status.
Arguments Throw {A} err.

Definition M (A : Type) : Type := World -> outcome A * World.

Global Instance M_ret : MRet M := fun A a w => (Ok a, w).

Global Instance M_bind : MBind M := fun A B f m w =>
  match m w with
  | (Ok a, w') => f a w'
  | (Exit c, w') => (Exit c, w')
  | (Throw e, w') => (Throw e, w')
  end.

Definition throw {A} (err : string) : M A := fun w => (Throw err, w).

(** [process.exit(status)]: nothing after it runs. *)
Definition process_exit {A} (status : Z) : M A := fun w => (Exit status, w).

Definition lift {A} (r : fallible A) : M A :=
  match r with
  | Success a => mret a
  | Failure e => throw e
  end.

Definition get_fs : M FS := fun w => (Ok (w_fs w), w).

Definition put_fs (fs : FS) : M unit := fun w =>
  (Ok tt, mkWorld fs (w_events w) (w_browsers w) (w_ticks w)).

Definition emit (e : event) : M unit := fun w =>
  (Ok tt, mkWorld (w_fs w) (w_events w ++ [e]) (w_browsers w) (w_ticks w)).

(** A file-system call that changes the file system. *)
Definition fs_update (op : FS -> fallible FS) : M unit :=
  fs ← get_fs; fs' ← lift (op fs); put_fs fs'.

(** A call that only reads the file system. *)
Definition fs_read {A} (op : FS -> fallible A) : M A :=
  fs ← get_fs; lift (op fs).

(** ** The script *)

Section Build.
Context (t : Tools).

Definition SRC_PATH : path := path_join (dirname t) ["src"].
Definition DST_PATH : path := path_join (dirname t) ["docs"].

Definition Date_now : M Z := fun w =>
  (Ok (clock t (w_ticks w)),
   mkWorld (w_fs w) (w_events w) (w_browsers w) (S (w_ticks w))).

(** [rmAsync].  The deletion itself is [rimraf] on the file system of the
    model, which cannot fail: the branch [if (err) reject(err)] is not
    modelled, and what is proved of a run is proved of the runs in which
    rimraf reports no error. *)
Definition rmAsync (dirPath : path) : M unit :=
  fs ← get_fs; put_fs (rimraf fs dirPath).

(** [cpAsync] *)
Definition cpAsync (from to : path) : M unit :=
  fs_update (fun fs => ncp fs from to).

(** [step] *)
Definition step (name : string) (callback : M unit) : M unit :=
  emit (ConsoleTime name);;
  callback;;
  emit (ConsoleTimeEnd name).

(** [globAsync] *)
Definition globAsync (cwd : path) (pattern : string) : M (list path) :=
  files ← fs_read (fun fs => glob t fs cwd pattern);
  mret (map (fun file => path_join cwd file) files).

(** [execAsync('git log -n 1 --pretty=format:%h')] *)
Definition execAsync_git_log : M string := lift (git_log t).

(** [generateVersion] *)
Definition generateVersion : M string :=
  stdout ← execAsync_git_log;
  let semver := package_version t in
  mret (semver +:+ "+" +:+ stdout).

Definition banner : string := "/* THIS FILE IS GENERATED BY build.js */" +:+ nl +:+ nl.
Definition html_banner : string := "<!-- THIS FILE IS GENERATED BY build.js -->" +:+ nl +:+ nl.

Definition cnamePath : path := path_join DST_PATH ["CNAME"].

(** Step 1, cleanup output folder. *)
Definition cleanup_output_folder : M unit :=
  fs ← get_fs;
  cnameText ← (if existsSync fs cnamePath
               then text ← lift (readFileSync fs cnamePath); mret (Some text)
               else mret None);
  rmAsync DST_PATH;;
  fs_update (fun fs => mkdirSync fs DST_PATH);;
  match cnameText with
  | Some text =>
      if truthy text
      then fs_update (fun fs => writeFileSync fs cnamePath text)
      else mret tt
  | None => mret tt
  end.

(** Step 2, generate index.js. *)
Definition generate_index_js (BUILD_VERSION : string) : M unit :=
  bundled ← fs_read (fun fs => rollup t fs (path_join SRC_PATH ["index.js"]));
  let result := uglify_minify t bundled in
  match error result with
  | Some e =>
      emit (ConsoleError ("JS Minification failed: " +:+ e));;
      process_exit 1
  | None =>
      let header := banner in
      let versionScript :=
        "window.__WEBSITE_VERSION__ = " +:+ dquote +:+ BUILD_VERSION +:+ dquote +:+ ";" +:+ nl in
      let scriptContent := header +:+ versionScript +:+ code result in
      fs_update (fun fs => writeFileSync fs (path_join DST_PATH ["index.js"]) scriptContent)
  end.

(** Step 3, generate style.css. *)
Definition generate_style_css : M unit :=
  ui ← globAsync SRC_PATH "ui/**/*.css";
  pptr ← globAsync SRC_PATH "pptr/**/*.css";
  third_party ← globAsync SRC_PATH "third_party/**/*.css";
  let stylePaths := ui ++ pptr ++ third_party in
  styles ← mapM (fun stylePath => fs_read (fun fs => readFileSync fs stylePath)) stylePaths;
  let styleContent := banner +:+ csso_minify t (join nl styles) false in
  fs_update (fun fs => writeFileSync fs (path_join DST_PATH ["style.css"]) styleContent).

(** [link.href] *)
Definition href (page_url : string) (d : dom) (i : nat) : string :=
  match d !! i with
  | Some (Some (Element _ attrs)) =>
      match getAttribute attrs "href" with
      | Some h => resolve_url t page_url h
      | None => EmptyString
      end
  | _ => EmptyString
  end.

(** The function evaluated in the page.  [links.shift()] on an empty array
    is [undefined], and assigning its [href] throws. *)
Definition rewrite_links (page_url : string) (d : dom) : fallible dom :=
  let links := filter (fun link => startsWith (href page_url d link) "file://" = true)
                      (querySelectorAll_stylesheet d) in
  match links with
  | [] => Failure "TypeError: Cannot set property 'href' of undefined"
  | first :: rest =>
      let d1 := alter (set_href "/style.css") first d in
      Success (foldl remove d1 rest)
  end.

(** The nodes still attached to the document. *)
Definition attached (d : dom) : list node := omap id d.

Definition strip_blank_lines (s : string) : string :=
  join nl (filter (fun line => is_blank line = false) (split_lines s)).

Definition session_opened : M unit := fun w =>
  (Ok tt, mkWorld (w_fs w) (w_events w ++ [BrowserLaunch])
                  (S (w_browsers w)) (w_ticks w)).

(** [pptr.launch()] *)
Definition launch : M unit :=
  lift (pptr_launch t);;
  session_opened.

(** [browser.close()] *)
Definition browser_close : M unit := fun w =>
  (Ok tt, mkWorld (w_fs w) (w_events w ++ [BrowserClose])
                  (pred (w_browsers w)) (w_ticks w)).

(** [page.goto('file://' + p)] *)
Definition goto (p : path) : M dom :=
  html ← fs_read (fun fs => readFileSync fs p);
  mret (Some <$> parse_html t html).

(** Step 4, generate index.html. *)
Definition generate_index_html : M unit :=
  launch;;
  let index := path_join SRC_PATH ["index.html"] in
  page ← goto index;
  page ← lift (rewrite_links ("file://" +:+ path_str index) page);
  content ← lift (page_content t (attached page));
  let indexContent := html_banner +:+ strip_blank_lines content in
  browser_close;;
  fs_update (fun fs => writeFileSync fs (path_join DST_PATH ["index.html"]) indexContent).

(** Step 5, copy images and favicons. *)
Definition copy_images_and_favicons : M unit :=
  cpAsync (path_join SRC_PATH ["images"]) (path_join DST_PATH ["images"]);;
  cpAsync (path_join SRC_PATH ["favicons"]) (path_join DST_PATH ["favicons"]).

(** *** workbox-build *)

Record inject_config := {
  swSrc : path;
  swDest : path;
  globDirectory : path;
  globIgnores : list string;
  globPatterns : list string
}.

Record inject_result := { count : nat; size : Z }.

(** Modelled from the spec: workbox-build, and the glob and minimatch
    packages it finds files with, are third-party code that is not in the
    repository.  The spec gives the injector's contract: template, output
    directory, exclusion list and glob patterns in; injected script, file
    count and byte size out.  The patterns are read as those packages
    document them.  A pattern is a list of segments separated by [/]. *)
Fixpoint segments (pattern : string) : list string :=
  match pattern with
  | EmptyString => [EmptyString]
  | String c pattern' =>
      if Ascii.eqb c "/" then EmptyString :: segments pattern'
      else match segments pattern' with
           | [] => [String c EmptyString]
           | seg :: segs => String c seg :: segs
           end
  end.

(** Modelled from the spec: see [segments].  Within a segment [*] stands
    for any run of characters and every other character for itself. *)
Fixpoint wildcard (pat name : string) : bool :=
  match pat with
  | EmptyString => match name with EmptyString => true | _ => false end
  | String c pat' =>
      if Ascii.eqb c "*" then
        (fix star (name : string) : bool :=
           (wildcard pat' name ||
            match name with
            | EmptyString => false
            | String _ name' => star name'
            end)%bool) name
      else
        match name with
        | String d name' => (Ascii.eqb c d && wildcard pat' name')%bool
        | EmptyString => false
        end
  end.

(** Modelled from the spec: see [segments].  A name that starts with a dot
    is hidden: unless the option [dot] is set, only a pattern segment that
    itself starts with a dot matches it, and [**] does not descend into
    it. *)
Definition hidden (name : string) : bool := startsWith name ".".

Definition segment_match (dot : bool) (pat name : string) : bool :=
  ((dot || negb (hidden name) || hidden pat) && wildcard pat name)%bool.

(** Modelled from the spec: see [segments].  The segment [**] stands for any
    number of directories, none included. *)
Fixpoint minimatch_segments (dot : bool) (pat : list string) (p : path) : bool :=
  match pat with
  | [] => match p with [] => true | _ => false end
  | seg :: pat' =>
      if String.eqb seg "**" then
        (fix globstar (p : path) : bool :=
           (minimatch_segments dot pat' p ||
            match p with
            | [] => false
            | d :: p' => (dot || negb (hidden d)) && globstar p'
            end)%bool) p
      else
        match p with
        | d :: p' => (segment_match dot seg d && minimatch_segments dot pat' p')%bool
        | [] => false
        end
  end.

Definition minimatch (dot : bool) (pattern : string) (p : path) : bool :=
  minimatch_segments dot (segments pattern) p.

(** Modelled from the spec: see [segments].  The default of the option
    [maximumFileSizeToCacheInBytes], which the script leaves alone: 2 MiB. *)
Definition maximumFileSizeToCacheInBytes : Z := 2097152.

(** Modelled from the spec: see [segments].  The patterns are matched with
    [dot] unset, the exclusions with [dot] set; the injector adds the name
    of the script it writes, in any directory, to the exclusions. *)
Definition globbed (cfg : inject_config) (p : path) : bool :=
  (existsb (fun pat => minimatch false pat p) (globPatterns cfg) &&
   negb (existsb (fun pat => minimatch true pat p)
           (globIgnores cfg ++ ["**/" +:+ default EmptyString (last (swDest cfg))])))%bool.

(** Modelled from the spec: see [segments].  The manifest lists, with its
    revision hash, every regular file of [globDirectory] that a pattern
    matches, that no exclusion matches and that is not larger than
    [maximumFileSizeToCacheInBytes]. *)
Definition manifest_files (cfg : inject_config) (fs : FS) : list (path * string) :=
  filter (fun f => globbed cfg f.1 = true ∧
                   Z.of_nat (String.length f.2) <= maximumFileSizeToCacheInBytes)
         (files_under fs (globDirectory cfg)).

(** Modelled from the spec: see [manifest_files].  The injected script is
    written to [swDest]; the result carries the number of manifest entries
    and the total size of the listed files in bytes. *)
Definition injectManifest (cfg : inject_config) : M inject_result :=
  fs ← get_fs;
  template ← lift (readFileSync fs (swSrc cfg));
  let files := manifest_files cfg fs in
  let manifest := map (fun f => (f.1, revision t f.2)) files in
  fs_update (fun fs => writeFileSync fs (swDest cfg) (inject t template manifest));;
  mret {| count := length manifest;
          size := foldr (fun f acc => Z.of_nat (String.length f.2) + acc) 0 files |}.

Definition sw_config : inject_config :=
  {| swSrc := path_join SRC_PATH ["sw-template.js"];
     swDest := path_join DST_PATH ["sw.js"];
     globDirectory := DST_PATH;
     globIgnores := ["CNAME"];
     globPatterns := ["**/*"] |}.

(** [Math.round(size / 1024 * 100) / 100] *)
Definition kbSize_of (size : Z) : Q :=
  js_div (Math_round (js_mul (js_div (inject_Z size) 1024) 100)) 100.

Definition sw_message (count : nat) (kbSize : Q) : list piece :=
  [Str "  - sw precaches "; Num (inject_Z (Z.of_nat count));
   Str " files, totaling "; Num kbSize; Str " Kb."].

(** Step 6, generate sw.js. *)
Definition generate_sw_js : M unit :=
  r ← injectManifest sw_config;
  let kbSize := kbSize_of (size r) in
  emit (ConsoleLog (sw_message (count r) kbSize)).

(** [Math.round((Date.now() - startTime) / 100) / 10] *)
Definition seconds_of (now startTime : Z) : Q :=
  js_div (Math_round (js_div (js_sub (inject_Z now) (inject_Z startTime)) 100)) 10.

Definition done_message (BUILD_VERSION : string) (seconds : Q) : list piece :=
  [Str (nl +:+ "Build "); Str BUILD_VERSION; Str " is done in ";
   Num seconds; Str " seconds."].

(** The body of the async function that the script calls at once. *)
Definition main : M unit :=
  startTime ← Date_now;
  BUILD_VERSION ← generateVersion;
  step "1. cleanup output folder" cleanup_output_folder;;
  step "2. generate index.js" (generate_index_js BUILD_VERSION);;
  step "3. generate style.css" generate_style_css;;
  step "4. generate index.html" generate_index_html;;
  step "5. copy images and favicons" copy_images_and_favicons;;
  step "6. generate sw.js" generate_sw_js;;
  finish ← Date_now;
  now ← Date_now;
  let seconds := seconds_of now startTime in
  emit (ConsoleLog (done_message BUILD_VERSION seconds)).

(** The whole module: the platform check, then [main]. *)
Definition build : M unit :=
  if String.eqb (platform t) "win32" then
    emit (ConsoleError "ERROR: build is not supported on Win32");;
    process_exit 1
  else main.

End Build.

(** ** A small site to run the script on *)

Module Demo.

Definition link (rel href : string) : node :=
  Element "link" [("rel", rel); ("href", href)].

(** Two local stylesheets and one from another origin. *)
Definition nodes_mixed : list node :=
  [Element "html" []; link "stylesheet" "ui/a.css";
   link "stylesheet" "https://cdn.example/font.css";
   link "stylesheet" "pptr/b.css"; Element "body" []; Text "hello"].

(** Only a stylesheet from another origin. *)
Definition nodes_foreign : list node :=
  [Element "html" []; link "stylesheet" "https://cdn.example/font.css"].

Definition show_node (n : node) : string :=
  match n with
  | Element tag attrs =>
      "<" +:+ tag +:+
      foldr (fun kv acc => " " +:+ kv.1 +:+ "=" +:+ kv.2 +:+ acc) EmptyString attrs
      +:+ ">"
  | Text s => s
  end.

Definition tools (minify_error : option string) (nodes : list node) : Tools :=
  {| platform := "linux";
     dirname := ["site"];
     clock := fun n => match n with O => 1000 | _ => 3449 end;
     package_version := "1.2.3";
     git_log := Success "abc1234";
     rollup := fun fs p => readFileSync fs p;
     uglify_minify := fun src => {| error := minify_error; code := src |};
     csso_minify := fun css _ => css;
     glob := fun _ _ pattern =>
               Success (if String.eqb pattern "ui/**/*.css" then [["ui"; "a.css"]]
                        else if String.eqb pattern "pptr/**/*.css" then [["pptr"; "b.css"]]
                        else []);
     pptr_launch := Success tt;
     parse_html := fun _ => nodes;
     resolve_url := fun _ h =>
                      if String.prefix "https://" h then h
                      else "file:///site/src/" +:+ h;
     page_content := fun ns => Success (join nl (map show_node ns));
     revision := fun c => c;
     inject := fun template manifest =>
                 template +:+ join "," (map (fun e => path_str e.1) manifest) |}.

Definition source_tree : list (path * entry) :=
  [(["site"], Dir);
   (["site"; "src"], Dir);
   (["site"; "src"; "index.js"], File "console.log(1)");
   (["site"; "src"; "index.html"], File "<html>");
   (["site"; "src"; "sw-template.js"], File "precache:");
   (["site"; "src"; "ui"], Dir);
   (["site"; "src"; "ui"; "a.css"], File "a{}");
   (["site"; "src"; "pptr"], Dir);
   (["site"; "src"; "pptr"; "b.css"], File "b{}");
   (["site"; "src"; "images"], Dir);
   (["site"; "src"; "images"; "logo.png"], File "PNG");
   (["site"; "src"; "favicons"], Dir);
   (["site"; "src"; "favicons"; "icon.ico"], File "ICO");
   (["site"; "docs"], Dir);
   (["site"; "docs"; "stale.txt"], File "old")].

(** The site with a marker file of the given content in its output directory. *)
Definition fs_with_cname (text : string) : FS :=
  list_to_map ((["site"; "docs"; "CNAME"], File text) :: source_tree).

Definition world (fs : FS) : World :=
  {| w_fs := fs; w_events := []; w_browsers := 0; w_ticks := 0 |}.

(** The site with healthy tools and the mixed page. *)
Definition site : Tools := tools None nodes_mixed.

(** The site whose minifier reports an error. *)
Definition site_bad_js : Tools := tools (Some "Unexpected token") nodes_mixed.

(** The site whose page has no local stylesheet. *)
Definition site_foreign : Tools := tools None nodes_foreign.

(** The page of [site_foreign] as the browser holds it. *)
Definition foreign_page : dom := Some <$> parse_html site_foreign "<html>".

(** The tools of [site], outside a git repository. *)
Definition tools_without_git (nodes : list node) : Tools :=
  let t := tools None nodes in
  {| platform := platform t; dirname := dirname t; clock := clock t;
     package_version := package_version t;
     git_log := Failure "fatal: not a git repository";
     rollup := rollup t; uglify_minify := uglify_minify t;
     csso_minify := csso_minify t; glob := glob t;
     pptr_launch := pptr_launch t; parse_html := parse_html t;
     resolve_url := resolve_url t; page_content := page_content t;
     revision := revision t; inject := inject t |}.

(** The tools of [site], for a source tree in which no stylesheet matches. *)
Definition site_no_styles : Tools :=
  let t := tools None nodes_mixed in
  {| platform := platform t; dirname := dirname t; clock := clock t;
     package_version := package_version t; git_log := git_log t;
     rollup := rollup t; uglify_minify := uglify_minify t;
     csso_minify := csso_minify t; glob := fun _ _ _ => Success [];
     pptr_launch := pptr_launch t; parse_html := parse_html t;
     resolve_url := resolve_url t; page_content := page_content t;
     revision := revision t; inject := inject t |}.

(** The site with an empty output directory. *)
Definition fs_cleaned : FS := list_to_map (take 14 source_tree).

(** The site with a directory where the marker file should be. *)
Definition fs_marker_dir : FS :=
  list_to_map ((["site"; "docs"; "CNAME"], Dir) :: source_tree).

Definition with_marker : World := world (fs_with_cname "pptr.dev").
Definition with_empty_marker : World := world (fs_with_cname EmptyString).

(** The site whose marker file holds the single byte FF. *)
Definition with_invalid_marker : World :=
  world (fs_with_cname (String (ascii_of_nat 255) EmptyString)).

(** The site once steps 1 to 5 have run: an output directory with the page. *)
Definition built_tree : list (path * entry) :=
  (["site"; "docs"; "index.html"], File "<html>") :: take 14 source_tree.

(** The built site with a hidden file in its output directory. *)
Definition with_hidden_file : World :=
  world (list_to_map ((["site"; "docs"; ".nojekyll"], File EmptyString) :: built_tree)).

(** One byte more than 2 MiB. *)
Definition large_content : string :=
  Pos.iter (String "a"%char) EmptyString 2097153.

(** The built site with a large file in its output directory. *)
Definition with_large_file : World :=
  world (list_to_map ((["site"; "docs"; "video.mp4"], File large_content) :: built_tree)).

End Demo.

(** ** Relations on worlds

    [respects R m]: every run of [m], however it ends, takes a world to an
    [R]-related one. *)
Definition respects (R : relation World) {A} (m : M A) : Prop :=
  ∀ w o w', m w = (o, w') → R w w'.

(** [only_writes W w w']: from [w] to [w'] the file system changed at most at
    the paths in [W], and [Date.now()] was not read. *)
Definition only_writes (W : path → Prop) : relation World := fun w w' =>
  (∀ p, ¬ W p → w_fs w' !! p = w_fs w !! p) ∧ w_ticks w' = w_ticks w.

(** [keeps p w w']: the entry at [p] is the same in [w'] as in [w]. *)
Definition keeps (p : path) : relation World := fun w w' =>
  w_fs w' !! p = w_fs w !! p.

(** The world after one more event. *)
Definition logged (e : event) (w : World) : World :=
  mkWorld (w_fs w) (w_events w ++ [e]) (w_browsers w) (w_ticks w).

(** ** Rounding, in the words of the spec

    [rounded_to d x y]: [y] is [x] rounded to [d] decimal places, that is,
    [y] is a whole number of units of [10^-d] and lies within half a unit of
    [x]. *)
Definition rounded_to (decimals : nat) (x y : Q) : Prop :=
  (∃ m : Z, y == inject_Z m / inject_Z (10 ^ Z.of_nat decimals))%Q ∧
  (Qabs (y - x) <= (1 # 2) / inject_Z (10 ^ Z.of_nat decimals))%Q.

(** ** Parts of the script named for the proofs *)

Section Parts.
Context (t : Tools).

(** The paths each step may write. *)
Definition in_output (p : path) : Prop := DST_PATH t `prefix_of` p.

Definition copied (p : path) : Prop :=
  path_join (DST_PATH t) ["images"] `prefix_of` p ∨
  path_join (DST_PATH t) ["favicons"] `prefix_of` p.

(** What step 1 leaves when the marker file holds [text]. *)
Definition cleaned (fs : FS) (text : string) : FS :=
  let emptied := <[DST_PATH t := Dir]> (rimraf fs (DST_PATH t)) in
  if truthy text then <[cnamePath t := File text]> emptied else emptied.

(** The stylesheet links of the page that the in-page function keeps after
    its filter: those whose [href] starts with [file://]. *)
Definition local_links (page_url : string) (d : dom) : list nat :=
  filter (fun link => startsWith (href t page_url d link) "file://" = true)
         (querySelectorAll_stylesheet d).

(** The URL that step 4 navigates to. *)
Definition index_url : string :=
  "file://" +:+ path_str (path_join (SRC_PATH t) ["index.html"]).

(** What [main] does up to the end of step 1; its result is the start time
    and the build version. *)
Definition up_to_cleanup : M (Z * string) :=
  startTime ← Date_now t;
  BUILD_VERSION ← generateVersion t;
  step "1. cleanup output folder" (cleanup_output_folder t);;
  mret (startTime, BUILD_VERSION).

(** What [main] does once step 1 is through. *)
Definition after_cleanup (startTime : Z) (BUILD_VERSION : string) : M unit :=
  step "2. generate index.js" (generate_index_js t BUILD_VERSION);;
  step "3. generate style.css" (generate_style_css t);;
  step "4. generate index.html" (generate_index_html t);;
  step "5. copy images and favicons" (copy_images_and_favicons t);;
  step "6. generate sw.js" (generate_sw_js t);;
  finish ← Date_now t;
  now ← Date_now t;
  let seconds := seconds_of now startTime in
  emit (ConsoleLog (done_message BUILD_VERSION seconds)).
End Parts.

(** ** More relations and predicates on runs *)

(** [quiet w w']: between [w] and [w'] nothing was printed and no browser
    session was launched or closed. *)
Definition quiet : relation World := fun w w' =>
  w_events w' = w_events w ∧ w_browsers w' = w_browsers w.

(** [never_exits m]: no run of [m] ends in [process.exit]. *)
Definition never_exits {A} (m : M A) : Prop :=
  ∀ w c w', m w ≠ (Exit c, w').

(** [always_ok m]: every run of [m] completes. *)
Definition always_ok {A} (m : M A) : Prop :=
  ∀ w, ∃ a w', m w = (Ok a, w').

(** [all_or_nothing m]: a run of [m] that does not complete leaves the file
    system as it found it. *)
Definition all_or_nothing {A} (m : M A) : Prop :=
  ∀ w o w', m w = (o, w') → (∀ a, o ≠ Ok a) → w_fs w' = w_fs w.

(** The paths that a successful build may leave in the output directory. *)
Definition artifact (t : Tools) (p : path) : Prop :=
  p = DST_PATH t ∨ p = cnamePath t ∨
  p = path_join (DST_PATH t) ["index.js"] ∨
  p = path_join (DST_PATH t) ["style.css"] ∨
  p = path_join (DST_PATH t) ["index.html"] ∨
  p = path_join (DST_PATH t) ["sw.js"] ∨
  copied t p.

(** The console output of a successful build, given what step 6 and the
    closing message print. *)
Definition transcript (sw done : list piece) : list event :=
  [ConsoleTime "1. cleanup output folder"; ConsoleTimeEnd "1. cleanup output folder";
   ConsoleTime "2. generate index.js"; ConsoleTimeEnd "2. generate index.js";
   ConsoleTime "3. generate style.css"; ConsoleTimeEnd "3. generate style.css";
   ConsoleTime "4. generate index.html"; BrowserLaunch; BrowserClose;
   ConsoleTimeEnd "4. generate index.html";
   ConsoleTime "5. copy images and favicons";
   ConsoleTimeEnd "5. copy images and favicons";
   ConsoleTime "6. generate sw.js"; ConsoleLog sw; ConsoleTimeEnd "6. generate sw.js";
   ConsoleLog done].

(** A string without a line feed: one line. *)
Fixpoint no_line_feed (s : string) : Prop :=
  match s with
  | EmptyString => True
  | String c s' => Ascii.eqb c (ascii_of_nat 10) = false ∧ no_line_feed s'
  end.

(** The lines that [strip_blank_lines] keeps. *)
Definition kept_lines (s : string) : list string :=
  filter (fun line => is_blank line = false) (split_lines s).

(** A pattern segment without [*]. *)
Fixpoint star_free (pat : string) : bool :=
  match pat with
  | EmptyString => true
  | String c pat' => (negb (Ascii.eqb c "*") && star_free pat')%bool
  end.

(** * Properties *)

(** ** The script's helpers on small inputs *)

Example split_lines_ex :
  split_lines ("a" +:+ nl +:+ nl +:+ " b") = ["a"; EmptyString; " b"].
Proof. reflexivity. Qed.

Example strip_blank_lines_ex :
  strip_blank_lines ("<html>" +:+ nl +:+ "  " +:+ nl +:+ nl +:+ "<body>")
  = "<html>" +:+ nl +:+ "<body>".
Proof. reflexivity. Qed.

Example truthy_ex : truthy EmptyString = false ∧ truthy "pptr.dev" = true.
Proof. done. Qed.

Example utf8_decode_ex :
  utf8_decode "pptr.dev" = "pptr.dev" ∧
  utf8_decode (String (ascii_of_nat 255) "x") = replacement +:+ "x" ∧
  utf8_valid (String (ascii_of_nat 255) "x") = false.
Proof. by vm_compute. Qed.

(** U+00A0 and U+3000 are white space to [\s]. *)
Example is_blank_ex :
  is_blank (String (ascii_of_nat 194) (String (ascii_of_nat 160) " ")) = true ∧
  is_blank (String (ascii_of_nat 227) (String (ascii_of_nat 128)
              (String (ascii_of_nat 128) EmptyString))) = true ∧
  is_blank " x " = false.
Proof. by vm_compute. Qed.

Example is_stylesheet_link_ex :
  is_stylesheet_link (Element "link" [("rel", "Stylesheet"); ("href", "ui/a.css")]) = true ∧
  is_stylesheet_link (Element "link" [("rel", "icon")]) = false ∧
  is_stylesheet_link (Element "a" [("rel", "stylesheet")]) = false.
Proof. by vm_compute. Qed.

Example minimatch_ex :
  minimatch false "**/*" ["images"; "logo.png"] = true ∧
  minimatch false "**/*" ["images"; ".DS_Store"] = false ∧
  minimatch false "**/*" [".git"; "config"] = false ∧
  minimatch true "CNAME" ["CNAME"] = true ∧
  minimatch true "CNAME" ["images"; "CNAME"] = false ∧
  minimatch true "**/sw.js" ["sw.js"] = true.
Proof. by vm_compute. Qed.

Example to_double_ex :
  (to_double (1 # 10) == 3602879701896397 # 36028797018963968)%Q ∧
  (to_double (225 # 100) == 225 # 100)%Q ∧
  (to_double (inject_Z (2 ^ 53 + 1)) == inject_Z (2 ^ 53))%Q ∧
  (to_double (inject_Z (2 ^ 53 + 3)) == inject_Z (2 ^ 53 + 4))%Q.
Proof. by vm_compute. Qed.

Example kbSize_of_ex : kbSize_of 2300 = to_double (225 # 100).
Proof. by vm_compute. Qed.

Example seconds_of_ex : seconds_of 3449 1000 = to_double (24 # 10).
Proof. by vm_compute. Qed.

Example seconds_of_tie_ex : seconds_of 1050 0 = to_double (11 # 10).
Proof. by vm_compute. Qed.

Example rimraf_ex :
  rimraf (Demo.fs_with_cname "pptr.dev") ["site"; "docs"] !! ["site"; "docs"; "CNAME"]
  = None.
Proof. vm_compute. reflexivity. Qed.

Example version_ex :
  (generateVersion Demo.site Demo.with_marker).1 = Ok "1.2.3+abc1234".
Proof. reflexivity. Qed.

Example querySelectorAll_ex :
  querySelectorAll_stylesheet (Some <$> Demo.nodes_mixed) = [1; 2; 3]%nat.
Proof. reflexivity. Qed.

Example local_links_ex :
  local_links Demo.site (index_url Demo.site) (Some <$> Demo.nodes_mixed) = [1; 3]%nat.
Proof. vm_compute. reflexivity. Qed.

Example build_win32_ex (t : Tools) (w : World) :
  platform t = "win32" → (build t w).1 = Exit 1 ∧ w_fs (build t w).2 = w_fs w.
Proof. intros H. unfold build. by rewrite H. Qed.

(** ** The file system calls *)

Lemma rimraf_below (fs : FS) (d p : path) :
  d `prefix_of` p → rimraf fs d !! p = None.
Proof.
  intros Hpre. unfold rimraf. apply map_lookup_filter_None_2.
  right. intros x _ Hnot. by apply Hnot.
Qed.

Lemma rimraf_other (fs : FS) (d p : path) :
  ¬ d `prefix_of` p → rimraf fs d !! p = fs !! p.
Proof.
  intros Hpre. unfold rimraf.
  destruct (fs !! p) as [e|] eqn:E.
  - by apply map_lookup_filter_Some_2.
  - apply map_lookup_filter_None_2. by left.
Qed.

Lemma mkdirSync_Success (fs fs' : FS) (p : path) :
  mkdirSync fs p = Success fs' →
  fs !! p = None ∧ is_dir fs (parent p) = true ∧ fs' = <[p := Dir]> fs.
Proof.
  unfold mkdirSync, existsSync.
  destruct (fs !! p) eqn:E; [discriminate|].
  destruct (is_dir fs (parent p)); [|discriminate].
  intros [= <-]. done.
Qed.

Lemma writeFileSync_Success (fs fs' : FS) (p : path) (c : string) :
  writeFileSync fs p c = Success fs' → fs' = <[p := File c]> fs.
Proof.
  unfold writeFileSync.
  destruct (fs !! p) as [[|]|]; destruct (is_dir fs (parent p)); congruence.
Qed.

Lemma writeFileSync_fresh (fs : FS) (p : path) (c : string) :
  fs !! p = None → is_dir fs (parent p) = true →
  writeFileSync fs p c = Success (<[p := File c]> fs).
Proof. unfold writeFileSync. by intros -> ->. Qed.

Lemma writeFileSync_not_dir (fs : FS) (p : path) (c : string) :
  fs !! p ≠ Some Dir → is_dir fs (parent p) = true →
  writeFileSync fs p c = Success (<[p := File c]> fs).
Proof.
  unfold writeFileSync. intros Hp ->. by destruct (fs !! p) as [[|]|].
Qed.

Lemma writeFileSync_other (fs fs' : FS) (p q : path) (c : string) :
  writeFileSync fs p c = Success fs' → q ≠ p → fs' !! q = fs !! q.
Proof.
  intros ->%writeFileSync_Success Hne. by rewrite lookup_insert_ne.
Qed.

Lemma ncp_other (fs fs' : FS) (from to p : path) :
  ncp fs from to = Success fs' → ¬ to `prefix_of` p → fs' !! p = fs !! p.
Proof.
  unfold ncp.
  destruct (existsSync fs from); [|discriminate].
  destruct (is_dir fs (parent to)); [|discriminate].
  intros [= <-] Hpre.
  apply (map_fold_weak_ind (fun acc (_ : FS) => acc !! p = fs !! p)); [done|].
  intros k e m acc _ IH. case_decide; [|done].
  rewrite lookup_insert_ne; [done|].
  intros <-. apply Hpre. by apply prefix_app_r.
Qed.

(** ** Runs of the monad *)

Lemma run_bind {A B} (m : M A) (f : A → M B) (w : World) :
  (m ≫= f) w =
  match m w with
  | (Ok a, w') => f a w'
  | (Exit c, w') => (Exit c, w')
  | (Throw e, w') => (Throw e, w')
  end.
Proof. reflexivity. Qed.

Lemma run_bind_Ok {A B} (m : M A) (f : A → M B) (w w1 : World) (a : A) :
  m w = (Ok a, w1) → (m ≫= f) w = f a w1.
Proof. intros H. by rewrite run_bind, H. Qed.

Lemma bind_Ok_inv {A B} (m : M A) (f : A → M B) (w w' : World) (b : B) :
  (m ≫= f) w = (Ok b, w') →
  ∃ a w1, m w = (Ok a, w1) ∧ f a w1 = (Ok b, w').
Proof.
  rewrite run_bind. destruct (m w) as [[a|c|e] w1]; [eauto|discriminate..].
Qed.

Lemma run_ret {A} (a : A) (w : World) : (mret a : M A) w = (Ok a, w).
Proof. reflexivity. Qed.

Lemma lift_Ok_inv {A} (r : fallible A) (w w' : World) (a : A) :
  lift r w = (Ok a, w') → r = Success a ∧ w' = w.
Proof. destruct r; cbv; intros [= ]; subst; done. Qed.

Lemma fs_read_Ok_inv {A} (op : FS → fallible A) (w w' : World) (a : A) :
  fs_read op w = (Ok a, w') → op (w_fs w) = Success a ∧ w' = w.
Proof.
  unfold fs_read. intros (fs & w1 & [= <- <-] & H)%bind_Ok_inv.
  by apply lift_Ok_inv in H.
Qed.

Lemma run_fs_update_Success (op : FS → fallible FS) (w : World) (fs' : FS) :
  op (w_fs w) = Success fs' →
  fs_update op w = (Ok tt, mkWorld fs' (w_events w) (w_browsers w) (w_ticks w)).
Proof.
  intros H. unfold fs_update. rewrite run_bind. simpl. rewrite run_bind.
  by rewrite H.
Qed.

Lemma fs_update_Ok_inv (op : FS → fallible FS) (w w' : World) (u : unit) :
  fs_update op w = (Ok u, w') →
  ∃ fs', op (w_fs w) = Success fs' ∧
         w' = mkWorld fs' (w_events w) (w_browsers w) (w_ticks w).
Proof.
  unfold fs_update. intros (fs & w1 & [= <- <-] & H)%bind_Ok_inv.
  apply bind_Ok_inv in H as (fs' & w2 & [-> ->]%lift_Ok_inv & [= _ <-]).
  eauto.
Qed.

(** ** Relations that every run of a computation respects *)

Section Respects.
Context (R : relation World) `{!PreOrder R}.

Lemma respects_ret {A} (a : A) : respects R (mret a).
Proof. intros w o w' [= _ <-]. reflexivity. Qed.

Lemma respects_throw {A} (e : string) : respects R (@throw A e).
Proof. intros w o w' [= _ <-]. reflexivity. Qed.

Lemma respects_exit {A} (c : Z) : respects R (@process_exit A c).
Proof. intros w o w' [= _ <-]. reflexivity. Qed.

Lemma respects_lift {A} (r : fallible A) : respects R (lift r).
Proof. destruct r; [apply respects_ret | apply respects_throw]. Qed.

Lemma respects_get_fs : respects R get_fs.
Proof. intros w o w' [= _ <-]. reflexivity. Qed.

Lemma respects_bind {A B} (m : M A) (f : A → M B) :
  respects R m → (∀ a, respects R (f a)) → respects R (m ≫= f).
Proof.
  intros Hm Hf w o w'. rewrite run_bind.
  destruct (m w) as [[a|c|e] w1] eqn:E.
  - intros H. etransitivity; [by eapply Hm | by eapply Hf].
  - intros [= _ <-]. by eapply Hm.
  - intros [= _ <-]. by eapply Hm.
Qed.

Lemma respects_fs_read {A} (op : FS → fallible A) : respects R (fs_read op).
Proof.
  apply respects_bind; [apply respects_get_fs | intros; apply respects_lift].
Qed.

Lemma respects_mapM {A B} (f : A → M B) (l : list A) :
  (∀ a, respects R (f a)) → respects R (mapM f l).
Proof.
  intros Hf. induction l as [|a l IH]; simpl.
  - apply respects_ret.
  - apply respects_bind; [apply Hf|]. intros b.
    apply respects_bind; [apply IH|]. intros bs. apply respects_ret.
Qed.
End Respects.


Global Instance only_writes_preorder (W : path → Prop) : PreOrder (only_writes W).
Proof.
  split.
  - intros w. by split.
  - intros w1 w2 w3 [H1 T1] [H2 T2]. split; [|congruence].
    intros p Hp. rewrite H2, H1; done.
Qed.

Lemma only_writes_mono {A} (W W' : path → Prop) (m : M A) :
  (∀ p, W p → W' p) → respects (only_writes W) m → respects (only_writes W') m.
Proof.
  intros Hsub Hm w o w' Hrun. destruct (Hm _ _ _ Hrun) as [Hfs Ht].
  split; [|done]. intros p Hp. apply Hfs. naive_solver.
Qed.

Section Writes.
Context (t : Tools) (W : path → Prop).

Lemma writes_emit (e : event) : respects (only_writes W) (emit e).
Proof. intros w o w' [= _ <-]. by split. Qed.

Lemma writes_session_opened : respects (only_writes W) session_opened.
Proof. intros w o w' [= _ <-]. by split. Qed.

Lemma writes_browser_close : respects (only_writes W) browser_close.
Proof. intros w o w' [= _ <-]. by split. Qed.

Lemma writes_fs_update (op : FS → fallible FS) :
  (∀ fs fs' p, op fs = Success fs' → ¬ W p → fs' !! p = fs !! p) →
  respects (only_writes W) (fs_update op).
Proof.
  intros Hop w o w'. unfold fs_update. rewrite run_bind. simpl.
  rewrite run_bind. destruct (op (w_fs w)) as [fs'|e] eqn:E; simpl.
  - intros [= _ <-]. split; [|done]. intros p Hp. simpl. by eapply Hop.
  - intros [= _ <-]. by split.
Qed.

Lemma writes_writeFile (p : path) (c : string) :
  W p → respects (only_writes W) (fs_update (fun fs => writeFileSync fs p c)).
Proof.
  intros Hp. apply writes_fs_update. intros fs fs' q Hw Hq.
  eapply writeFileSync_other; [done|]. by intros ->.
Qed.

Lemma writes_mkdir (d : path) :
  W d → respects (only_writes W) (fs_update (fun fs => mkdirSync fs d)).
Proof.
  intros Hd. apply writes_fs_update.
  intros fs fs' p (_ & _ & ->)%mkdirSync_Success Hp.
  rewrite lookup_insert_ne; [done|]. by intros <-.
Qed.

Lemma writes_rmAsync (d : path) :
  (∀ p, d `prefix_of` p → W p) → respects (only_writes W) (rmAsync d).
Proof.
  intros Hd w o w' [= _ <-]. split; [|done]. intros p Hp. simpl.
  apply rimraf_other. naive_solver.
Qed.

Lemma writes_cpAsync (from to : path) :
  (∀ p, to `prefix_of` p → W p) → respects (only_writes W) (cpAsync from to).
Proof.
  intros Hto. apply writes_fs_update. intros fs fs' p Hcp Hp.
  eapply ncp_other; [done|]. naive_solver.
Qed.

Lemma writes_step (name : string) (callback : M unit) :
  respects (only_writes W) callback → respects (only_writes W) (step name callback).
Proof.
  intros Hcb. unfold step.
  apply respects_bind; [apply _ | apply writes_emit | intros _].
  apply respects_bind; [apply _ | done | intros _]. apply writes_emit.
Qed.
End Writes.

(** Closes a goal [respects (only_writes W) m] for a computation built from
    the calls above; what is left are the side conditions on [W]. *)
Ltac solve_writes :=
  repeat first
    [ apply writes_step
    | apply writes_emit
    | apply writes_session_opened
    | apply writes_browser_close
    | apply writes_writeFile
    | apply writes_mkdir
    | apply writes_rmAsync
    | apply writes_cpAsync
    | apply respects_fs_read; [apply _]
    | apply respects_get_fs; [apply _]
    | apply respects_lift; [apply _]
    | apply respects_ret; [apply _]
    | apply respects_exit; [apply _]
    | apply respects_mapM; [apply _ | intros ?]
    | apply respects_bind; [apply _ | | intros ?]
    | match goal with
      | |- respects _ (match ?x with _ => _ end) => destruct x
      | |- respects _ (if ?x then _ else _) => destruct x
      end ].

(** The paths each step may write. *)

Section StepWrites.
Context (t : Tools).

Lemma writes_cleanup_output_folder :
  respects (only_writes (in_output t)) (cleanup_output_folder t).
Proof.
  unfold cleanup_output_folder. solve_writes.
  - done.
  - by unfold in_output.
  - unfold in_output, cnamePath. by apply prefix_app_r.
Qed.

Lemma writes_generate_index_js (v : string) :
  respects (only_writes (eq (path_join (DST_PATH t) ["index.js"])))
           (generate_index_js t v).
Proof. unfold generate_index_js. solve_writes. done. Qed.

Lemma writes_generate_style_css :
  respects (only_writes (eq (path_join (DST_PATH t) ["style.css"])))
           (generate_style_css t).
Proof. unfold generate_style_css, globAsync. solve_writes. done. Qed.

Lemma writes_generate_index_html :
  respects (only_writes (eq (path_join (DST_PATH t) ["index.html"])))
           (generate_index_html t).
Proof. unfold generate_index_html, launch, goto. solve_writes. done. Qed.

Lemma writes_copy_images_and_favicons :
  respects (only_writes (copied t)) (copy_images_and_favicons t).
Proof. unfold copy_images_and_favicons. solve_writes; unfold copied; naive_solver. Qed.

Lemma writes_generate_sw_js :
  respects (only_writes (eq (path_join (DST_PATH t) ["sw.js"])))
           (generate_sw_js t).
Proof. unfold generate_sw_js, injectManifest. solve_writes. done. Qed.
End StepWrites.

(** ** The paths of the output directory are distinct *)

Section Paths.
Context (t : Tools).

Lemma output_file_inj (a b : string) :
  path_join (DST_PATH t) [a] = path_join (DST_PATH t) [b] → a = b.
Proof. intros H%app_inv_head. congruence. Qed.

Lemma output_file_not_below (a b : string) :
  a ≠ b → ¬ path_join (DST_PATH t) [a] `prefix_of` path_join (DST_PATH t) [b].
Proof.
  intros Hne H%prefix_app_inv. by apply prefix_cons_inv_1 in H.
Qed.

Lemma output_not_below_file (a : string) :
  ¬ path_join (DST_PATH t) [a] `prefix_of` DST_PATH t.
Proof. apply prefix_snoc_not. Qed.

Lemma snoc_neq (d : path) (a : string) : d ++ [a] ≠ d.
Proof.
  intros H. apply (f_equal length) in H. rewrite length_app in H.
  simpl in H. lia.
Qed.

Lemma output_not_in_dirname : ¬ DST_PATH t `prefix_of` dirname t.
Proof. apply prefix_snoc_not. Qed.

Lemma parent_output_file (a : string) :
  parent (path_join (DST_PATH t) [a]) = DST_PATH t.
Proof. apply removelast_last. Qed.

Lemma parent_output : parent (DST_PATH t) = dirname t.
Proof. apply removelast_last. Qed.

Lemma marker_not_copied : ¬ copied t (cnamePath t).
Proof. by intros [H|H]; apply output_file_not_below in H. Qed.
End Paths.

(** ** Steps and their console timers *)


Lemma run_step (name : string) (callback : M unit) (w : World) :
  step name callback w =
  match callback (logged (ConsoleTime name) w) with
  | (Ok _, w1) => (Ok tt, logged (ConsoleTimeEnd name) w1)
  | (Exit c, w1) => (Exit c, w1)
  | (Throw e, w1) => (Throw e, w1)
  end.
Proof.
  unfold step. rewrite run_bind. simpl. rewrite run_bind.
  fold (logged (ConsoleTime name) w).
  by destruct (callback (logged (ConsoleTime name) w)) as [[[]|c|e] w1].
Qed.

Lemma step_Ok_inv (name : string) (callback : M unit) (w w' : World) (u : unit) :
  step name callback w = (Ok u, w') →
  ∃ w1, callback (logged (ConsoleTime name) w) = (Ok tt, w1) ∧
        w' = logged (ConsoleTimeEnd name) w1.
Proof.
  rewrite run_step.
  destruct (callback (logged (ConsoleTime name) w)) as [[[]|c|e] w1];
    [|discriminate..].
  intros [= <-]. eauto.
Qed.

(** ** Step 1 and the marker file *)

Section Cleanup.
Context (t : Tools).

Lemma run_cleanup_with_marker (w : World) (text : string) :
  is_dir (w_fs w) (dirname t) = true →
  w_fs w !! cnamePath t = Some (File text) →
  cleanup_output_folder t w =
  (Ok tt, mkWorld (cleaned t (w_fs w) (utf8_decode text))
                  (w_events w) (w_browsers w) (w_ticks w)).
Proof.
  intros Hdir Hmarker. unfold cleanup_output_folder.
  rewrite run_bind. simpl. rewrite run_bind.
  unfold existsSync, readFileSync. rewrite Hmarker. simpl.
  rewrite run_bind. simpl. rewrite run_bind.
  erewrite run_fs_update_Success; cycle 1.
  { simpl. unfold mkdirSync, existsSync.
    rewrite rimraf_below by done.
    rewrite parent_output. unfold is_dir in *.
    rewrite rimraf_other by apply output_not_in_dirname.
    destruct (w_fs w !! dirname t) as [[|]|]; try discriminate. done. }
  simpl. unfold cleaned. destruct (truthy (utf8_decode text)); [|done].
  erewrite run_fs_update_Success; [done|]. simpl.
  apply writeFileSync_fresh.
  - rewrite lookup_insert_ne by (symmetry; apply snoc_neq).
    apply rimraf_below. by apply prefix_app_r.
  - unfold cnamePath. rewrite parent_output_file.
    unfold is_dir. by rewrite lookup_insert_eq.
Qed.
End Cleanup.
Section CleanupResult.
Context (t : Tools).

Lemma cleanup_Ok_inv (w w' : World) (u : unit) :
  cleanup_output_folder t w = (Ok u, w') →
  let emptied := <[DST_PATH t := Dir]> (rimraf (w_fs w) (DST_PATH t)) in
  (w_fs w !! cnamePath t = None ∧ w_fs w' = emptied) ∨
  (∃ text, w_fs w !! cnamePath t = Some (File text) ∧
           w_fs w' = cleaned t (w_fs w) (utf8_decode text)).
Proof.
  unfold cleanup_output_folder.
  intros (fs & w0 & [= <- <-] & H)%bind_Ok_inv.
  apply bind_Ok_inv in H as (cnameText & w1 & Hread & H).
  assert (w1 = w ∧
          match cnameText with
          | Some text => ∃ bytes, w_fs w !! cnamePath t = Some (File bytes) ∧
                                  text = utf8_decode bytes
          | None => w_fs w !! cnamePath t = None
          end) as [-> Hmarker].
  { unfold existsSync, readFileSync in Hread.
    destruct (w_fs w !! cnamePath t) as [[bytes|]|].
    - injection Hread as <- <-. eauto.
    - discriminate.
    - by injection Hread as <- <-. }
  apply bind_Ok_inv in H as ([] & w2 & [= <-] & H).
  apply bind_Ok_inv in H as ([] & w3 & Hmk & H).
  apply fs_update_Ok_inv in Hmk as (fs1 & (_ & _ & ->)%mkdirSync_Success & ->).
  simpl in *. destruct cnameText as [text|].
  - destruct Hmarker as (bytes & Hmarker & ->).
    right. exists bytes. split; [done|]. unfold cleaned.
    destruct (truthy (utf8_decode bytes)).
    + by apply fs_update_Ok_inv in H as (fs2 & ->%writeFileSync_Success & ->).
    + by injection H as _ <-.
  - left. split; [done|]. by injection H as _ <-.
Qed.
End CleanupResult.

(** ** Paths a run leaves alone *)

Global Instance keeps_preorder (p : path) : PreOrder (keeps p).
Proof.
  split; [by intros w|]. intros w1 w2 w3 H1 H2. unfold keeps in *. congruence.
Qed.

Lemma keeps_of_writes {A} (W : path → Prop) (m : M A) (p : path) :
  ¬ W p → respects (only_writes W) m → respects (keeps p) m.
Proof. intros Hp Hm w o w' Hrun. by apply (Hm _ _ _ Hrun). Qed.

Lemma keeps_Date_now (t : Tools) (p : path) : respects (keeps p) (Date_now t).
Proof. by intros w o w' [= _ <-]. Qed.

Lemma keeps_emit (p : path) (e : event) : respects (keeps p) (emit e).
Proof. by intros w o w' [= _ <-]. Qed.

Lemma keeps_step (W : path → Prop) (p : path) (name : string) (callback : M unit) :
  respects (only_writes W) callback → ¬ W p → respects (keeps p) (step name callback).
Proof. intros Hcb Hp. eapply keeps_of_writes; [done|]. by apply writes_step. Qed.

Section Pipeline.
Context (t : Tools).

Lemma main_unfold :
  main t =
  (startTime ← Date_now t;
   BUILD_VERSION ← generateVersion t;
   step "1. cleanup output folder" (cleanup_output_folder t);;
   after_cleanup t startTime BUILD_VERSION).
Proof. reflexivity. Qed.

Lemma after_cleanup_keeps_marker (startTime : Z) (v : string) :
  respects (keeps (cnamePath t)) (after_cleanup t startTime v).
Proof.
  unfold after_cleanup.
  apply respects_bind; [apply _ | | intros _].
  { eapply keeps_step; [apply writes_generate_index_js|].
    by intros ?%output_file_inj. }
  apply respects_bind; [apply _ | | intros _].
  { eapply keeps_step; [apply writes_generate_style_css|].
    by intros ?%output_file_inj. }
  apply respects_bind; [apply _ | | intros _].
  { eapply keeps_step; [apply writes_generate_index_html|].
    by intros ?%output_file_inj. }
  apply respects_bind; [apply _ | | intros _].
  { eapply keeps_step; [apply writes_copy_images_and_favicons|].
    apply marker_not_copied. }
  apply respects_bind; [apply _ | | intros _].
  { eapply keeps_step; [apply writes_generate_sw_js|].
    by intros ?%output_file_inj. }
  apply respects_bind; [apply _ | apply keeps_Date_now | intros finish].
  apply respects_bind; [apply _ | apply keeps_Date_now | intros now].
  apply keeps_emit.
Qed.

Lemma cleaned_marker (fs : FS) (text : string) :
  cleaned t fs text !! cnamePath t =
  if truthy text then Some (File text) else None.
Proof.
  unfold cleaned. destruct (truthy text).
  - by rewrite lookup_insert_eq.
  - rewrite lookup_insert_ne by (symmetry; apply snoc_neq).
    apply rimraf_below. by apply prefix_app_r.
Qed.

End Pipeline.

(** ** Step 1: the marker file *)

(** C9.  If the marker file exists before the build with the empty string as
    its content, then after step 1 the output directory holds no marker
    file: the restore is skipped.  The step completes when the directory of
    the script exists. *)
Theorem empty_marker_not_restored (t : Tools) (w w' : World) (o : outcome unit) :
  w_fs w !! cnamePath t = Some (File EmptyString) →
  cleanup_output_folder t w = (o, w') →
  w_fs w' !! cnamePath t = None ∧
  (is_dir (w_fs w) (dirname t) = true → o = Ok tt).
Proof.
  intros Hmarker Hrun.
  destruct (is_dir (w_fs w) (dirname t)) eqn:Hdir.
  - rewrite (run_cleanup_with_marker t w EmptyString) in Hrun by done.
    injection Hrun as <- <-. split; [|done]. simpl. by rewrite cleaned_marker.
  - split; [|discriminate].
    assert (Hkeep : ∀ fs : FS, fs !! cnamePath t = None →
              ∀ fs', mkdirSync fs (DST_PATH t) = Success fs' →
              fs' !! cnamePath t = None).
    { intros fs Hfs fs' (_ & _ & ->)%mkdirSync_Success.
      by rewrite lookup_insert_ne by (symmetry; apply snoc_neq). }
    revert Hrun. unfold cleanup_output_folder.
    rewrite run_bind. simpl. rewrite run_bind.
    unfold existsSync, readFileSync. rewrite Hmarker. simpl.
    rewrite run_bind. simpl. rewrite run_bind.
    unfold fs_update. rewrite run_bind. simpl. rewrite run_bind.
    destruct (mkdirSync (rimraf (w_fs w) (DST_PATH t)) (DST_PATH t)) as [fs'|e] eqn:E;
      simpl; intros [= _ <-]; simpl.
    + eapply Hkeep; [|done]. apply rimraf_below. by apply prefix_app_r.
    + apply rimraf_below. by apply prefix_app_r.
Qed.

Lemma empty_marker_not_restored_witness :
  w_fs (cleanup_output_folder Demo.site Demo.with_empty_marker).2
    !! cnamePath Demo.site = None ∧
  (is_dir (w_fs Demo.with_empty_marker) (dirname Demo.site) = true →
   (cleanup_output_folder Demo.site Demo.with_empty_marker).1 = Ok tt).
Proof.
  apply (empty_marker_not_restored Demo.site Demo.with_empty_marker
           (cleanup_output_folder Demo.site Demo.with_empty_marker).2
           (cleanup_output_folder Demo.site Demo.with_empty_marker).1).
  - vm_compute. reflexivity.
  - vm_compute. reflexivity.
Defined.

(** ** Step 2: a minification error ends the run *)

Section MinifyError.
Context (t : Tools).

Lemma main_split (w : World) :
  main t w = (up_to_cleanup t ≫= fun sv => after_cleanup t sv.1 sv.2) w.
Proof.
  rewrite main_unfold. unfold up_to_cleanup. rewrite !run_bind.
  destruct (Date_now t w) as [[s|c|e] w0]; [|done..].
  rewrite !run_bind.
  destruct (generateVersion t w0) as [[v|c|e] w1]; [|done..].
  rewrite !run_bind.
  by destruct (step _ (cleanup_output_folder t) w1) as [[[]|c|e] w2].
Qed.

(** After step 1 the output directory holds nothing but, at most, the
    marker file. *)
Lemma cleanup_Ok_output_empty (w w' : World) (u : unit) (p : path) :
  cleanup_output_folder t w = (Ok u, w') →
  in_output t p → p ≠ DST_PATH t → p ≠ cnamePath t →
  w_fs w' !! p = None.
Proof.
  unfold cleanup_output_folder.
  intros (fs & w0 & [= <- <-] & H)%bind_Ok_inv Hin Hdst Hmarker.
  apply bind_Ok_inv in H as (cnameText & w1 & Hread & H).
  assert (w1 = w) as ->.
  { destruct (existsSync (w_fs w) (cnamePath t)).
    - apply bind_Ok_inv in Hread as (text & w2 & [_ ->]%lift_Ok_inv & [= _ <-]).
      done.
    - by injection Hread as _ <-. }
  apply bind_Ok_inv in H as ([] & w2 & [= <-] & H).
  apply bind_Ok_inv in H as ([] & w3 & Hmk & H).
  apply fs_update_Ok_inv in Hmk as (fs1 & (_ & _ & ->)%mkdirSync_Success & ->).
  simpl in *.
  assert (Hnone : <[DST_PATH t := Dir]> (rimraf (w_fs w) (DST_PATH t)) !! p = None).
  { rewrite lookup_insert_ne by done. by apply rimraf_below. }
  destruct cnameText as [text|]; [destruct (truthy text)|].
  - apply fs_update_Ok_inv in H as (fs2 & ->%writeFileSync_Success & ->).
    simpl. by rewrite lookup_insert_ne.
  - by injection H as _ <-.
  - by injection H as _ <-.
Qed.

Lemma up_to_cleanup_Ok_output_empty (w w1 : World) (sv : Z * string) (p : path) :
  up_to_cleanup t w = (Ok sv, w1) →
  in_output t p → p ≠ DST_PATH t → p ≠ cnamePath t →
  w_fs w1 !! p = None.
Proof.
  unfold up_to_cleanup.
  intros (s & w0 & _ & H)%bind_Ok_inv.
  apply bind_Ok_inv in H as (v & w2 & _ & H).
  apply bind_Ok_inv in H as ([] & w3 & Hstep & [= _ <-]).
  apply step_Ok_inv in Hstep as (w4 & Hclean & ->). simpl.
  by eapply cleanup_Ok_output_empty.
Qed.

Lemma run_generate_index_js_error (v bundled e : string) (w : World) :
  rollup t (w_fs w) (path_join (SRC_PATH t) ["index.js"]) = Success bundled →
  error (uglify_minify t bundled) = Some e →
  generate_index_js t v w =
  (Exit 1, logged (ConsoleError ("JS Minification failed: " +:+ e)) w).
Proof.
  intros Hroll Herr. unfold generate_index_js.
  rewrite run_bind. unfold fs_read at 1. rewrite run_bind. simpl.
  rewrite Hroll. simpl. rewrite Herr. reflexivity.
Qed.
End MinifyError.

(** ** UTF-8 text survives reading and writing *)

Section Utf8.

Lemma utf8_valid_decode_fuel (n : nat) (s : string) :
  (String.length s ≤ n)%nat → utf8_valid s = true → utf8_decode s = s.
Proof.
  revert s. induction n as [|n IH]; intros s Hlen Hv.
  { destruct s; [done|simpl in Hlen; lia]. }
  destruct s as [|b0 r0]; [done|].
  cbn [utf8_valid utf8_decode] in *. simpl in Hlen.
  destruct (Nat.ltb (byte_code b0) 128).
  { f_equal. apply IH; [lia|done]. }
  destruct (in_range 194 223 b0).
  { destruct r0 as [|b1 r1]; [done|].
    apply andb_true_iff in Hv as [-> Hv]. simpl in Hlen.
    do 2 f_equal. apply IH; [lia|done]. }
  destruct (in_range 224 239 b0).
  { destruct r0 as [|b1 [|b2 r2]]; [done..|].
    apply andb_true_iff in Hv as [Hv Hv2].
    apply andb_true_iff in Hv as [-> ->]. simpl in Hlen.
    do 3 f_equal. apply IH; [lia|done]. }
  destruct (in_range 240 244 b0); [|done].
  destruct r0 as [|b1 [|b2 [|b3 r3]]]; [done..|].
  apply andb_true_iff in Hv as [Hv Hv3].
  apply andb_true_iff in Hv as [Hv ->].
  apply andb_true_iff in Hv as [-> ->]. simpl in Hlen.
  do 4 f_equal. apply IH; [lia|done].
Qed.

(** Reading well-formed UTF-8 gives the bytes back. *)
Lemma utf8_valid_decode (s : string) : utf8_valid s = true → utf8_decode s = s.
Proof. by apply (utf8_valid_decode_fuel (String.length s)). Qed.

Lemma truthy_nonempty (s : string) : s ≠ EmptyString → truthy s = true.
Proof. by destruct s. Qed.
End Utf8.

Section Marker.
Context (t : Tools).

Lemma up_to_cleanup_Ok_marker (w w1 : World) (sv : Z * string) (bytes : string) :
  up_to_cleanup t w = (Ok sv, w1) →
  w_fs w !! cnamePath t = Some (File bytes) →
  w_fs w1 !! cnamePath t =
    if truthy (utf8_decode bytes) then Some (File (utf8_decode bytes)) else None.
Proof.
  unfold up_to_cleanup.
  intros (s & w0 & [= <- <-] & H)%bind_Ok_inv Hmarker.
  apply bind_Ok_inv in H as (v & w2 & Hv & H).
  unfold generateVersion, execAsync_git_log in Hv.
  apply bind_Ok_inv in Hv as (rev & w3 & [_ ->]%lift_Ok_inv & [= _ <-]).
  apply bind_Ok_inv in H as ([] & w4 & Hstep & Hret).
  rewrite run_ret in Hret. assert (w4 = w1) as -> by congruence.
  apply step_Ok_inv in Hstep as (w5 & Hclean & ->). simpl.
  destruct (cleanup_Ok_inv t _ _ _ Hclean) as [[Hnone _]|(text & Htext & ->)];
    simpl in *.
  - congruence.
  - assert (text = bytes) as -> by congruence. apply cleaned_marker.
Qed.
End Marker.

(** C1, as amended.  For every build run in which the output directory holds
    a marker file [CNAME] whose content is not empty and is well-formed
    UTF-8, and in which step 1 completes, the marker file's content after
    the run, however the later steps end, equals its content before the run
    byte for byte, although the output directory is deleted and recreated in
    between. *)
Theorem marker_survives_build
    (t : Tools) (w w1 w' : World) (sv : Z * string) (o : outcome unit) (text : string) :
  w_fs w !! cnamePath t = Some (File text) →
  text ≠ EmptyString →
  utf8_valid text = true →
  up_to_cleanup t w = (Ok sv, w1) →
  build t w = (o, w') →
  w_fs w' !! cnamePath t = Some (File text).
Proof.
  intros Hmarker Htext Hvalid Hpre. unfold build.
  destruct (String.eqb (platform t) "win32"); [by intros [= _ <-]|].
  rewrite main_split. erewrite run_bind_Ok by exact Hpre.
  intros Hrest%after_cleanup_keeps_marker. unfold keeps in Hrest.
  rewrite Hrest, (up_to_cleanup_Ok_marker t _ _ _ _ Hpre Hmarker).
  rewrite (utf8_valid_decode text Hvalid). by rewrite truthy_nonempty.
Qed.

Lemma marker_survives_build_witness :
  w_fs (build Demo.site Demo.with_marker).2 !! cnamePath Demo.site
  = Some (File "pptr.dev").
Proof.
  apply (marker_survives_build Demo.site Demo.with_marker
           (up_to_cleanup Demo.site Demo.with_marker).2
           (build Demo.site Demo.with_marker).2
           (1000, "1.2.3+abc1234")
           (build Demo.site Demo.with_marker).1 "pptr.dev").
  - vm_compute. reflexivity.
  - discriminate.
  - vm_compute. reflexivity.
  - vm_compute. reflexivity.
  - vm_compute. reflexivity.
Defined.

(** C1 as stated fails, on builds that succeed: a marker file with empty
    content is gone after the build, and a marker file whose content is the
    single byte FF, which is not UTF-8, holds the three bytes of U+FFFD
    after the build. *)
Lemma marker_not_preserved :
  (w_fs Demo.with_empty_marker !! cnamePath Demo.site = Some (File EmptyString) ∧
   (build Demo.site Demo.with_empty_marker).1 = Ok tt ∧
   w_fs (build Demo.site Demo.with_empty_marker).2 !! cnamePath Demo.site = None) ∧
  (w_fs Demo.with_invalid_marker !! cnamePath Demo.site
     = Some (File (String (ascii_of_nat 255) EmptyString)) ∧
   (build Demo.site Demo.with_invalid_marker).1 = Ok tt ∧
   w_fs (build Demo.site Demo.with_invalid_marker).2 !! cnamePath Demo.site
     = Some (File replacement)).
Proof. split; (split; [|split]); vm_compute; reflexivity. Qed.

(** C2.  If the run reaches step 2 and the minifier reports an error on the
    bundle, the process exits with status 1, and the output directory then
    holds no [index.html], no [sw.js], nothing below [images] or [favicons]
    (and no [index.js] or [style.css] either): the later steps never run. *)
Theorem minify_error_exits_1 (t : Tools) (w w1 : World) (sv : Z * string) (bundled e : string) :
  String.eqb (platform t) "win32" = false →
  up_to_cleanup t w = (Ok sv, w1) →
  rollup t (w_fs w1) (path_join (SRC_PATH t) ["index.js"]) = Success bundled →
  error (uglify_minify t bundled) = Some e →
  ∃ w', build t w = (Exit 1, w') ∧
        w_events w' = w_events w1 ++ [ConsoleTime "2. generate index.js";
                                      ConsoleError ("JS Minification failed: " +:+ e)] ∧
        w_fs w' !! path_join (DST_PATH t) ["index.html"] = None ∧
        w_fs w' !! path_join (DST_PATH t) ["sw.js"] = None ∧
        (∀ p, copied t p → w_fs w' !! p = None) ∧
        w_fs w' !! path_join (DST_PATH t) ["index.js"] = None ∧
        w_fs w' !! path_join (DST_PATH t) ["style.css"] = None.
Proof.
  intros Hplat Hpre Hroll Herr.
  eexists. split.
  { unfold build. rewrite Hplat, main_split.
    erewrite run_bind_Ok by exact Hpre.
    unfold after_cleanup. rewrite run_bind, run_step.
    erewrite run_generate_index_js_error by done. reflexivity. }
  simpl. split; [by rewrite <- app_assoc|].
  assert (Hfile : ∀ a, a ≠ "CNAME" → w_fs w1 !! path_join (DST_PATH t) [a] = None).
  { intros a Ha. eapply up_to_cleanup_Ok_output_empty; [done|..].
    - by apply prefix_app_r.
    - apply snoc_neq.
    - unfold cnamePath. by intros H%output_file_inj. }
  repeat split; try (apply Hfile; discriminate).
  intros p Hp. eapply up_to_cleanup_Ok_output_empty; [done|..].
  - destruct Hp as [Hp|Hp]; by apply prefix_app_l in Hp.
  - intros ->. destruct Hp as [Hp|Hp]; by apply output_not_below_file in Hp.
  - intros ->. by apply marker_not_copied in Hp.
Qed.

Lemma minify_error_exits_1_witness :
  ∃ w', build Demo.site_bad_js Demo.with_marker = (Exit 1, w') ∧
        w_events w' =
          w_events (up_to_cleanup Demo.site_bad_js Demo.with_marker).2 ++
          [ConsoleTime "2. generate index.js";
           ConsoleError ("JS Minification failed: " +:+ "Unexpected token")] ∧
        w_fs w' !! path_join (DST_PATH Demo.site_bad_js) ["index.html"] = None ∧
        w_fs w' !! path_join (DST_PATH Demo.site_bad_js) ["sw.js"] = None ∧
        (∀ p, copied Demo.site_bad_js p → w_fs w' !! p = None) ∧
        w_fs w' !! path_join (DST_PATH Demo.site_bad_js) ["index.js"] = None ∧
        w_fs w' !! path_join (DST_PATH Demo.site_bad_js) ["style.css"] = None.
Proof.
  apply (minify_error_exits_1 Demo.site_bad_js Demo.with_marker
           (up_to_cleanup Demo.site_bad_js Demo.with_marker).2
           (1000, "1.2.3+abc1234") "console.log(1)" "Unexpected token").
  all: vm_compute; reflexivity.
Defined.

(** ** Successful runs, step by step *)

Section Success.
Context (t : Tools).

Lemma build_Ok_inv (w w' : World) (u : unit) :
  build t w = (Ok u, w') →
  ∃ sv w1, up_to_cleanup t w = (Ok sv, w1) ∧
           after_cleanup t sv.1 sv.2 w1 = (Ok u, w').
Proof.
  unfold build. destruct (String.eqb (platform t) "win32"); [discriminate|].
  rewrite main_split. intros (sv & w1 & H1 & H2)%bind_Ok_inv. eauto.
Qed.

Lemma up_to_cleanup_Ok_inv (w w1 : World) (sv : Z * string) :
  up_to_cleanup t w = (Ok sv, w1) →
  ∃ rev, git_log t = Success rev ∧
         sv = (clock t (w_ticks w), package_version t +:+ "+" +:+ rev) ∧
         w_ticks w1 = S (w_ticks w) ∧
         ∀ p, ¬ in_output t p → w_fs w1 !! p = w_fs w !! p.
Proof.
  unfold up_to_cleanup.
  intros (s & w0 & [= <- <-] & H)%bind_Ok_inv.
  apply bind_Ok_inv in H as (v & w2 & Hv & H).
  unfold generateVersion, execAsync_git_log in Hv.
  apply bind_Ok_inv in Hv as (rev & w3 & [Hrev ->]%lift_Ok_inv & [= <- <-]).
  apply bind_Ok_inv in H as ([] & w4 & Hstep & [= <- <-]).
  exists rev. split; [done|]. split; [done|].
  destruct (writes_step (in_output t) _ _ (writes_cleanup_output_folder t)
              _ _ _ Hstep) as [Hfs Hticks].
  split; [done|].
  intros p Hp. by rewrite Hfs.
Qed.

Lemma after_cleanup_Ok_inv (startTime : Z) (v : string) (w1 w' : World) (u : unit) :
  after_cleanup t startTime v w1 = (Ok u, w') →
  ∃ w2 w3 w4 w5 w6,
    step "2. generate index.js" (generate_index_js t v) w1 = (Ok tt, w2) ∧
    step "3. generate style.css" (generate_style_css t) w2 = (Ok tt, w3) ∧
    step "4. generate index.html" (generate_index_html t) w3 = (Ok tt, w4) ∧
    step "5. copy images and favicons" (copy_images_and_favicons t) w4 = (Ok tt, w5) ∧
    step "6. generate sw.js" (generate_sw_js t) w5 = (Ok tt, w6) ∧
    w' = mkWorld (w_fs w6)
           (w_events w6 ++
            [ConsoleLog (done_message v
               (seconds_of (clock t (S (w_ticks w6))) startTime))])
           (w_browsers w6) (S (S (w_ticks w6))).
Proof.
  unfold after_cleanup.
  intros ([] & w2 & H2 & H)%bind_Ok_inv.
  apply bind_Ok_inv in H as ([] & w3 & H3 & H).
  apply bind_Ok_inv in H as ([] & w4 & H4 & H).
  apply bind_Ok_inv in H as ([] & w5 & H5 & H).
  apply bind_Ok_inv in H as ([] & w6 & H6 & H).
  exists w2, w3, w4, w5, w6. repeat (split; [done|]).
  by injection H as _ <-.
Qed.

(** The steps after the one that writes the file [name] leave it alone. *)
Lemma step_3_keeps (a : string) :
  a ≠ "style.css" →
  respects (keeps (path_join (DST_PATH t) [a]))
           (step "3. generate style.css" (generate_style_css t)).
Proof.
  intros Ha. eapply keeps_step; [apply writes_generate_style_css|].
  by intros ?%output_file_inj.
Qed.

Lemma step_4_keeps (a : string) :
  a ≠ "index.html" →
  respects (keeps (path_join (DST_PATH t) [a]))
           (step "4. generate index.html" (generate_index_html t)).
Proof.
  intros Ha. eapply keeps_step; [apply writes_generate_index_html|].
  by intros ?%output_file_inj.
Qed.

Lemma step_5_keeps (a : string) :
  a ≠ "images" → a ≠ "favicons" →
  respects (keeps (path_join (DST_PATH t) [a]))
           (step "5. copy images and favicons" (copy_images_and_favicons t)).
Proof.
  intros Hi Hf. eapply keeps_step; [apply writes_copy_images_and_favicons|].
  by intros [H|H]; apply output_file_not_below in H.
Qed.

Lemma step_6_keeps (a : string) :
  a ≠ "sw.js" →
  respects (keeps (path_join (DST_PATH t) [a]))
           (step "6. generate sw.js" (generate_sw_js t)).
Proof.
  intros Ha. eapply keeps_step; [apply writes_generate_sw_js|].
  by intros ?%output_file_inj.
Qed.

Lemma generate_index_js_Ok_inv (v : string) (w w' : World) (u : unit) :
  generate_index_js t v w = (Ok u, w') →
  ∃ bundled,
    rollup t (w_fs w) (path_join (SRC_PATH t) ["index.js"]) = Success bundled ∧
    error (uglify_minify t bundled) = None ∧
    w_fs w' !! path_join (DST_PATH t) ["index.js"] =
      Some (File (banner +:+
                  ("window.__WEBSITE_VERSION__ = " +:+ dquote +:+ v +:+ dquote
                     +:+ ";" +:+ nl) +:+
                  code (uglify_minify t bundled))).
Proof.
  unfold generate_index_js.
  intros (bundled & w1 & [Hroll ->]%fs_read_Ok_inv & H)%bind_Ok_inv.
  exists bundled. split; [done|].
  destruct (error (uglify_minify t bundled)) as [e|].
  { apply bind_Ok_inv in H as (? & ? & _ & [=]). }
  split; [done|].
  apply fs_update_Ok_inv in H as (fs' & ->%writeFileSync_Success & ->).
  simpl. by rewrite lookup_insert_eq.
Qed.

Lemma mapM_read_Ok_inv (paths : list path) (w w' : World) (contents : list string) :
  mapM (fun p => fs_read (fun fs => readFileSync fs p)) paths w = (Ok contents, w') →
  w' = w ∧ Forall2 (fun p c => readFileSync (w_fs w) p = Success c) paths contents.
Proof.
  revert contents w'. induction paths as [|p paths IH]; simpl; intros contents w'.
  - intros [= <- <-]. split; [done|constructor].
  - intros (c & w1 & [Hc ->]%fs_read_Ok_inv & H)%bind_Ok_inv.
    apply bind_Ok_inv in H as (cs & w2 & [-> Hcs]%IH & [= <- <-]).
    split; [done|]. by constructor.
Qed.

Lemma globAsync_Ok_inv (cwd : path) (pattern : string) (w w' : World) (l : list path) :
  globAsync t cwd pattern w = (Ok l, w') →
  w' = w ∧ ∃ files, glob t (w_fs w) cwd pattern = Success files ∧
                    l = map (fun file => path_join cwd file) files.
Proof.
  unfold globAsync.
  intros (files & w1 & [Hg ->]%fs_read_Ok_inv & [= <- <-])%bind_Ok_inv.
  eauto.
Qed.

Lemma generate_style_css_Ok_inv (w w' : World) (u : unit) :
  generate_style_css t w = (Ok u, w') →
  ∃ ui pptr third_party styles,
    glob t (w_fs w) (SRC_PATH t) "ui/**/*.css" = Success ui ∧
    glob t (w_fs w) (SRC_PATH t) "pptr/**/*.css" = Success pptr ∧
    glob t (w_fs w) (SRC_PATH t) "third_party/**/*.css" = Success third_party ∧
    Forall2 (fun rel c => readFileSync (w_fs w) (path_join (SRC_PATH t) rel) = Success c)
            (ui ++ pptr ++ third_party) styles ∧
    w_fs w' !! path_join (DST_PATH t) ["style.css"] =
      Some (File (banner +:+ csso_minify t (join nl styles) false)).
Proof.
  unfold generate_style_css.
  intros (l1 & w1 & [-> (ui & Hui & ->)]%globAsync_Ok_inv & H)%bind_Ok_inv.
  apply bind_Ok_inv in H as (l2 & w2 & [-> (pptr & Hpptr & ->)]%globAsync_Ok_inv & H).
  apply bind_Ok_inv in H as (l3 & w3 & [-> (third & Hthird & ->)]%globAsync_Ok_inv & H).
  apply bind_Ok_inv in H as (styles & w4 & [-> Hread]%mapM_read_Ok_inv & H).
  exists ui, pptr, third, styles. repeat (split; [done|]).
  split.
  - rewrite <- !map_app in Hread. by apply Forall2_fmap_l in Hread.
  - apply fs_update_Ok_inv in H as (fs' & ->%writeFileSync_Success & ->).
    simpl. by rewrite lookup_insert_eq.
Qed.
End Success.

(** ** Steps 2 and 3: the generated script and stylesheet *)

(** C3.  After every successful build, [index.js] in the output directory is
    the generated-file banner, then the line assigning the build version to
    [window.__WEBSITE_VERSION__], then the code the minifier returned for
    the bundle of the source tree; and the build version is the version of
    [package.json], a [+], and the revision printed by git. *)
Theorem index_js_content (t : Tools) (w w' : World) (u : unit) :
  build t w = (Ok u, w') →
  ∃ (rev : string) (fs2 : FS) (bundled : string),
    git_log t = Success rev ∧
    (∀ p, ¬ in_output t p → fs2 !! p = w_fs w !! p) ∧
    rollup t fs2 (path_join (SRC_PATH t) ["index.js"]) = Success bundled ∧
    error (uglify_minify t bundled) = None ∧
    let BUILD_VERSION := package_version t +:+ "+" +:+ rev in
    w_fs w' !! path_join (DST_PATH t) ["index.js"] =
      Some (File (banner +:+
                  ("window.__WEBSITE_VERSION__ = " +:+ dquote +:+ BUILD_VERSION
                     +:+ dquote +:+ ";" +:+ nl) +:+
                  code (uglify_minify t bundled))).
Proof.
  intros (sv & w1 & Hpre & Hpost)%build_Ok_inv.
  apply up_to_cleanup_Ok_inv in Hpre as (rev & Hrev & -> & _ & Hsrc).
  apply after_cleanup_Ok_inv in Hpost
    as (w2 & w3 & w4 & w5 & w6 & H2 & H3 & H4 & H5 & H6 & ->).
  apply step_Ok_inv in H2 as (w2' & H2 & ->).
  apply generate_index_js_Ok_inv in H2 as (bundled & Hroll & Herr & Hfile).
  exists rev, (w_fs w1), bundled. repeat (split; [done|]).
  simpl.
  apply (step_3_keeps t "index.js") in H3; [|done].
  apply (step_4_keeps t "index.js") in H4; [|done].
  apply (step_5_keeps t "index.js") in H5; [|done..].
  apply (step_6_keeps t "index.js") in H6; [|done].
  unfold keeps in *. by rewrite H6, H5, H4, H3.
Qed.

Lemma index_js_content_witness :
  ∃ (rev : string) (fs2 : FS) (bundled : string),
    git_log Demo.site = Success rev ∧
    (∀ p, ¬ in_output Demo.site p → fs2 !! p = w_fs Demo.with_marker !! p) ∧
    rollup Demo.site fs2 (path_join (SRC_PATH Demo.site) ["index.js"]) = Success bundled ∧
    error (uglify_minify Demo.site bundled) = None ∧
    let BUILD_VERSION := package_version Demo.site +:+ "+" +:+ rev in
    w_fs (build Demo.site Demo.with_marker).2
      !! path_join (DST_PATH Demo.site) ["index.js"] =
      Some (File (banner +:+
                  ("window.__WEBSITE_VERSION__ = " +:+ dquote +:+ BUILD_VERSION
                     +:+ dquote +:+ ";" +:+ nl) +:+
                  code (uglify_minify Demo.site bundled))).
Proof.
  apply (index_js_content Demo.site Demo.with_marker
           (build Demo.site Demo.with_marker).2 tt).
  vm_compute. reflexivity.
Defined.

(** C4.  After every successful build, [style.css] in the output directory is
    the generated-file banner followed by what the CSS minifier, called with
    restructuring disabled, returns for the contents of the files matched
    under [ui/**/*.css], then [pptr/**/*.css], then [third_party/**/*.css],
    in that order, joined by line feeds.  What the minifier does to the rules
    is the minifier's own business. *)
Theorem style_css_content (t : Tools) (w w' : World) (u : unit) :
  build t w = (Ok u, w') →
  ∃ (fs3 : FS) (ui pptr third_party : list path) (styles : list string),
    (∀ p, ¬ in_output t p → fs3 !! p = w_fs w !! p) ∧
    glob t fs3 (SRC_PATH t) "ui/**/*.css" = Success ui ∧
    glob t fs3 (SRC_PATH t) "pptr/**/*.css" = Success pptr ∧
    glob t fs3 (SRC_PATH t) "third_party/**/*.css" = Success third_party ∧
    Forall2 (fun rel content =>
               readFileSync fs3 (path_join (SRC_PATH t) rel) = Success content)
            (ui ++ pptr ++ third_party) styles ∧
    w_fs w' !! path_join (DST_PATH t) ["style.css"] =
      Some (File (banner +:+ csso_minify t (join nl styles) false)).
Proof.
  intros (sv & w1 & Hpre & Hpost)%build_Ok_inv.
  apply up_to_cleanup_Ok_inv in Hpre as (rev & Hrev & -> & _ & Hsrc).
  apply after_cleanup_Ok_inv in Hpost
    as (w2 & w3 & w4 & w5 & w6 & H2 & H3 & H4 & H5 & H6 & ->).
  apply step_Ok_inv in H3 as (w3' & H3 & ->).
  apply generate_style_css_Ok_inv in H3
    as (ui & pptr & third & styles & Hui & Hpptr & Hthird & Hread & Hfile).
  exists (w_fs w2), ui, pptr, third, styles.
  split.
  { intros p Hp. rewrite <- (Hsrc p Hp).
    destruct (writes_step _ _ _ (writes_generate_index_js t _) _ _ _ H2) as [Hfs _].
    apply Hfs. intros <-. apply Hp. by apply prefix_app_r. }
  repeat (split; [done|]). simpl.
  apply (step_4_keeps t "style.css") in H4; [|done].
  apply (step_5_keeps t "style.css") in H5; [|done..].
  apply (step_6_keeps t "style.css") in H6; [|done].
  unfold keeps in *. by rewrite H6, H5, H4.
Qed.

Lemma style_css_content_witness :
  ∃ (fs3 : FS) (ui pptr third_party : list path) (styles : list string),
    (∀ p, ¬ in_output Demo.site p → fs3 !! p = w_fs Demo.with_marker !! p) ∧
    glob Demo.site fs3 (SRC_PATH Demo.site) "ui/**/*.css" = Success ui ∧
    glob Demo.site fs3 (SRC_PATH Demo.site) "pptr/**/*.css" = Success pptr ∧
    glob Demo.site fs3 (SRC_PATH Demo.site) "third_party/**/*.css" = Success third_party ∧
    Forall2 (fun rel content =>
               readFileSync fs3 (path_join (SRC_PATH Demo.site) rel) = Success content)
            (ui ++ pptr ++ third_party) styles ∧
    w_fs (build Demo.site Demo.with_marker).2
      !! path_join (DST_PATH Demo.site) ["style.css"] =
      Some (File (banner +:+ csso_minify Demo.site (join nl styles) false)).
Proof.
  apply (style_css_content Demo.site Demo.with_marker
           (build Demo.site Demo.with_marker).2 tt).
  vm_compute. reflexivity.
Defined.

(** ** Step 4: the page and its stylesheet links *)

Section Page.
Context (t : Tools).

Lemma elem_of_querySelectorAll (d : dom) (i : nat) :
  i ∈ querySelectorAll_stylesheet d ↔ selected d i = true.
Proof.
  unfold querySelectorAll_stylesheet.
  rewrite list_elem_of_filter, elem_of_seq. split; [by intros [? _]|].
  intros H. split; [done|]. unfold selected in H.
  destruct (d !! i) eqn:E; [|done].
  apply lookup_lt_Some in E. lia.
Qed.

Lemma NoDup_querySelectorAll (d : dom) : NoDup (querySelectorAll_stylesheet d).
Proof. apply NoDup_filter, NoDup_seq. Qed.

Lemma getAttribute_setAttribute (attrs : list (string * string)) (name value : string) :
  getAttribute (setAttribute attrs name value) name = Some value.
Proof.
  induction attrs as [|[k v] attrs IH]; simpl.
  - by rewrite String.eqb_refl.
  - destruct (String.eqb k name) eqn:E; simpl; by rewrite E.
Qed.

Lemma getAttribute_setAttribute_ne (attrs : list (string * string)) (name other value : string) :
  name ≠ other →
  getAttribute (setAttribute attrs name value) other = getAttribute attrs other.
Proof.
  intros Hne. induction attrs as [|[k v] attrs IH]; simpl.
  - destruct (String.eqb_spec name other); done.
  - destruct (String.eqb_spec k name) as [->|Hk]; simpl.
    + destruct (String.eqb_spec name other); done.
    + by rewrite IH.
Qed.

(** Assigning [href] leaves a stylesheet link a stylesheet link. *)
Lemma set_href_stylesheet (value : string) (n : node) :
  is_stylesheet_link n = true →
  ∃ tag attrs, n = Element tag attrs ∧
    set_href value (Some n) = Some (Element tag (setAttribute attrs "href" value)) ∧
    is_stylesheet_link (Element tag (setAttribute attrs "href" value)) = true.
Proof.
  destruct n as [tag attrs|s]; [|discriminate]. intros H.
  exists tag, attrs. repeat split. simpl in *.
  by rewrite getAttribute_setAttribute_ne.
Qed.

Lemma length_foldl_remove (d : dom) (l : list nat) :
  length (foldl remove d l) = length d.
Proof.
  revert d. induction l as [|j l IH]; intros d; simpl; [done|].
  rewrite IH. apply length_insert.
Qed.

Lemma lookup_foldl_remove (d : dom) (l : list nat) (i : nat) :
  foldl remove d l !! i =
  if decide (i ∈ l) then (fun _ => None) <$> d !! i else d !! i.
Proof.
  revert d. induction l as [|j l IH]; intros d; cbn [foldl].
  - by rewrite decide_False by apply not_elem_of_nil.
  - rewrite IH. unfold remove. rewrite list_lookup_insert.
    destruct (decide (i ∈ l)) as [Hl|Hl], (decide (i ∈ j :: l)) as [Hjl|Hjl];
      rewrite elem_of_cons in Hjl.
    + case_decide as Hj; [|done]. destruct Hj as [-> Hlt].
      by apply lookup_lt_is_Some in Hlt as [x ->].
    + naive_solver.
    + destruct Hjl as [->|?]; [|done].
      case_decide as Hj.
      * destruct Hj as [_ Hlt]. by apply lookup_lt_is_Some in Hlt as [x ->].
      * apply not_and_l in Hj as [?|Hge]; [done|].
        by rewrite (proj2 (lookup_ge_None d j)) by lia.
    + rewrite decide_False; [done|]. intros [-> _]. naive_solver.
Qed.
End Page.

Section Rewrite.
Context (t : Tools).

Lemma rewrite_links_unfold (url : string) (d : dom) :
  rewrite_links t url d =
  match local_links t url d with
  | [] => Failure "TypeError: Cannot set property 'href' of undefined"
  | first :: rest =>
      Success (foldl remove (alter (set_href "/style.css") first d) rest)
  end.
Proof. reflexivity. Qed.

Lemma elem_of_local_links (url : string) (d : dom) (i : nat) :
  i ∈ local_links t url d ↔
  selected d i = true ∧ startsWith (href t url d i) "file://" = true.
Proof.
  unfold local_links. rewrite list_elem_of_filter, elem_of_querySelectorAll.
  tauto.
Qed.

Lemma selected_Some (d : dom) (i : nat) :
  selected d i = true →
  ∃ n, d !! i = Some (Some n) ∧ is_stylesheet_link n = true.
Proof.
  unfold selected. destruct (d !! i) as [[n|]|]; [eauto|done..].
Qed.

(** What the in-page function does to a page with a local stylesheet link. *)
Lemma rewrite_links_Success (url : string) (d : dom) (first : nat) (rest : list nat) :
  local_links t url d = first :: rest →
  ∃ d', rewrite_links t url d = Success d' ∧
    (∃ tag attrs,
        d !! first = Some (Some (Element tag attrs)) ∧
        d' !! first = Some (Some (Element tag (setAttribute attrs "href" "/style.css")))) ∧
    (∀ i, i ∈ rest → d' !! i = Some None) ∧
    (∀ i, i ≠ first → i ∉ rest → d' !! i = d !! i) ∧
    (∀ i, i ∈ querySelectorAll_stylesheet d' ↔
          i = first ∨
          (i ∈ querySelectorAll_stylesheet d ∧
           startsWith (href t url d i) "file://" = false)).
Proof.
  intros Hlinks. rewrite rewrite_links_unfold, Hlinks.
  eexists. split; [reflexivity|].
  assert (Hnodup : NoDup (first :: rest)).
  { rewrite <- Hlinks. apply NoDup_filter, NoDup_querySelectorAll. }
  apply NoDup_cons in Hnodup as [Hfirst _].
  assert (Hlocal : ∀ i, i = first ∨ i ∈ rest ↔
            selected d i = true ∧ startsWith (href t url d i) "file://" = true).
  { intros i. rewrite <- elem_of_local_links, Hlinks. apply symmetry, elem_of_cons. }
  destruct (proj1 (Hlocal first) (or_introl eq_refl)) as [Hsel _].
  apply selected_Some in Hsel as (n & Hn & Hsheet).
  destruct (set_href_stylesheet "/style.css" n Hsheet)
    as (tag & attrs & -> & Hset & Hsheet').
  assert (Hat_first :
    foldl remove (alter (set_href "/style.css") first d) rest !! first =
    Some (Some (Element tag (setAttribute attrs "href" "/style.css")))).
  { rewrite lookup_foldl_remove, decide_False by done.
    by rewrite list_lookup_alter_eq, Hn. }
  assert (Hat_rest : ∀ i, i ∈ rest →
    foldl remove (alter (set_href "/style.css") first d) rest !! i = Some None).
  { intros i Hi. rewrite lookup_foldl_remove, decide_True by done.
    rewrite list_lookup_alter_ne by (intros ->; done).
    destruct (proj1 (Hlocal i) (or_intror Hi)) as [(m & -> & _)%selected_Some _].
    done. }
  assert (Hat_other : ∀ i, i ≠ first → i ∉ rest →
    foldl remove (alter (set_href "/style.css") first d) rest !! i = d !! i).
  { intros i Hne Hi. rewrite lookup_foldl_remove, decide_False by done.
    by rewrite list_lookup_alter_ne. }
  split; [by exists tag, attrs|]. split; [done|]. split; [done|].
  intros i. rewrite !elem_of_querySelectorAll. split.
  - intros Hsel. destruct (decide (i = first)) as [->|Hne]; [by left|right].
    destruct (decide (i ∈ rest)) as [Hi|Hi].
    { unfold selected in Hsel. by rewrite Hat_rest in Hsel. }
    unfold selected in *. rewrite Hat_other in Hsel by done.
    split; [done|].
    destruct (startsWith (href t url d i) "file://") eqn:E; [|done].
    destruct (proj2 (Hlocal i)); done.
  - intros [->|[Hsel Hforeign]].
    + unfold selected. by rewrite Hat_first.
    + assert (i ≠ first ∧ i ∉ rest) as [Hne Hi].
      { split; intros Hi.
        - destruct (proj1 (Hlocal i) (or_introl Hi)). congruence.
        - destruct (proj1 (Hlocal i) (or_intror Hi)). congruence. }
      unfold selected in *. by rewrite Hat_other.
Qed.

Lemma generate_index_html_Ok_inv (w w' : World) (u : unit) :
  generate_index_html t w = (Ok u, w') →
  ∃ html d' content,
    pptr_launch t = Success tt ∧
    readFileSync (w_fs w) (path_join (SRC_PATH t) ["index.html"]) = Success html ∧
    rewrite_links t (index_url t) (Some <$> parse_html t html) = Success d' ∧
    page_content t (attached d') = Success content ∧
    w_fs w' !! path_join (DST_PATH t) ["index.html"] =
      Some (File (html_banner +:+ strip_blank_lines content)).
Proof.
  unfold generate_index_html, launch, goto.
  intros ([] & w1 & Hlaunch & H)%bind_Ok_inv.
  apply bind_Ok_inv in Hlaunch as ([] & w0 & [Hl ->]%lift_Ok_inv & [= <-]).
  apply bind_Ok_inv in H as (d & w2 & Hgoto & H).
  apply bind_Ok_inv in Hgoto as (html & w3 & [Hread ->]%fs_read_Ok_inv & [= <- <-]).
  apply bind_Ok_inv in H as (d' & w4 & [Hrw ->]%lift_Ok_inv & H).
  apply bind_Ok_inv in H as (content & w5 & [Hcontent ->]%lift_Ok_inv & H).
  apply bind_Ok_inv in H as ([] & w6 & [= <-] & H).
  apply fs_update_Ok_inv in H as (fs' & ->%writeFileSync_Success & ->).
  exists html, d', content. repeat (split; [done|]).
  simpl. by rewrite lookup_insert_eq.
Qed.
End Rewrite.

(** C5, as amended.  Whenever step 4 completes, the page had at least one
    stylesheet link whose [href] starts with [file://], and the document
    serialized into [index.html] is the source page with the first such link
    pointing to [/style.css], every other such link removed, and every other
    node, stylesheet links from other origins included, left as it was: its
    stylesheet links are exactly that first link and the links from other
    origins. *)
Theorem index_html_stylesheet_links (t : Tools) (w w' : World) (u : unit) :
  generate_index_html t w = (Ok u, w') →
  ∃ (html : string) (first : nat) (rest : list nat) (d' : dom) (content : string),
    let d := Some <$> parse_html t html in
    readFileSync (w_fs w) (path_join (SRC_PATH t) ["index.html"]) = Success html ∧
    local_links t (index_url t) d = first :: rest ∧
    page_content t (attached d') = Success content ∧
    w_fs w' !! path_join (DST_PATH t) ["index.html"] =
      Some (File (html_banner +:+ strip_blank_lines content)) ∧
    (∃ tag attrs,
        d !! first = Some (Some (Element tag attrs)) ∧
        d' !! first = Some (Some (Element tag (setAttribute attrs "href" "/style.css"))) ∧
        getAttribute (setAttribute attrs "href" "/style.css") "href" = Some "/style.css") ∧
    (∀ i, i ∈ rest → d' !! i = Some None) ∧
    (∀ i, i ≠ first → i ∉ rest → d' !! i = d !! i) ∧
    (∀ i, i ∈ querySelectorAll_stylesheet d' ↔
          i = first ∨
          (i ∈ querySelectorAll_stylesheet d ∧
           startsWith (href t (index_url t) d i) "file://" = false)).
Proof.
  intros (html & d' & content & _ & Hread & Hrw & Hcontent & Hfile)%generate_index_html_Ok_inv.
  destruct (local_links t (index_url t) (Some <$> parse_html t html))
    as [|first rest] eqn:Hlinks.
  { rewrite rewrite_links_unfold, Hlinks in Hrw. discriminate. }
  destruct (rewrite_links_Success t _ _ _ _ Hlinks)
    as (d2 & Hrw2 & (tag & attrs & Hd & Hd') & Hrest & Hother & Hsheets).
  assert (d2 = d') as -> by congruence.
  exists html, first, rest, d', content. simpl.
  repeat (split; [done|]). split; [|done].
  exists tag, attrs. repeat (split; [done|]). apply getAttribute_setAttribute.
Qed.

Lemma index_html_stylesheet_links_witness :
  ∃ (html : string) (first : nat) (rest : list nat) (d' : dom) (content : string),
    let d := Some <$> parse_html Demo.site html in
    readFileSync (w_fs Demo.with_marker) (path_join (SRC_PATH Demo.site) ["index.html"])
      = Success html ∧
    local_links Demo.site (index_url Demo.site) d = first :: rest ∧
    page_content Demo.site (attached d') = Success content ∧
    w_fs (generate_index_html Demo.site Demo.with_marker).2
      !! path_join (DST_PATH Demo.site) ["index.html"] =
      Some (File (html_banner +:+ strip_blank_lines content)) ∧
    (∃ tag attrs,
        d !! first = Some (Some (Element tag attrs)) ∧
        d' !! first = Some (Some (Element tag (setAttribute attrs "href" "/style.css"))) ∧
        getAttribute (setAttribute attrs "href" "/style.css") "href" = Some "/style.css") ∧
    (∀ i, i ∈ rest → d' !! i = Some None) ∧
    (∀ i, i ≠ first → i ∉ rest → d' !! i = d !! i) ∧
    (∀ i, i ∈ querySelectorAll_stylesheet d' ↔
          i = first ∨
          (i ∈ querySelectorAll_stylesheet d ∧
           startsWith (href Demo.site (index_url Demo.site) d i) "file://" = false)).
Proof.
  apply (index_html_stylesheet_links Demo.site Demo.with_marker
           (generate_index_html Demo.site Demo.with_marker).2 tt).
  vm_compute. reflexivity.
Defined.

(** C5 as stated fails: on a page with two local stylesheets and one from
    another origin the in-page function succeeds, and the document it leaves
    has two stylesheet links, one of them not [/style.css]. *)
Lemma foreign_stylesheet_link_kept :
  ∃ d', rewrite_links Demo.site (index_url Demo.site) (Some <$> Demo.nodes_mixed)
        = Success d' ∧
        filter (fun n => is_stylesheet_link n = true) (attached d') =
        [Demo.link "stylesheet" "/style.css";
         Demo.link "stylesheet" "https://cdn.example/font.css"] ∧
        (generate_index_html Demo.site Demo.with_marker).1 = Ok tt ∧
        w_fs (generate_index_html Demo.site Demo.with_marker).2
          !! path_join (DST_PATH Demo.site) ["index.html"] =
        Some (File (html_banner +:+
                    strip_blank_lines (join nl (map Demo.show_node (attached d'))))).
Proof. eexists. repeat split; vm_compute; reflexivity. Qed.

(** C10.  Step 4 needs a stylesheet link whose [href] starts with [file://]
    in the source page: with one, the in-page function returns a document;
    with none, it throws, and so does the step once the browser is launched
    and the page is loaded. *)
Theorem local_stylesheet_link_required (t : Tools) (w : World) (html : string) :
  pptr_launch t = Success tt →
  readFileSync (w_fs w) (path_join (SRC_PATH t) ["index.html"]) = Success html →
  let d := Some <$> parse_html t html in
  ((∃ i, i ∈ querySelectorAll_stylesheet d ∧
         startsWith (href t (index_url t) d i) "file://" = true) →
   ∃ d', rewrite_links t (index_url t) d = Success d') ∧
  ((¬ ∃ i, i ∈ querySelectorAll_stylesheet d ∧
           startsWith (href t (index_url t) d i) "file://" = true) →
   ∃ err w', rewrite_links t (index_url t) d = Failure err ∧
             generate_index_html t w = (Throw err, w') ∧
             w_fs w' = w_fs w).
Proof.
  intros Hlaunch Hread d. split.
  - intros (i & Hi & Hlocal).
    destruct (local_links t (index_url t) d) as [|first rest] eqn:Hlinks.
    + assert (i ∈ local_links t (index_url t) d) as Hin.
      { apply elem_of_local_links. by rewrite <- elem_of_querySelectorAll. }
      rewrite Hlinks in Hin. by apply elem_of_nil in Hin.
    + destruct (rewrite_links_Success t _ _ _ _ Hlinks) as (d' & Hd' & _). eauto.
  - intros Hnone.
    assert (local_links t (index_url t) d = []) as Hlinks.
    { destruct (local_links t (index_url t) d) as [|first rest] eqn:Hlinks; [done|].
      destruct Hnone. exists first.
      rewrite elem_of_querySelectorAll. apply elem_of_local_links.
      rewrite Hlinks. by left. }
    do 2 eexists. split; [by rewrite rewrite_links_unfold, Hlinks|].
    unfold generate_index_html, launch, goto.
    rewrite Hlaunch. rewrite !run_bind. simpl.
    unfold fs_read. rewrite !run_bind. simpl. rewrite Hread. simpl.
    fold d. fold (index_url t). rewrite rewrite_links_unfold, Hlinks. simpl.
    split; reflexivity.
Qed.

Lemma local_stylesheet_link_required_witness :
  ((∃ i, i ∈ querySelectorAll_stylesheet Demo.foreign_page ∧
         startsWith (href Demo.site_foreign (index_url Demo.site_foreign)
                       Demo.foreign_page i) "file://" = true) →
   ∃ d', rewrite_links Demo.site_foreign (index_url Demo.site_foreign)
           Demo.foreign_page = Success d') ∧
  ((¬ ∃ i, i ∈ querySelectorAll_stylesheet Demo.foreign_page ∧
           startsWith (href Demo.site_foreign (index_url Demo.site_foreign)
                         Demo.foreign_page i) "file://" = true) →
   ∃ err w', rewrite_links Demo.site_foreign (index_url Demo.site_foreign)
               Demo.foreign_page = Failure err ∧
             generate_index_html Demo.site_foreign Demo.with_marker = (Throw err, w') ∧
             w_fs w' = w_fs Demo.with_marker).
Proof.
  apply (local_stylesheet_link_required Demo.site_foreign Demo.with_marker "<html>").
  - vm_compute. reflexivity.
  - vm_compute. reflexivity.
Defined.

(** ** Step 4: the browser session *)

Section Browser.
Context (t : Tools).

(** The run of step 4 up to its last call, once the browser is launched
    and the page is loaded. *)
Lemma run_generate_index_html (w : World) (html : string) :
  pptr_launch t = Success tt →
  readFileSync (w_fs w) (path_join (SRC_PATH t) ["index.html"]) = Success html →
  generate_index_html t w =
  let launched := mkWorld (w_fs w) (w_events w ++ [BrowserLaunch])
                          (S (w_browsers w)) (w_ticks w) in
  match rewrite_links t (index_url t) (Some <$> parse_html t html) with
  | Failure err => (Throw err, launched)
  | Success d' =>
      match page_content t (attached d') with
      | Failure err => (Throw err, launched)
      | Success content =>
          fs_update
            (fun fs => writeFileSync fs (path_join (DST_PATH t) ["index.html"])
                         (html_banner +:+ strip_blank_lines content))
            (mkWorld (w_fs w) (w_events w ++ [BrowserLaunch; BrowserClose])
                     (w_browsers w) (w_ticks w))
      end
  end.
Proof.
  intros Hlaunch Hread. unfold generate_index_html, launch, goto.
  rewrite Hlaunch. rewrite !run_bind. simpl.
  unfold fs_read. rewrite !run_bind. simpl. rewrite Hread. simpl.
  fold (index_url t).
  destruct (rewrite_links t (index_url t) (Some <$> parse_html t html))
    as [d'|err]; simpl; [|done].
  rewrite run_bind. simpl. rewrite run_bind.
  destruct (page_content t (attached d')) as [content|err]; simpl; [|done].
  rewrite run_bind. simpl. by rewrite <- app_assoc.
Qed.

(** When the in-page function or the serialization throws, [browser.close()]
    is not reached. *)
Lemma browser_left_open (w : World) (html : string) :
  pptr_launch t = Success tt →
  readFileSync (w_fs w) (path_join (SRC_PATH t) ["index.html"]) = Success html →
  (∀ d', rewrite_links t (index_url t) (Some <$> parse_html t html) = Success d' →
         ∃ err, page_content t (attached d') = Failure err) →
  ∃ err w', generate_index_html t w = (Throw err, w') ∧
            w_browsers w' = S (w_browsers w) ∧
            w_events w' = w_events w ++ [BrowserLaunch].
Proof.
  intros Hlaunch Hread Hfail. rewrite (run_generate_index_html w html) by done.
  simpl. destruct (rewrite_links _ _ _) as [d'|err]; [|by eauto].
  destruct (Hfail d' eq_refl) as [err ->]. by eauto.
Qed.
End Browser.

(** C6, as amended.  In every execution of step 4 in which the page is
    loaded, the in-page function returns and the content is serialized, the
    browser session that the step launched is closed before the step writes
    [index.html], and so before it completes or fails. *)
Theorem browser_closed_after_rendering
    (t : Tools) (w w' : World) (o : outcome unit) (html content : string) (d' : dom) :
  pptr_launch t = Success tt →
  readFileSync (w_fs w) (path_join (SRC_PATH t) ["index.html"]) = Success html →
  rewrite_links t (index_url t) (Some <$> parse_html t html) = Success d' →
  page_content t (attached d') = Success content →
  generate_index_html t w = (o, w') →
  w_browsers w' = w_browsers w ∧
  w_events w' = w_events w ++ [BrowserLaunch; BrowserClose].
Proof.
  intros Hlaunch Hread Hrw Hcontent.
  rewrite (run_generate_index_html t w html) by done.
  simpl. rewrite Hrw, Hcontent.
  unfold fs_update. rewrite run_bind. simpl. rewrite run_bind.
  destruct (writeFileSync _ _ _) as [fs'|err]; simpl; by intros [= _ <-].
Qed.

Lemma browser_closed_after_rendering_witness :
  w_browsers (generate_index_html Demo.site Demo.with_marker).2
    = w_browsers Demo.with_marker ∧
  w_events (generate_index_html Demo.site Demo.with_marker).2
    = w_events Demo.with_marker ++ [BrowserLaunch; BrowserClose].
Proof.
  apply (browser_closed_after_rendering Demo.site Demo.with_marker
           (generate_index_html Demo.site Demo.with_marker).2
           (generate_index_html Demo.site Demo.with_marker).1
           "<html>"
           (join nl (map Demo.show_node
              [Element "html" []; Demo.link "stylesheet" "/style.css";
               Demo.link "stylesheet" "https://cdn.example/font.css";
               Element "body" []; Text "hello"]))
           [Some (Element "html" []); Some (Demo.link "stylesheet" "/style.css");
            Some (Demo.link "stylesheet" "https://cdn.example/font.css");
            None; Some (Element "body" []); Some (Text "hello")]).
  all: vm_compute; reflexivity.
Defined.

(** C6 as stated fails: on a page without a local stylesheet the in-page
    function throws, the step fails, and the session it launched is still
    open. *)
Lemma browser_leaked_on_failure :
  ∃ err w',
    generate_index_html Demo.site_foreign Demo.with_marker = (Throw err, w') ∧
    w_browsers Demo.with_marker = 0%nat ∧
    w_browsers w' = 1%nat ∧
    w_events w' = [BrowserLaunch].
Proof. do 2 eexists. repeat split; vm_compute; reflexivity. Qed.

(** ** Step 6 and the closing message: counts and rounded numbers *)

(** ** Rounding to the nearest double *)

Ltac euclid := Z.to_euclidean_division_equations; lia.

Section Doubles.

Lemma pow2_pos (e : Z) : (0 < pow2 e)%Q.
Proof. apply Qpower_0_lt. reflexivity. Qed.

Lemma pow2_add (x y : Z) : (pow2 (x + y) == pow2 x * pow2 y)%Q.
Proof. apply Qpower_plus. discriminate. Qed.

Lemma pow2_Z (k : Z) : 0 <= k -> (pow2 k == inject_Z (2 ^ k))%Q.
Proof. intros Hk. unfold pow2. rewrite Zpower_Qpower by done. reflexivity. Qed.

Lemma pow2_le (x y : Z) : x <= y -> (pow2 x <= pow2 y)%Q.
Proof. intros H. apply Qpower_le_compat_l; [done|]. discriminate. Qed.

Lemma pow2_lt_inv (x y : Z) : (pow2 x < pow2 y)%Q -> x < y.
Proof. intros H. by apply (Qpower_lt_compat_l_inv 2). Qed.

Lemma to_double_comp (x y : Q) : (x == y)%Q -> to_double x = to_double y.
Proof. intros H. unfold to_double. by rewrite (Qred_complete _ _ H). Qed.

#[global] Instance to_double_proper : Proper (Qeq ==> Qeq) to_double.
Proof. intros x y H. by rewrite (to_double_comp x y H). Qed.


Lemma pow2_53 : (pow2 53 == 2 * pow2 52)%Q.
Proof. reflexivity. Qed.

Lemma pow2_pred (e : Z) : (pow2 (e - 1) == pow2 e / 2)%Q.
Proof.
  replace (e - 1) with (e + -1) by lia. rewrite pow2_add.
  change (pow2 (-1)) with (/ 2)%Q. reflexivity.
Qed.

Lemma div_mul_cancel (a x : Q) : (0 < x)%Q -> (a / x * x == a)%Q.
Proof. intros Hx. field. lra. Qed.

Lemma binade_spec (a : Q) :
  (0 < a)%Q -> (pow2 52 <= a / pow2 (binade a) /\ a / pow2 (binade a) < pow2 53)%Q.
Proof.
  intros Ha. unfold binade.
  set (n := Qnum a). set (d := Qden a).
  assert (Hn : 0 < n).
  { unfold Qlt in Ha. simpl in Ha. fold n in Ha. lia. }
  set (L := Z.log2 n). set (D := Z.log2 (Z.pos d)).
  destruct (Z.log2_spec n Hn) as [HL1 HL2]. fold L in HL1, HL2.
  destruct (Z.log2_spec (Z.pos d) ltac:(lia)) as [HD1 HD2]. fold D in HD1, HD2.
  assert (HL0 : 0 <= L) by apply Z.log2_nonneg.
  assert (HD0 : 0 <= D) by apply Z.log2_nonneg.
  set (e0 := L - D - 52).
  pose proof (pow2_pos e0) as HX. set (X := pow2 e0) in *.
  pose proof (pow2_pos 52) as HT. set (T := pow2 52) in *.
  set (Sc := (a / X)%Q).
  assert (HSX : (Sc * X == a)%Q) by (apply div_mul_cancel; done).
  assert (Hdq : (0 < inject_Z (Z.pos d))%Q) by reflexivity.
  assert (Had : (a * inject_Z (Z.pos d) == inject_Z n)%Q).
  { destruct a as [n' d']. subst n d. cbn [Qnum Qden].
    rewrite (Qmake_Qdiv n' d'). field. discriminate. }
  assert (HqL : (inject_Z (2 ^ L) == X * inject_Z (2 ^ D) * T)%Q).
  { rewrite <- !pow2_Z by done. subst X T. rewrite <- !pow2_add.
    f_equiv. subst e0. lia. }
  rewrite Zle_Qle in HL1, HD1. rewrite Zlt_Qlt in HL2, HD2.
  rewrite Z.pow_succ_r, inject_Z_mult in HL2, HD2 by done.
  change (inject_Z 2) with 2%Q in *.
  set (qL := inject_Z (2 ^ L)) in *. set (qD := inject_Z (2 ^ D)) in *.
  set (nq := inject_Z n) in *. set (dq := inject_Z (Z.pos d)) in *.
  assert (HqD : (0 < qD)%Q).
  { subst qD. change 0%Q with (inject_Z 0). rewrite <- Zlt_Qlt. lia. }
  assert (HK : (0 < X * dq)%Q) by (apply Qmult_lt_0_compat; done).
  assert (HSK : (Sc * (X * dq) == nq)%Q) by (rewrite <- Had, <- HSX; ring).
  assert (Hup : (Sc < 2 * T)%Q).
  { apply (Qmult_lt_r _ _ (X * dq) HK). rewrite HSK.
    apply Qlt_le_trans with (2 * qL)%Q; [done|]. rewrite HqL.
    assert (X * qD * T <= X * dq * T)%Q; [|lra].
    apply Qmult_le_compat_r; [|lra]. apply Qmult_le_l; done. }
  assert (Hlo : (T < 2 * Sc)%Q).
  { apply (Qmult_lt_r _ _ (X * dq) HK).
    assert (2 * Sc * (X * dq) == 2 * nq)%Q as -> by (rewrite <- HSK; ring).
    apply Qlt_le_trans with (2 * qL)%Q; [|lra]. rewrite HqL.
    assert (X * dq * T < X * (2 * qD) * T)%Q.
    { apply Qmult_lt_compat_r; [done|]. apply Qmult_lt_l; done. }
    lra. }
  destruct (Qcompare_spec Sc T) as [Heq|Hlt|Hgt].
  - change (T <= Sc /\ Sc < pow2 53)%Q. rewrite pow2_53. fold T. split; lra.
  - rewrite pow2_53, pow2_pred. fold X T.
    assert (a / (X / 2) == 2 * Sc)%Q as -> by (subst Sc; field; lra).
    split; lra.
  - change (T <= Sc /\ Sc < pow2 53)%Q. rewrite pow2_53. fold T. split; lra.
Qed.

Lemma le_div_pow2 (a : Q) (e k : Z) :
  (pow2 k <= a / pow2 e <-> pow2 (k + e) <= a)%Q.
Proof.
  rewrite pow2_add. pose proof (pow2_pos e) as HX. split; intros H.
  - rewrite <- (div_mul_cancel a (pow2 e) HX).
    apply Qmult_le_compat_r; [done|lra].
  - by apply Qle_shift_div_l.
Qed.

Lemma lt_div_pow2 (a : Q) (e k : Z) :
  (a / pow2 e < pow2 k <-> a < pow2 (k + e))%Q.
Proof.
  rewrite pow2_add. pose proof (pow2_pos e) as HX. split; intros H.
  - rewrite <- (div_mul_cancel a (pow2 e) HX).
    by apply Qmult_lt_compat_r.
  - by apply Qlt_shift_div_r.
Qed.

Lemma binade_unique (a : Q) (e : Z) :
  (0 < a)%Q -> (pow2 52 <= a / pow2 e)%Q -> (a / pow2 e < pow2 53)%Q ->
  binade a = e.
Proof.
  intros Ha H1 H2. destruct (binade_spec a Ha) as [B1 B2].
  apply le_div_pow2 in H1, B1. apply lt_div_pow2 in H2, B2.
  pose proof (pow2_lt_inv _ _ (Qle_lt_trans _ _ _ H1 B2)).
  pose proof (pow2_lt_inv _ _ (Qle_lt_trans _ _ _ B1 H2)).
  lia.
Qed.

Lemma binade_below (a : Q) (k : Z) :
  (0 < a)%Q -> (a < pow2 k)%Q -> binade a <= k - 53.
Proof.
  intros Ha H. destruct (binade_spec a Ha) as [B1 _].
  apply le_div_pow2 in B1.
  pose proof (pow2_lt_inv _ _ (Qle_lt_trans _ _ _ B1 H)). lia.
Qed.

Lemma binade_comp (a b : Q) : (0 < a)%Q -> (a == b)%Q -> binade a = binade b.
Proof.
  intros Ha Hab. assert (Hb : (0 < b)%Q) by (by rewrite <- Hab).
  destruct (binade_spec b Hb) as [B1 B2].
  apply binade_unique; [done| |]; by rewrite Hab.
Qed.

Lemma Qfloor_unique (q : Q) (n : Z) :
  (inject_Z n <= q)%Q -> (q < inject_Z (n + 1))%Q -> Qfloor q = n.
Proof.
  intros H1 H2.
  pose proof (Qfloor_le q) as F1. pose proof (Qlt_floor q) as F2.
  assert (Qfloor q < n + 1) by (rewrite Zlt_Qlt; lra).
  assert (n < Qfloor q + 1) by (rewrite Zlt_Qlt; lra).
  lia.
Qed.

Lemma round_half_even_comp (x y : Q) :
  (x == y)%Q -> round_half_even x = round_half_even y.
Proof.
  intros H. unfold round_half_even. cbv zeta. rewrite (Qfloor_comp x y H).
  assert ((x - inject_Z (Qfloor y) ?= 1 # 2)%Q
          = (y - inject_Z (Qfloor y) ?= 1 # 2)%Q) as ->; [|done].
  apply Qcompare_comp; [|done]. by rewrite H.
Qed.

Lemma round_half_even_Z (z : Z) : round_half_even (inject_Z z) = z.
Proof.
  unfold round_half_even. cbv zeta. rewrite Qfloor_Z.
  assert ((inject_Z z - inject_Z z ?= 1 # 2)%Q = Lt) as ->; [|done].
  rewrite <- Qlt_alt. lra.
Qed.

Lemma round_half_even_near (x : Q) :
  (Qabs (inject_Z (round_half_even x) - x) <= 1 # 2)%Q.
Proof.
  unfold round_half_even. cbv zeta.
  pose proof (Qfloor_le x) as F1. pose proof (Qlt_floor x) as F2.
  rewrite inject_Z_plus in F2. change (inject_Z 1) with 1%Q in F2.
  apply Qabs_Qle_condition.
  destruct (Qcompare_spec (x - inject_Z (Qfloor x)) (1 # 2)) as [E|E|E].
  - destruct (Z.even _); [|rewrite inject_Z_plus; change (inject_Z 1) with 1%Q];
      split; lra.
  - split; lra.
  - rewrite inject_Z_plus. change (inject_Z 1) with 1%Q. split; lra.
Qed.

Lemma to_double_pos_comp (a b : Q) :
  (0 < a)%Q -> (a == b)%Q -> (to_double_pos a == to_double_pos b)%Q.
Proof.
  intros Ha Hab. unfold to_double_pos. rewrite (binade_comp a b Ha Hab).
  rewrite (round_half_even_comp (a / pow2 (binade b)) (b / pow2 (binade b)));
    [done|by rewrite Hab].
Qed.

Lemma to_double_zero (x : Q) : (x == 0)%Q -> (to_double x == 0)%Q.
Proof.
  intros H. unfold to_double. cbv zeta. rewrite (Qred_correct x).
  apply Qeq_alt in H. by rewrite H.
Qed.

Lemma to_double_of_pos (x : Q) : (0 < x)%Q -> (to_double x == to_double_pos x)%Q.
Proof.
  intros H. unfold to_double. cbv zeta.
  assert ((Qred x ?= 0)%Q = Gt) as ->.
  { rewrite (Qred_correct x). by apply Qgt_alt. }
  apply to_double_pos_comp; [by rewrite Qred_correct|apply Qred_correct].
Qed.

Lemma to_double_of_neg (x : Q) :
  (x < 0)%Q -> (to_double x == - to_double_pos (- x))%Q.
Proof.
  intros H. unfold to_double. cbv zeta.
  assert ((Qred x ?= 0)%Q = Lt) as ->.
  { rewrite (Qred_correct x). by apply Qlt_alt. }
  apply Qopp_comp. apply to_double_pos_comp; rewrite Qred_correct; [lra|done].
Qed.

Lemma to_double_pos_exact (a : Q) (m j : Z) :
  0 < m < 2 ^ 53 -> (a == inject_Z m * pow2 j)%Q -> (to_double_pos a == a)%Q.
Proof.
  intros [Hm1 Hm2] Ha.
  pose proof (pow2_pos j) as Hj.
  assert (Hm1' : (0 < inject_Z m)%Q) by (change 0%Q with (inject_Z 0); by rewrite <- Zlt_Qlt).
  assert (Hm2' : (inject_Z m < pow2 53)%Q) by (rewrite pow2_Z by done; by rewrite <- Zlt_Qlt).
  assert (Hpos : (0 < a)%Q) by (rewrite Ha; by apply Qmult_lt_0_compat).
  destruct (binade_spec a Hpos) as [B1 _]. apply le_div_pow2 in B1.
  assert (Hlt : (a < pow2 (53 + j))%Q).
  { rewrite Ha, pow2_add. by apply Qmult_lt_compat_r. }
  pose proof (pow2_lt_inv _ _ (Qle_lt_trans _ _ _ B1 Hlt)) as Hb.
  unfold to_double_pos. set (b := binade a) in *.
  assert (Hdiv : (a / pow2 b == inject_Z (m * 2 ^ (j - b)))%Q).
  { rewrite inject_Z_mult, <- pow2_Z by lia. rewrite Ha.
    replace j with ((j - b) + b) at 1 by lia. rewrite pow2_add.
    pose proof (pow2_pos b). field. lra. }
  rewrite (round_half_even_comp _ _ Hdiv), round_half_even_Z, <- Hdiv.
  apply div_mul_cancel, pow2_pos.
Qed.

Lemma to_double_pos_err (a : Q) (k : Z) :
  (0 < a)%Q -> (a < pow2 k)%Q ->
  (Qabs (to_double_pos a - a) <= pow2 (k - 54))%Q.
Proof.
  intros Ha Hk. pose proof (binade_below a k Ha Hk) as Hb.
  unfold to_double_pos. set (b := binade a) in *.
  pose proof (pow2_pos b) as HX.
  pose proof (round_half_even_near (a / pow2 b)) as Hr.
  apply Qabs_Qle_condition in Hr as [R1 R2].
  set (R := inject_Z (round_half_even (a / pow2 b))) in *.
  assert (HS : (a / pow2 b * pow2 b == a)%Q) by (by apply div_mul_cancel).
  set (Sc := (a / pow2 b)%Q) in *.
  assert (HP : (pow2 b <= 2 * pow2 (k - 54))%Q).
  { apply Qle_trans with (pow2 (k - 53)); [by apply pow2_le|].
    replace (k - 53) with ((k - 54) + 1) by lia. rewrite pow2_add.
    change (pow2 1) with 2%Q. lra. }
  set (X := pow2 b) in *. set (P := pow2 (k - 54)) in *.
  assert (M1 : ((R - Sc) * X <= (1 # 2) * X)%Q) by (apply Qmult_le_compat_r; lra).
  assert (M2 : (- (1 # 2) * X <= (R - Sc) * X)%Q) by (apply Qmult_le_compat_r; lra).
  apply Qabs_Qle_condition. rewrite <- HS. split; lra.
Qed.

Lemma to_double_exact (x : Q) (m j : Z) :
  Z.abs m < 2 ^ 53 -> (x == inject_Z m * pow2 j)%Q -> (to_double x == x)%Q.
Proof.
  intros Hm Hx. pose proof (pow2_pos j) as Hj.
  destruct (Z.lt_trichotomy m 0) as [Hneg|[->|Hpos]].
  - assert (Hm' : (inject_Z m < 0)%Q) by (change 0%Q with (inject_Z 0); by rewrite <- Zlt_Qlt).
    assert (Hx' : (x < 0)%Q).
    { rewrite Hx. apply Qlt_le_trans with (0 * pow2 j)%Q; [|lra].
      by apply Qmult_lt_compat_r. }
    rewrite (to_double_of_neg x Hx').
    rewrite (to_double_pos_exact (- x) (- m) j); [ring|lia|].
    rewrite Hx, inject_Z_opp. ring.
  - rewrite (to_double_zero x); rewrite Hx; ring.
  - assert (Hm' : (0 < inject_Z m)%Q) by (change 0%Q with (inject_Z 0); by rewrite <- Zlt_Qlt).
    assert (Hx' : (0 < x)%Q) by (rewrite Hx; by apply Qmult_lt_0_compat).
    rewrite (to_double_of_pos x Hx').
    apply (to_double_pos_exact x m j); [lia|done].
Qed.

Lemma to_double_err (x : Q) (k : Z) :
  (Qabs x < pow2 k)%Q -> (Qabs (to_double x - x) <= pow2 (k - 54))%Q.
Proof.
  intros Hk. pose proof (pow2_pos (k - 54)) as HP.
  destruct (Q_dec x 0) as [[Hneg|Hpos]|Hz].
  - rewrite (to_double_of_neg x Hneg).
    rewrite (Qabs_neg x) in Hk by lra.
    pose proof (to_double_pos_err (- x) k ltac:(lra) Hk) as H.
    apply Qabs_Qle_condition in H. apply Qabs_Qle_condition. split; lra.
  - rewrite (to_double_of_pos x Hpos).
    rewrite (Qabs_pos x) in Hk by lra.
    by apply to_double_pos_err.
  - rewrite (to_double_zero x Hz), Hz. apply Qabs_Qle_condition. split; lra.
Qed.


Lemma round_half_even_half (q : Z) :
  round_half_even (inject_Z q + (1 # 2)) = if Z.even q then q else q + 1.
Proof.
  unfold round_half_even. cbv zeta.
  rewrite (Qfloor_unique (inject_Z q + (1 # 2)) q).
  - assert ((inject_Z q + (1 # 2) - inject_Z q ?= 1 # 2)%Q = Eq) as ->; [|done].
    apply Qeq_alt. ring.
  - lra.
  - rewrite inject_Z_plus. change (inject_Z 1) with 1%Q. lra.
Qed.

Lemma to_double_pos_int (E : Z) :
  2 ^ 53 <= E < 2 ^ 54 ->
  ∃ E', (to_double_pos (inject_Z E) == inject_Z E')%Q ∧
        ((E' = E ∧ E mod 2 = 0) ∨ (Z.abs (E' - E) = 1 ∧ E' mod 4 = 0)).
Proof.
  intros [H1 H2]. rewrite Zle_Qle in H1. rewrite Zlt_Qlt in H2.
  rewrite <- pow2_Z in H1, H2 by done.
  assert (Hpos : (0 < inject_Z E)%Q) by (pose proof (pow2_pos 53); lra).
  assert (Hb : binade (inject_Z E) = 1).
  { apply binade_unique; [done| |].
    - by apply le_div_pow2.
    - by apply lt_div_pow2. }
  unfold to_double_pos. rewrite Hb. change (pow2 1) with 2%Q.
  destruct (Z.eq_dec (E mod 2) 0) as [Hr|Hr].
  - exists E. split; [|by left].
    rewrite (round_half_even_comp _ (inject_Z (E / 2))), round_half_even_Z.
    + transitivity (inject_Z (E / 2 * 2)); [by rewrite inject_Z_mult|].
      replace (E / 2 * 2) with E by euclid. reflexivity.
    + replace E with (E / 2 * 2) at 1 by euclid. rewrite inject_Z_mult.
      change (inject_Z 2) with 2%Q. field.
  - rewrite (round_half_even_comp _ (inject_Z (E / 2) + (1 # 2))), round_half_even_half.
    + exists (2 * (if Z.even (E / 2) then E / 2 else E / 2 + 1)).
      split; [rewrite inject_Z_mult; change (inject_Z 2) with 2%Q; ring|].
      right. destruct (Z.even (E / 2)) eqn:Hev.
      * apply Z.even_spec in Hev as [k Hk]. euclid.
      * apply (f_equal negb) in Hev. rewrite Z.negb_even in Hev.
        apply Z.odd_spec in Hev as [k Hk]. euclid.
    + replace E with (E / 2 * 2 + 1) at 1 by euclid.
      rewrite inject_Z_plus, inject_Z_mult.
      change (inject_Z 2) with 2%Q. change (inject_Z 1) with 1%Q. field.
Qed.

Lemma to_double_int (E : Z) :
  Z.abs E < 2 ^ 54 ->
  ∃ E', (to_double (inject_Z E) == inject_Z E')%Q ∧
        ((E' = E ∧ (Z.abs E < 2 ^ 53 ∨ E mod 2 = 0)) ∨
         (Z.abs (E' - E) = 1 ∧ E' mod 4 = 0)).
Proof.
  intros HE. destruct (Z_lt_le_dec (Z.abs E) (2 ^ 53)) as [Hs|Hl].
  - exists E. split; [|left; split; [done|by left]].
    apply (to_double_exact _ E 0); [done|]. change (pow2 0) with 1%Q. ring.
  - destruct (Z_lt_le_dec E 0) as [Hneg|Hpos].
    + destruct (to_double_pos_int (- E)) as (E' & Heq & Hcase); [lia|].
      exists (- E'). split.
      * rewrite to_double_of_neg by (change 0%Q with (inject_Z 0); by rewrite <- Zlt_Qlt).
        rewrite <- inject_Z_opp, Heq, inject_Z_opp. reflexivity.
      * destruct Hcase as [[-> Hm]|[Hd Hm]]; [left|right]; euclid.
    + destruct (to_double_pos_int E) as (E' & Heq & Hcase); [lia|].
      exists E'. split.
      * rewrite to_double_of_pos; [done|].
        change 0%Q with (inject_Z 0). rewrite <- Zlt_Qlt. lia.
      * destruct Hcase as [[-> Hm]|[Hd Hm]]; [left|right]; [split; [done|by right]|done].
Qed.

End Doubles.

Section Rounding.

Lemma Math_round_near (x : Q) :
  (x - (1 # 2) < Math_round x ∧ Math_round x <= x + (1 # 2))%Q.
Proof.
  unfold Math_round. split.
  - pose proof (Qlt_floor (x + (1 # 2))) as H.
    rewrite inject_Z_plus in H. change (inject_Z 1) with 1%Q in H. lra.
  - apply Qfloor_le.
Qed.

Lemma Math_round_comp (x y : Q) : (x == y)%Q → Math_round x = Math_round y.
Proof. intros H. unfold Math_round. f_equal. apply Qfloor_comp. by rewrite H. Qed.

Lemma Math_round_scaled (k : Z) (x : Q) :
  0 < k →
  (Qabs (Math_round (x * inject_Z k) / inject_Z k - x) <= (1 # 2) / inject_Z k)%Q.
Proof.
  intros Hk. destruct (Math_round_near (x * inject_Z k)) as [H1 H2].
  assert (Hk' : (0 < inject_Z k)%Q).
  { change 0%Q with (inject_Z 0). by rewrite <- Zlt_Qlt. }
  apply Qabs_Qle_condition.
  set (m := Math_round (x * inject_Z k)) in *.
  assert (E : (m / inject_Z k - x == (m - x * inject_Z k) / inject_Z k)%Q)
    by (field; lra).
  rewrite E. split.
  - apply Qle_shift_div_l; [assumption|].
    assert (E2 : (- ((1 # 2) / inject_Z k) * inject_Z k == - (1 # 2))%Q)
      by (field; lra).
    rewrite E2. lra.
  - apply Qle_shift_div_r; [assumption|].
    assert (E2 : ((1 # 2) / inject_Z k * inject_Z k == 1 # 2)%Q)
      by (field; lra).
    rewrite E2. lra.
Qed.

Lemma js_div_comp (x x' y : Q) : (x == x')%Q → js_div x y = js_div x' y.
Proof. intros H. apply to_double_comp. by rewrite H. Qed.

Lemma js_mul_comp (x x' y : Q) : (x == x')%Q → js_mul x y = js_mul x' y.
Proof. intros H. apply to_double_comp. by rewrite H. Qed.

Lemma kbSize_of_exact (size : Z) :
  Z.abs size * 25 < 2 ^ 53 →
  kbSize_of size = to_double (Math_round (inject_Z size / 1024 * 100) / 100).
Proof.
  intros Hs. unfold kbSize_of, js_div at 1. apply to_double_comp.
  apply Qdiv_comp; [|done].
  assert (Math_round (js_mul (js_div (inject_Z size) 1024) 100)
          = Math_round (inject_Z size / 1024 * 100)) as ->; [|done].
  apply Math_round_comp.
  assert (H1 : (js_div (inject_Z size) 1024 == inject_Z size / 1024)%Q).
  { apply (to_double_exact _ size (-10)); [lia|].
    change (pow2 (-10)) with (/ 1024)%Q. reflexivity. }
  rewrite (js_mul_comp _ _ _ H1).
  apply (to_double_exact _ (size * 25) (-8)); [lia|].
  rewrite inject_Z_mult. change (pow2 (-8)) with (/ 256)%Q.
  change (inject_Z 25) with 25%Q. field.
Qed.

Lemma inject_Z_sub (a b : Z) : (inject_Z (a - b) == inject_Z a - inject_Z b)%Q.
Proof. unfold Z.sub. rewrite inject_Z_plus, inject_Z_opp. reflexivity. Qed.

Lemma Math_round_quotient (E g : Z) (x' : Q) :
  ((E + 50) mod 100 = 0 → (x' == inject_Z E / 100)%Q) →
  ((E + 50) mod 100 ≠ 0 →
     (Qabs (x' - inject_Z E / 100) < inject_Z g / 100)%Q ∧
     g <= (E + 50) mod 100 <= 100 - g) →
  Math_round x' = inject_Z ((E + 50) / 100).
Proof.
  intros Htie Hnear. unfold Math_round. f_equal.
  set (n := (E + 50) / 100). set (r := (E + 50) mod 100) in *.
  assert (HE : E = 100 * n + r - 50) by (subst n r; euclid).
  assert (HEq : (inject_Z E == 100 * inject_Z n + inject_Z r - 50)%Q).
  { rewrite HE at 1. rewrite inject_Z_sub, inject_Z_plus, inject_Z_mult.
    reflexivity. }
  set (x := (inject_Z E / 100)%Q) in *.
  assert (Hx : (x * 100 == inject_Z E)%Q) by (unfold x; field).
  set (G := (inject_Z g / 100)%Q) in *.
  assert (HG : (G * 100 == inject_Z g)%Q) by (unfold G; field).
  clearbody x G.
  destruct (Z.eq_dec r 0) as [Hr|Hr].
  - rewrite Hr in HEq. change (inject_Z 0) with 0%Q in HEq.
    apply Qfloor_unique; rewrite ?inject_Z_plus; change (inject_Z 1) with 1%Q;
      rewrite (Htie Hr); lra.
  - destruct (Hnear Hr) as (Hx' & Hg1 & Hg2).
    apply Qabs_Qlt_condition in Hx' as [Hx1 Hx2].
    rewrite Zle_Qle in Hg1, Hg2. rewrite inject_Z_sub in Hg2.
    change (inject_Z 100) with 100%Q in Hg2.
    apply Qfloor_unique; rewrite ?inject_Z_plus; change (inject_Z 1) with 1%Q; lra.
Qed.

Lemma Qabs_inject_lt (z b : Z) :
  Z.abs z < b → (Qabs (inject_Z z) < inject_Z b)%Q.
Proof.
  intros H. apply Qabs_Qlt_condition. rewrite <- inject_Z_opp, <- !Zlt_Qlt. lia.
Qed.

Lemma quotient_double (E : Z) :
  Z.abs E < 2 ^ 53 ∨ (E mod 2 = 0 ∧ Z.abs E <= 2 ^ 54) →
  Math_round (to_double (inject_Z E / 100)) = inject_Z ((E + 50) / 100).
Proof.
  intros HE.
  assert (Hall : Z.abs E < 2 ^ 54 + 1) by lia.
  apply Qabs_inject_lt, Qabs_Qlt_condition in Hall as [Ha1 Ha2].
  change (inject_Z (2 ^ 54 + 1)) with 18014398509481985%Q in Ha1, Ha2.
  apply (Math_round_quotient E (if Z_lt_le_dec (Z.abs E) (2 ^ 53) then 1 else 2)).
  - intros Hr.
    apply (to_double_exact _ (2 * ((E + 50) / 100) - 1) (-1)); [euclid|].
    replace E with (100 * ((E + 50) / 100) - 50) at 1 by euclid.
    rewrite !inject_Z_sub, !inject_Z_mult. change (pow2 (-1)) with (/ 2)%Q.
    change (inject_Z 100) with 100%Q. change (inject_Z 50) with 50%Q.
    change (inject_Z 2) with 2%Q. change (inject_Z 1) with 1%Q. field.
  - intros Hr. destruct (Z_lt_le_dec (Z.abs E) (2 ^ 53)) as [Hs|Hl].
    + split; [|euclid].
      apply Qle_lt_trans with (pow2 (47 - 54)); [|reflexivity].
      apply to_double_err.
      apply Qabs_inject_lt, Qabs_Qlt_condition in Hs as [Hs1 Hs2].
      change (inject_Z (2 ^ 53)) with 9007199254740992%Q in Hs1, Hs2.
      change (pow2 47) with 140737488355328%Q.
      assert (Hx : (inject_Z E / 100 * 100 == inject_Z E)%Q) by field.
      set (x := (inject_Z E / 100)%Q) in *.
      apply Qabs_Qlt_condition. split; lra.
    + destruct HE as [HE|[Hev HE]]; [lia|]. split; [|euclid].
      apply Qle_lt_trans with (pow2 (48 - 54)); [|reflexivity].
      apply to_double_err.
      change (pow2 48) with 281474976710656%Q.
      assert (Hx : (inject_Z E / 100 * 100 == inject_Z E)%Q) by field.
      set (x := (inject_Z E / 100)%Q) in *.
      apply Qabs_Qlt_condition. split; lra.
Qed.

Lemma seconds_of_decimal (now startTime : Z) :
  Z.abs (now - startTime) < 2 ^ 54 →
  ∃ m : Z,
    seconds_of now startTime = to_double (inject_Z m / 10) ∧
    -50 <= (now - startTime) - 100 * m <= 50.
Proof.
  intros HE. set (E := now - startTime) in *.
  destruct (to_double_int E HE) as (E' & Heq & Hcase).
  exists ((E' + 50) / 100).
  assert (Hround : Math_round (js_div (js_sub (inject_Z now) (inject_Z startTime)) 100)
                   = inject_Z ((E' + 50) / 100)).
  { rewrite (js_div_comp _ (inject_Z E')).
    - apply quotient_double. destruct Hcase as [[-> Hc]|[Hd Hm]]; [|right; euclid].
      destruct Hc; [by left|right; lia].
    - unfold js_sub. rewrite <- inject_Z_sub. exact Heq. }
  split.
  - unfold seconds_of. by rewrite Hround.
  - destruct Hcase as [[-> Hc]|[Hd Hm]]; euclid.
Qed.

Lemma kbSize_of_rounded (size : Z) :
  Z.abs size * 25 < 2 ^ 53 →
  ∃ y, rounded_to 2 (inject_Z size / 1024) y ∧ kbSize_of size = to_double y.
Proof.
  intros Hs. exists (Math_round (inject_Z size / 1024 * 100) / 100)%Q.
  split; [|by apply kbSize_of_exact]. split.
  - eexists. unfold Math_round. reflexivity.
  - apply (Math_round_scaled 100 (inject_Z size / 1024)). lia.
Qed.

Lemma seconds_of_rounded (now startTime : Z) :
  Z.abs (now - startTime) < 2 ^ 54 →
  ∃ y, rounded_to 1 (inject_Z (now - startTime) / 1000) y ∧
       seconds_of now startTime = to_double y.
Proof.
  intros HE. destruct (seconds_of_decimal now startTime HE) as (m & Hm & H1 & H2).
  exists (inject_Z m / 10)%Q. split; [|done]. split; [by exists m|].
  change ((1 # 2) / inject_Z (10 ^ Z.of_nat 1))%Q with (1 # 20)%Q.
  rewrite Zle_Qle, inject_Z_sub, inject_Z_mult in H1, H2.
  change (inject_Z 100) with 100%Q in H1, H2.
  change (inject_Z 50) with 50%Q in H2. change (inject_Z (-50)) with (-50)%Q in H1.
  assert (Ha : (inject_Z m / 10 * 10 == inject_Z m)%Q) by field.
  assert (Hb : (inject_Z (now - startTime) / 1000 * 1000
                == inject_Z (now - startTime))%Q) by field.
  set (a := (inject_Z m / 10)%Q) in *.
  set (b := (inject_Z (now - startTime) / 1000)%Q) in *.
  apply Qabs_Qle_condition. split; lra.
Qed.

Lemma time_values_apart (now startTime : Z) :
  time_value now → time_value startTime → Z.abs (now - startTime) < 2 ^ 54.
Proof. unfold time_value. lia. Qed.
End Rounding.

Section ServiceWorker.
Context (t : Tools).

Lemma filter_ext_in {A} (P Q : A → Prop)
    `{!∀ x, Decision (P x), !∀ x, Decision (Q x)} (l : list A) :
  (∀ x, x ∈ l → P x ↔ Q x) → filter P l = filter Q l.
Proof.
  induction l as [|x l IH]; intros Hiff; [done|].
  assert (Hx : P x ↔ Q x) by (apply Hiff, elem_of_cons; by left).
  rewrite !filter_cons, IH by (intros y Hy; apply Hiff, elem_of_cons; by right).
  destruct (decide (P x)), (decide (Q x)); tauto || done.
Qed.

Lemma wildcard_star_eq (pat' name : string) :
  wildcard (String "*" pat') name =
  (wildcard pat' name ||
   match name with
   | EmptyString => false
   | String _ name' => wildcard (String "*" pat') name'
   end)%bool.
Proof. by destruct name. Qed.

Lemma wildcard_any (name : string) : wildcard "*" name = true.
Proof.
  induction name as [|c name IH]; [done|].
  rewrite wildcard_star_eq, IH. apply orb_true_r.
Qed.

Lemma wildcard_star_free (pat name : string) :
  star_free pat = true → wildcard pat name = true → name = pat.
Proof.
  revert name. induction pat as [|c pat IH]; intros name Hfree Hm.
  - by destruct name.
  - simpl in Hfree. apply andb_true_iff in Hfree as [Hc Hfree].
    apply negb_true_iff in Hc. simpl in Hm. rewrite Hc in Hm.
    destruct name as [|d name]; [done|].
    apply andb_true_iff in Hm as [Hcd Hm]. apply Ascii.eqb_eq in Hcd as ->.
    f_equal. by apply IH.
Qed.

Lemma minimatch_globstar (dot : bool) (pat' : list string) (p : path) :
  minimatch_segments dot ("**" :: pat') p =
  (minimatch_segments dot pat' p ||
   match p with
   | [] => false
   | d :: p' => (dot || negb (hidden d)) && minimatch_segments dot ("**" :: pat') p'
   end)%bool.
Proof. by destruct p. Qed.

Lemma minimatch_literal (dot : bool) (seg : string) (p : path) :
  star_free seg = true → seg ≠ "**" →
  minimatch_segments dot [seg] p = true → p = [seg].
Proof.
  intros Hfree Hne Hm. simpl in Hm.
  destruct (String.eqb_spec seg "**") as [|_]; [done|].
  destruct p as [|d [|d' p]]; [done| |by rewrite andb_false_r in Hm].
  apply andb_true_iff in Hm as [Hm _]. unfold segment_match in Hm.
  apply andb_true_iff in Hm as [_ Hm].
  by rewrite (wildcard_star_free seg d Hfree Hm).
Qed.

Lemma minimatch_everything (p : path) :
  p ≠ [] → Forall (fun name => hidden name = false) p →
  minimatch false "**/*" p = true.
Proof.
  intros Hne Hall. change (minimatch_segments false ["**"; "*"] p = true).
  induction Hall as [|d p Hd Hall IH]; [done|].
  rewrite minimatch_globstar. destruct p as [|d' p].
  - simpl. unfold segment_match. by rewrite Hd, wildcard_any.
  - rewrite Hd, IH by done. apply orb_true_r.
Qed.

Lemma minimatch_named (name : string) (p : path) :
  star_free name = true → name ≠ "**" →
  minimatch_segments true ["**"; name] p = true → last p = Some name.
Proof.
  intros Hfree Hne. induction p as [|d p IH]; intros Hm.
  - rewrite minimatch_globstar in Hm. simpl in Hm.
    destruct (String.eqb_spec name "**"); done.
  - rewrite minimatch_globstar in Hm. apply orb_true_iff in Hm as [Hm|Hm].
    + by rewrite (minimatch_literal true name (d :: p) Hfree Hne Hm).
    + simpl in Hm. specialize (IH Hm). destruct p; [done|]. by rewrite last_cons_cons.
Qed.

Lemma elem_of_files_under (fs : FS) (d p : path) (c : string) :
  (p, c) ∈ files_under fs d ↔ p ≠ [] ∧ fs !! (d ++ p) = Some (File c).
Proof.
  unfold files_under. rewrite list_elem_of_omap. split.
  - intros ([k e] & Hin & Hf). apply elem_of_map_to_list in Hin.
    simpl in Hf. destruct e as [c'|]; [|done].
    destruct (decide _) as [[[q ->] Hne]|]; [|done].
    rewrite drop_app_length in Hf. injection Hf as <- <-.
    split; [|done]. intros ->. by rewrite app_nil_r in Hne.
  - intros [Hne Hlook]. exists (d ++ p, File c). split.
    + by apply elem_of_map_to_list.
    + simpl. rewrite decide_True.
      * by rewrite drop_app_length.
      * split; [by apply prefix_app_r|]. intros H.
        apply Hne. rewrite <- (app_nil_r d) in H at 2. by apply app_inv_head in H.
Qed.

Lemma NoDup_omap {A B} (f : A → option B) (l : list A) :
  (∀ x y z, f x = Some z → f y = Some z → x = y) →
  NoDup l → NoDup (omap f l).
Proof.
  intros Hinj. induction 1 as [|x l Hx Hl IH]; [constructor|].
  simpl. destruct (f x) as [z|] eqn:Hfx; [|done].
  constructor; [|done]. intros (y & Hy & Hfy)%list_elem_of_omap.
  by rewrite (Hinj x y z Hfx Hfy) in Hx.
Qed.

Lemma NoDup_files_under (fs : FS) (d : path) : NoDup (files_under fs d).*1.
Proof.
  apply NoDup_fmap_fst.
  - intros p c1 c2 [_ H1]%elem_of_files_under [_ H2]%elem_of_files_under.
    congruence.
  - apply NoDup_omap; [|apply NoDup_map_to_list].
    intros [k1 e1] [k2 e2] [p c] H1 H2. simpl in *.
    destruct e1 as [c1|]; [|done]. destruct e2 as [c2|]; [|done].
    destruct (decide _) as [[[q1 ->] _]|]; [|done].
    destruct (decide _) as [[[q2 ->] _]|]; [|done].
    rewrite drop_app_length in H1, H2. congruence.
Qed.

Lemma minimatch_marker (p : path) : minimatch true "CNAME" p = true → p = ["CNAME"].
Proof. by apply (minimatch_literal true "CNAME"). Qed.

Lemma minimatch_script (p : path) :
  minimatch true "**/sw.js" p = true → last p = Some "sw.js".
Proof. by apply (minimatch_named "sw.js"). Qed.

Lemma globbed_sw_config (p : path) :
  globbed (sw_config t) p =
  ((minimatch false "**/*" p || false) &&
   negb (minimatch true "CNAME" p || (minimatch true "**/sw.js" p || false)))%bool.
Proof.
  unfold globbed, sw_config. cbn [globPatterns globIgnores swDest].
  unfold path_join. by rewrite last_snoc.
Qed.

(** With the script's patterns, the injector takes every file that is not
    hidden and is neither the marker file nor named like its own output. *)
Lemma globbed_static (p : path) :
  p ≠ [] → Forall (fun name => hidden name = false) p →
  p ≠ ["CNAME"] → last p ≠ Some "sw.js" →
  globbed (sw_config t) p = true.
Proof.
  intros Hne Hall Hmarker Hsw. rewrite globbed_sw_config.
  rewrite (minimatch_everything p Hne Hall).
  destruct (minimatch true "CNAME" p) eqn:E1; [by apply minimatch_marker in E1|].
  destruct (minimatch true "**/sw.js" p) eqn:E2; [by apply minimatch_script in E2|].
  done.
Qed.

Lemma globbed_not_marker (p : path) :
  globbed (sw_config t) p = true → p ≠ ["CNAME"].
Proof. intros H ->. by rewrite globbed_sw_config in H. Qed.

Lemma NoDup_filter_fst {A B} (P : A * B → Prop) `{!∀ x, Decision (P x)}
    (l : list (A * B)) :
  NoDup l.*1 → NoDup (filter P l).*1.
Proof.
  intros Hl. eapply sublist_NoDup; [exact Hl|].
  apply fmap_sublist, sublist_filter.
Qed.

(** The files below a directory other than the marker file, from the
    listing of the directory. *)
Lemma static_paths_iff (fs : FS) (d : path) (static : list path) :
  is_dir fs d = true →
  filter (fun p => p ≠ ["CNAME"]) (files_under fs d).*1 = static →
  ∀ p, p ∈ static ↔ p ≠ ["CNAME"] ∧ ∃ c, fs !! (d ++ p) = Some (File c).
Proof.
  intros Hdir <- p. rewrite list_elem_of_filter, list_elem_of_fmap.
  unfold is_dir in Hdir. split.
  - intros [Hne ([q c] & -> & [_ Hc]%elem_of_files_under)]. eauto.
  - intros [Hne [c Hc]]. split; [done|]. exists (p, c). split; [done|].
    apply elem_of_files_under. split; [|done].
    intros ->. rewrite app_nil_r in Hc. by rewrite Hc in Hdir.
Qed.

Lemma nothing_named (fs : FS) (d : path) (name : string) :
  forallb (fun kv => negb (bool_decide (last kv.1 = Some name))) (map_to_list fs) = true →
  ∀ p, last p = Some name → fs !! (d ++ p) = None.
Proof.
  intros Hall p Hp. destruct (fs !! (d ++ p)) as [e|] eqn:He; [|done].
  apply elem_of_map_to_list in He.
  rewrite forallb_forall in Hall. apply list_elem_of_In, Hall in He.
  simpl in He. by rewrite last_app, Hp, bool_decide_eq_true_2 in He.
Qed.

Lemma run_injectManifest (cfg : inject_config) (w : World) (template : string) :
  readFileSync (w_fs w) (swSrc cfg) = Success template →
  w_fs w !! swDest cfg ≠ Some Dir →
  is_dir (w_fs w) (parent (swDest cfg)) = true →
  let files := manifest_files cfg (w_fs w) in
  let manifest := map (fun f => (f.1, revision t f.2)) files in
  injectManifest t cfg w =
  (Ok {| count := length manifest;
         size := foldr (fun f acc => Z.of_nat (String.length f.2) + acc) 0 files |},
   mkWorld (<[swDest cfg := File (inject t template manifest)]> (w_fs w))
           (w_events w) (w_browsers w) (w_ticks w)).
Proof.
  intros Hread Hdest Hparent files manifest. unfold injectManifest.
  rewrite run_bind. simpl. rewrite run_bind, Hread. simpl.
  rewrite run_bind.
  erewrite run_fs_update_Success; [reflexivity|].
  by apply writeFileSync_not_dir.
Qed.
End ServiceWorker.

(** C7.  When step 6 runs on an output directory whose files other than
    the marker file [CNAME] are the N files [static], none of them hidden
    (no segment of its path starts with a dot) or larger than 2 MiB, with
    nothing in the directory named [sw.js] yet and the template readable,
    the manifest injected into [sw.js] lists exactly those N files, each
    with the revision of its content, the marker file is not among them,
    and the logged count is N. *)
Theorem sw_precaches_static_files
    (t : Tools) (w : World) (template : string) (static : list path) :
  readFileSync (w_fs w) (path_join (SRC_PATH t) ["sw-template.js"]) = Success template →
  is_dir (w_fs w) (DST_PATH t) = true →
  (∀ p, last p = Some "sw.js" → w_fs w !! (DST_PATH t ++ p) = None) →
  NoDup static →
  (∀ p, p ∈ static ↔
        p ≠ ["CNAME"] ∧ ∃ c, w_fs w !! (DST_PATH t ++ p) = Some (File c)) →
  (∀ p, p ∈ static → Forall (fun name => hidden name = false) p) →
  (∀ p c, p ∈ static → w_fs w !! (DST_PATH t ++ p) = Some (File c) →
          Z.of_nat (String.length c) <= 2097152) →
  ∃ (manifest : list (path * string)) (kbSize : Q) (w' : World),
    generate_sw_js t w = (Ok tt, w') ∧
    w_fs w' !! path_join (DST_PATH t) ["sw.js"]
      = Some (File (inject t template manifest)) ∧
    manifest.*1 ≡ₚ static ∧
    (∀ p rev, (p, rev) ∈ manifest →
              ∃ c, w_fs w !! (DST_PATH t ++ p) = Some (File c) ∧ rev = revision t c) ∧
    length manifest = length static ∧
    (["CNAME"] ∉ manifest.*1) ∧
    w_events w' = w_events w ++ [ConsoleLog (sw_message (length static) kbSize)].
Proof.
  intros Hread Hdir Hsw Hnodup Hstatic Hshown Hsmall.
  set (files := manifest_files (sw_config t) (w_fs w)).
  set (manifest := (fun f : path * string => (f.1, revision t f.2)) <$> files).
  assert (Hin : ∀ p c, (p, c) ∈ files ↔
                       p ∈ static ∧ w_fs w !! (DST_PATH t ++ p) = Some (File c)).
  { intros p c. unfold files, manifest_files.
    rewrite list_elem_of_filter, elem_of_files_under. simpl. split.
    - intros [[Hglob _] [Hne Hc]]. split; [|done].
      apply Hstatic. split; [by apply globbed_not_marker in Hglob|by exists c].
    - intros [Hp Hc]. pose proof (proj1 (Hstatic p) Hp) as [Hmarker _].
      assert (Hne : p ≠ []).
      { intros ->. rewrite app_nil_r in Hc. unfold is_dir in Hdir. by rewrite Hc in Hdir. }
      split; [|done]. split; [|by apply (Hsmall p c)].
      apply globbed_static; [done|by apply Hshown|done|].
      intros Hlast. by rewrite (Hsw p Hlast) in Hc. }
  assert (Hperm : files.*1 ≡ₚ static).
  { apply NoDup_Permutation; [|done|].
    - apply NoDup_filter_fst, NoDup_files_under.
    - intros p. rewrite list_elem_of_fmap. split.
      + intros ([q c] & -> & Hf). by apply Hin in Hf as [Hf _].
      + intros Hp. destruct (proj1 (Hstatic p) Hp) as [_ [c Hc]].
        exists (p, c). split; [done|]. by apply Hin. }
  assert (Hpaths : manifest.*1 = files.*1).
  { unfold manifest. rewrite <- list_fmap_compose. by apply list_fmap_ext. }
  assert (Hlen : length manifest = length static).
  { by rewrite <- (length_fmap fst), Hpaths, Hperm. }
  exists manifest, (kbSize_of (foldr (fun f acc => Z.of_nat (String.length f.2) + acc) 0 files)).
  eexists. split.
  { unfold generate_sw_js. rewrite run_bind.
    rewrite (run_injectManifest t (sw_config t) w template).
    - cbn [count size]. fold files. change (map ?f files) with (f <$> files).
      fold manifest. rewrite Hlen. reflexivity.
    - done.
    - simpl. unfold path_join. by rewrite (Hsw ["sw.js"]).
    - simpl. by rewrite parent_output_file. }
  split; [simpl; by rewrite lookup_insert_eq|].
  split; [by rewrite Hpaths|]. split.
  { intros p rev ([q c] & [= -> ->] & Hf)%list_elem_of_fmap.
    apply Hin in Hf as [_ Hc]. by exists c. }
  split; [done|]. split; [|done].
  rewrite Hpaths, Hperm. intros Hp. by apply Hstatic in Hp as [Hp _].
Qed.

Lemma sw_precaches_static_files_witness :
  ∃ (manifest : list (path * string)) (kbSize : Q) (w' : World),
    generate_sw_js Demo.site Demo.with_marker = (Ok tt, w') ∧
    w_fs w' !! path_join (DST_PATH Demo.site) ["sw.js"]
      = Some (File (inject Demo.site "precache:" manifest)) ∧
    manifest.*1 ≡ₚ [["stale.txt"]] ∧
    (∀ p rev, (p, rev) ∈ manifest →
              ∃ c, w_fs Demo.with_marker !! (DST_PATH Demo.site ++ p) = Some (File c) ∧
                   rev = revision Demo.site c) ∧
    length manifest = length [["stale.txt"]] ∧
    (["CNAME"] ∉ manifest.*1) ∧
    w_events w' = w_events Demo.with_marker ++ [ConsoleLog (sw_message 1 kbSize)].
Proof.
  apply (sw_precaches_static_files Demo.site Demo.with_marker "precache:" [["stale.txt"]]).
  - vm_compute. reflexivity.
  - vm_compute. reflexivity.
  - apply nothing_named. vm_compute. reflexivity.
  - apply NoDup_singleton.
  - apply static_paths_iff; vm_compute; reflexivity.
  - intros p ->%list_elem_of_singleton. repeat constructor.
  - intros p c ->%list_elem_of_singleton Hc. vm_compute in Hc.
    injection Hc as <-. vm_compute. discriminate.
Defined.

(** A hidden file and a file of more than 2 MiB are files of the output
    directory that the manifest leaves out: with two files other than the
    marker file in the directory, one of them [.nojekyll] or larger than
    2 MiB, step 6 precaches and counts one. *)
Lemma hidden_or_large_file_not_precached :
  (NoDup [["index.html"]; [".nojekyll"]] ∧
   (∀ p, p ∈ [["index.html"]; [".nojekyll"]] ↔
         p ≠ ["CNAME"] ∧
         ∃ c, w_fs Demo.with_hidden_file !! (DST_PATH Demo.site ++ p) = Some (File c)) ∧
   ∃ kbSize,
     (generate_sw_js Demo.site Demo.with_hidden_file).1 = Ok tt ∧
     w_fs (generate_sw_js Demo.site Demo.with_hidden_file).2
       !! path_join (DST_PATH Demo.site) ["sw.js"]
       = Some (File (inject Demo.site "precache:" [(["index.html"], "<html>")])) ∧
     w_events (generate_sw_js Demo.site Demo.with_hidden_file).2
       = [ConsoleLog (sw_message 1 kbSize)]) ∧
  (NoDup [["index.html"]; ["video.mp4"]] ∧
   (∀ p, p ∈ [["index.html"]; ["video.mp4"]] ↔
         p ≠ ["CNAME"] ∧
         ∃ c, w_fs Demo.with_large_file !! (DST_PATH Demo.site ++ p) = Some (File c)) ∧
   (∃ c, w_fs Demo.with_large_file !! (DST_PATH Demo.site ++ ["video.mp4"])
           = Some (File c) ∧
         Z.of_nat (String.length c) = 2097153) ∧
   ∃ kbSize,
     (generate_sw_js Demo.site Demo.with_large_file).1 = Ok tt ∧
     w_fs (generate_sw_js Demo.site Demo.with_large_file).2
       !! path_join (DST_PATH Demo.site) ["sw.js"]
       = Some (File (inject Demo.site "precache:" [(["index.html"], "<html>")])) ∧
     w_events (generate_sw_js Demo.site Demo.with_large_file).2
       = [ConsoleLog (sw_message 1 kbSize)]).
Proof.
  split.
  - split; [apply (bool_decide_unpack _); vm_compute; reflexivity|].
    split; [apply static_paths_iff; vm_compute; reflexivity|].
    exists (kbSize_of 6). split; [|split]; vm_compute; reflexivity.
  - split; [apply (bool_decide_unpack _); vm_compute; reflexivity|].
    split; [apply static_paths_iff; vm_compute; reflexivity|].
    split.
    + exists Demo.large_content. split; [|vm_compute; reflexivity].
      change (<[["site"; "docs"; "video.mp4"] := File Demo.large_content]>
                (list_to_map Demo.built_tree : FS) !! ["site"; "docs"; "video.mp4"]
              = Some (File Demo.large_content)).
      apply lookup_insert_eq.
    + exists (kbSize_of 6). split; [|split]; vm_compute; reflexivity.
Qed.

Section Ticks.
Context (t : Tools).

(** Steps 2 to 6 do not read the clock. *)
Lemma after_cleanup_ticks (v : string) (w1 w2 w3 w4 w5 w6 : World) :
  step "2. generate index.js" (generate_index_js t v) w1 = (Ok tt, w2) →
  step "3. generate style.css" (generate_style_css t) w2 = (Ok tt, w3) →
  step "4. generate index.html" (generate_index_html t) w3 = (Ok tt, w4) →
  step "5. copy images and favicons" (copy_images_and_favicons t) w4 = (Ok tt, w5) →
  step "6. generate sw.js" (generate_sw_js t) w5 = (Ok tt, w6) →
  w_ticks w6 = w_ticks w1.
Proof.
  intros H2 H3 H4 H5 H6.
  destruct (writes_step _ _ _ (writes_generate_index_js t v) _ _ _ H2) as [_ T2].
  destruct (writes_step _ _ _ (writes_generate_style_css t) _ _ _ H3) as [_ T3].
  destruct (writes_step _ _ _ (writes_generate_index_html t) _ _ _ H4) as [_ T4].
  destruct (writes_step _ _ _ (writes_copy_images_and_favicons t) _ _ _ H5) as [_ T5].
  destruct (writes_step _ _ _ (writes_generate_sw_js t) _ _ _ H6) as [_ T6].
  congruence.
Qed.
End Ticks.




(** * Further properties of the script *)

(** ** What a successful build prints *)

Global Instance quiet_preorder : PreOrder quiet.
Proof.
  split; [by intros w|].
  intros w1 w2 w3 [E1 B1] [E2 B2]. split; congruence.
Qed.

Lemma quiet_fs_update (op : FS → fallible FS) : respects quiet (fs_update op).
Proof.
  intros w o w'. unfold fs_update. rewrite run_bind. simpl. rewrite run_bind.
  destruct (op (w_fs w)); simpl; by intros [= _ <-].
Qed.

Lemma quiet_rmAsync (d : path) : respects quiet (rmAsync d).
Proof. by intros w o w' [= _ <-]. Qed.

(** Closes a goal [respects quiet m] for a computation that only reads and
    writes files. *)
Ltac solve_quiet :=
  repeat first
    [ apply quiet_fs_update
    | apply quiet_rmAsync
    | apply respects_fs_read; [apply _]
    | apply respects_get_fs; [apply _]
    | apply respects_lift; [apply _]
    | apply respects_ret; [apply _]
    | apply respects_mapM; [apply _ | intros ?]
    | apply respects_bind; [apply _ | | intros ?]
    | match goal with
      | |- respects _ (match ?x with _ => _ end) => destruct x
      | |- respects _ (if ?x then _ else _) => destruct x
      end ].

Section Quiet.
Context (t : Tools).

Lemma quiet_cleanup_output_folder : respects quiet (cleanup_output_folder t).
Proof. unfold cleanup_output_folder. solve_quiet. Qed.

Lemma quiet_generate_style_css : respects quiet (generate_style_css t).
Proof. unfold generate_style_css, globAsync. solve_quiet. Qed.

Lemma quiet_copy_images_and_favicons : respects quiet (copy_images_and_favicons t).
Proof. unfold copy_images_and_favicons, cpAsync. solve_quiet. Qed.

Lemma quiet_injectManifest (cfg : inject_config) : respects quiet (injectManifest t cfg).
Proof. unfold injectManifest. solve_quiet. Qed.

Lemma quiet_generate_index_js_Ok (v : string) (w w' : World) (u : unit) :
  generate_index_js t v w = (Ok u, w') → quiet w w'.
Proof.
  unfold generate_index_js.
  intros (bundled & w1 & [_ ->]%fs_read_Ok_inv & H)%bind_Ok_inv.
  destruct (error (uglify_minify t bundled)) as [e|].
  { apply bind_Ok_inv in H as (? & ? & _ & [=]). }
  by apply quiet_fs_update in H.
Qed.

Lemma generate_index_html_Ok_events (w w' : World) (u : unit) :
  generate_index_html t w = (Ok u, w') →
  w_events w' = w_events w ++ [BrowserLaunch; BrowserClose] ∧
  w_browsers w' = w_browsers w.
Proof.
  intros Hrun.
  destruct (generate_index_html_Ok_inv t _ _ _ Hrun)
    as (html & d' & content & Hlaunch & Hread & Hrw & Hcontent & _).
  rewrite (run_generate_index_html t w html) in Hrun by done.
  simpl in Hrun. rewrite Hrw, Hcontent in Hrun.
  apply quiet_fs_update in Hrun as [He Hb]. simpl in *. done.
Qed.

Lemma generate_sw_js_Ok_inv (w w' : World) (u : unit) :
  generate_sw_js t w = (Ok u, w') →
  ∃ r w1, injectManifest t (sw_config t) w = (Ok r, w1) ∧
          w' = logged (ConsoleLog (sw_message (count r) (kbSize_of (size r)))) w1.
Proof.
  unfold generate_sw_js.
  intros (r & w1 & Hinj & [= <-])%bind_Ok_inv. eauto.
Qed.
End Quiet.

(** X1.  A successful build prints, in this order: the timer of each of the
    six steps opened and closed, with the launch and the close of the one
    browser session inside step 4 and the precache message inside step 6,
    and the closing message last.  It leaves as many browser sessions open
    as it found and reads the clock three times. *)
Theorem successful_build_transcript (t : Tools) (w w' : World) (u : unit) :
  build t w = (Ok u, w') →
  ∃ (r : inject_result) (rev : string),
    w_events w' =
      w_events w ++
      transcript
        (sw_message (count r) (kbSize_of (size r)))
        (done_message (package_version t +:+ "+" +:+ rev)
           (seconds_of (clock t (S (S (w_ticks w)))) (clock t (w_ticks w)))) ∧
    w_browsers w' = w_browsers w ∧
    w_ticks w' = S (S (S (w_ticks w))).
Proof.
  intros (sv & w1 & Hpre & Hpost)%build_Ok_inv.
  pose proof Hpre as (rev & Hrev & -> & Hticks & _)%up_to_cleanup_Ok_inv.
  unfold up_to_cleanup in Hpre.
  apply bind_Ok_inv in Hpre as (s & w0 & [= <- <-] & Hpre).
  apply bind_Ok_inv in Hpre as (v & w0' & Hv & Hpre).
  unfold generateVersion, execAsync_git_log in Hv.
  apply bind_Ok_inv in Hv as (rev' & w0'' & [_ ->]%lift_Ok_inv & [= _ <-]).
  apply bind_Ok_inv in Hpre as ([] & w1' & H1 & Hret).
  rewrite run_ret in Hret. assert (w1' = w1) as -> by congruence.
  apply step_Ok_inv in H1 as (w1c & H1 & ->).
  apply quiet_cleanup_output_folder in H1 as [E1 B1].
  pose proof Hpost as (w2 & w3 & w4 & w5 & w6 & H2 & H3 & H4 & H5 & H6 & ->)%after_cleanup_Ok_inv.
  pose proof (after_cleanup_ticks t _ _ _ _ _ _ _ H2 H3 H4 H5 H6) as T6.
  apply step_Ok_inv in H2 as (w2c & H2 & ->).
  apply quiet_generate_index_js_Ok in H2 as [E2 B2].
  apply step_Ok_inv in H3 as (w3c & H3 & ->).
  apply quiet_generate_style_css in H3 as [E3 B3].
  apply step_Ok_inv in H4 as (w4c & H4 & ->).
  apply generate_index_html_Ok_events in H4 as [E4 B4].
  apply step_Ok_inv in H5 as (w5c & H5 & ->).
  apply quiet_copy_images_and_favicons in H5 as [E5 B5].
  apply step_Ok_inv in H6 as (w6c & H6 & ->).
  apply generate_sw_js_Ok_inv in H6 as (r & w6i & H6 & ->).
  apply quiet_injectManifest in H6 as [E6 B6].
  exists r, rev. simpl in *.
  rewrite T6, Hticks. split; [|split; [congruence|done]].
  rewrite E6, E5, E4, E3, E2, E1. unfold transcript.
  by rewrite <- !app_assoc.
Qed.

Lemma successful_build_transcript_witness :
  ∃ (r : inject_result) (rev : string),
    w_events (build Demo.site Demo.with_marker).2 =
      w_events Demo.with_marker ++
      transcript
        (sw_message (count r) (kbSize_of (size r)))
        (done_message (package_version Demo.site +:+ "+" +:+ rev)
           (seconds_of (clock Demo.site (S (S (w_ticks Demo.with_marker))))
                       (clock Demo.site (w_ticks Demo.with_marker)))) ∧
    w_browsers (build Demo.site Demo.with_marker).2 = w_browsers Demo.with_marker ∧
    w_ticks (build Demo.site Demo.with_marker).2 = S (S (S (w_ticks Demo.with_marker))).
Proof.
  apply (successful_build_transcript Demo.site Demo.with_marker
           (build Demo.site Demo.with_marker).2 tt).
  vm_compute. reflexivity.
Defined.

(** ** Exit statuses *)

Section NeverExits.

Lemma never_exits_ret {A} (a : A) : never_exits (mret a : M A).
Proof. intros w c w'. discriminate. Qed.

Lemma never_exits_lift {A} (r : fallible A) : never_exits (lift r).
Proof. intros w c w'. destruct r; discriminate. Qed.

Lemma never_exits_get_fs : never_exits get_fs.
Proof. intros w c w'. discriminate. Qed.

Lemma never_exits_put_fs (fs : FS) : never_exits (put_fs fs).
Proof. intros w c w'. discriminate. Qed.

Lemma never_exits_emit (e : event) : never_exits (emit e).
Proof. intros w c w'. discriminate. Qed.

Lemma never_exits_session_opened : never_exits session_opened.
Proof. intros w c w'. discriminate. Qed.

Lemma never_exits_browser_close : never_exits browser_close.
Proof. intros w c w'. discriminate. Qed.

Lemma never_exits_Date_now (t : Tools) : never_exits (Date_now t).
Proof. intros w c w'. discriminate. Qed.

Lemma never_exits_bind {A B} (m : M A) (f : A → M B) :
  never_exits m → (∀ a, never_exits (f a)) → never_exits (m ≫= f).
Proof.
  intros Hm Hf w c w'. rewrite run_bind.
  destruct (m w) as [[a|c0|e] w1] eqn:E.
  - apply Hf.
  - by destruct (Hm w c0 w1).
  - discriminate.
Qed.

Lemma never_exits_mapM {A B} (f : A → M B) (l : list A) :
  (∀ a, never_exits (f a)) → never_exits (mapM f l).
Proof.
  intros Hf. induction l as [|a l IH]; simpl.
  - apply never_exits_ret.
  - apply never_exits_bind; [apply Hf|]. intros b.
    apply never_exits_bind; [apply IH|]. intros bs. apply never_exits_ret.
Qed.
End NeverExits.

(** Closes a goal [never_exits m] for a computation without [process.exit]. *)
Ltac solve_never_exits :=
  repeat first
    [ apply never_exits_ret
    | apply never_exits_lift
    | apply never_exits_get_fs
    | apply never_exits_put_fs
    | apply never_exits_emit
    | apply never_exits_session_opened
    | apply never_exits_browser_close
    | apply never_exits_Date_now
    | apply never_exits_mapM; intros ?
    | apply never_exits_bind; [ | intros ?]
    | match goal with
      | |- never_exits (match ?x with _ => _ end) => destruct x
      | |- never_exits (if ?x then _ else _) => destruct x
      end ].

Lemma never_exits_fs_update (op : FS → fallible FS) : never_exits (fs_update op).
Proof. unfold fs_update. solve_never_exits. Qed.

Lemma never_exits_fs_read {A} (op : FS → fallible A) : never_exits (fs_read op).
Proof. unfold fs_read. solve_never_exits. Qed.

Section ExitStatus.
Context (t : Tools).

Lemma never_exits_up_to_cleanup : never_exits (up_to_cleanup t).
Proof.
  unfold up_to_cleanup, generateVersion, execAsync_git_log, step,
    cleanup_output_folder, rmAsync, fs_update.
  solve_never_exits.
Qed.

(** What follows step 2 in [main] has no [process.exit]. *)
Lemma never_exits_after_index_js (startTime : Z) (v : string) :
  never_exits
    (step "3. generate style.css" (generate_style_css t);;
     step "4. generate index.html" (generate_index_html t);;
     step "5. copy images and favicons" (copy_images_and_favicons t);;
     step "6. generate sw.js" (generate_sw_js t);;
     finish ← Date_now t;
     now ← Date_now t;
     emit (ConsoleLog (done_message v (seconds_of now startTime)))).
Proof.
  unfold step, generate_style_css, globAsync, generate_index_html, launch, goto,
    copy_images_and_favicons, cpAsync, generate_sw_js, injectManifest,
    fs_update, fs_read.
  solve_never_exits.
Qed.

Lemma generate_index_js_Exit_inv (v : string) (w w' : World) (c : Z) :
  generate_index_js t v w = (Exit c, w') →
  c = 1 ∧ ∃ e, w' = logged (ConsoleError ("JS Minification failed: " +:+ e)) w.
Proof.
  unfold generate_index_js. rewrite run_bind.
  destruct (fs_read _ w) as [[bundled|c0|e0] w1] eqn:Hread.
  - apply fs_read_Ok_inv in Hread as [_ ->].
    destruct (error (uglify_minify t bundled)) as [e|].
    + intros [= <- <-]. eauto.
    + intros H. by apply never_exits_fs_update in H.
  - by apply never_exits_fs_read in Hread.
  - discriminate.
Qed.
End ExitStatus.

(** X2.  Whenever the process ends through [process.exit], the status is 1,
    and either the platform is win32, and then nothing happened but the
    error message, or the last thing printed is the minification error of
    step 2. *)
Theorem build_exit_status (t : Tools) (w w' : World) (c : Z) :
  build t w = (Exit c, w') →
  c = 1 ∧
  ((platform t = "win32" ∧
    w' = logged (ConsoleError "ERROR: build is not supported on Win32") w) ∨
   (platform t ≠ "win32" ∧
    ∃ e, last (w_events w') = Some (ConsoleError ("JS Minification failed: " +:+ e)))).
Proof.
  unfold build. destruct (String.eqb_spec (platform t) "win32") as [Hwin|Hwin].
  { intros [= <- <-]. split; [done|]. by left. }
  rewrite main_split, run_bind.
  destruct (up_to_cleanup t w) as [[sv|c0|e0] w1] eqn:Hpre.
  - unfold after_cleanup. rewrite run_bind, run_step.
    destruct (generate_index_js t sv.2 _) as [[[]|c2|e2] w2] eqn:H2.
    + intros H. exfalso. revert H. apply never_exits_after_index_js.
    + intros [= <- <-].
      apply generate_index_js_Exit_inv in H2 as [-> [e ->]].
      split; [done|]. right. split; [done|]. exists e. apply last_snoc.
    + discriminate.
  - by destruct (never_exits_up_to_cleanup t w c0 w1).
  - discriminate.
Qed.

Lemma build_exit_status_witness :
  1 = 1 ∧
  ((platform Demo.site_bad_js = "win32" ∧
    (build Demo.site_bad_js Demo.with_marker).2 =
      logged (ConsoleError "ERROR: build is not supported on Win32") Demo.with_marker) ∨
   (platform Demo.site_bad_js ≠ "win32" ∧
    ∃ e, last (w_events (build Demo.site_bad_js Demo.with_marker).2)
         = Some (ConsoleError ("JS Minification failed: " +:+ e)))).
Proof.
  apply (build_exit_status Demo.site_bad_js Demo.with_marker
           (build Demo.site_bad_js Demo.with_marker).2 1).
  vm_compute. reflexivity.
Defined.

(** ** Failures before anything is deleted *)

(** X3.  When the revision lookup fails, the build is rejected with git's
    error before step 1: the file system is as before and nothing is
    printed. *)
Theorem build_rejects_when_git_fails (t : Tools) (w : World) (e : string) :
  platform t ≠ "win32" →
  git_log t = Failure e →
  build t w =
  (Throw e, mkWorld (w_fs w) (w_events w) (w_browsers w) (S (w_ticks w))).
Proof.
  intros Hplat Hgit. unfold build.
  destruct (String.eqb_spec (platform t) "win32") as [|_]; [done|].
  rewrite main_unfold, run_bind. simpl.
  unfold generateVersion, execAsync_git_log. rewrite !run_bind, Hgit. reflexivity.
Qed.

Lemma build_rejects_when_git_fails_witness :
  build (Demo.tools_without_git Demo.nodes_mixed) Demo.with_marker =
  (Throw "fatal: not a git repository",
   mkWorld (w_fs Demo.with_marker) (w_events Demo.with_marker)
           (w_browsers Demo.with_marker) (S (w_ticks Demo.with_marker))).
Proof.
  apply (build_rejects_when_git_fails (Demo.tools_without_git Demo.nodes_mixed)
           Demo.with_marker "fatal: not a git repository").
  - discriminate.
  - reflexivity.
Defined.

(** X4.  When the marker path exists but is a directory, reading it fails
    and the build is rejected before the output directory is deleted. *)
Theorem build_rejects_unreadable_marker (t : Tools) (w : World) (rev : string) :
  platform t ≠ "win32" →
  git_log t = Success rev →
  w_fs w !! cnamePath t = Some Dir →
  ∃ w', build t w = (Throw "EISDIR", w') ∧ w_fs w' = w_fs w.
Proof.
  intros Hplat Hgit Hmarker. unfold build.
  destruct (String.eqb_spec (platform t) "win32") as [|_]; [done|].
  rewrite main_unfold, run_bind. simpl.
  unfold generateVersion, execAsync_git_log. rewrite !run_bind, Hgit. simpl.
  rewrite run_bind, run_step.
  unfold cleanup_output_folder. rewrite run_bind. simpl. rewrite run_bind.
  unfold existsSync, readFileSync. rewrite Hmarker. simpl. eauto.
Qed.

Lemma build_rejects_unreadable_marker_witness :
  ∃ w', build Demo.site (Demo.world Demo.fs_marker_dir) = (Throw "EISDIR", w') ∧
        w_fs w' = w_fs (Demo.world Demo.fs_marker_dir).
Proof.
  apply (build_rejects_unreadable_marker Demo.site (Demo.world Demo.fs_marker_dir)
           "abc1234").
  - discriminate.
  - reflexivity.
  - vm_compute. reflexivity.
Defined.

(** ** What step 1 leaves *)


(** X5.  When step 1 completes, the output directory is an empty directory
    but for the marker file.  The marker file is there exactly when it was
    there before and its content, read as UTF-8, is not empty; it then holds
    that text, which is the content it had, byte for byte, when that was
    well-formed UTF-8.  A marker file is never created; everything else
    below the output directory is gone; and nothing outside it changed. *)
Theorem cleanup_output_folder_result (t : Tools) (w w' : World) (u : unit) :
  cleanup_output_folder t w = (Ok u, w') →
  w_fs w' !! DST_PATH t = Some Dir ∧
  w_fs w' !! cnamePath t =
    match w_fs w !! cnamePath t with
    | Some (File bytes) =>
        if truthy (utf8_decode bytes) then Some (File (utf8_decode bytes)) else None
    | _ => None
    end ∧
  (∀ text, w_fs w !! cnamePath t = Some (File text) →
           text ≠ EmptyString → utf8_valid text = true →
           w_fs w' !! cnamePath t = Some (File text)) ∧
  (∀ p, in_output t p → p ≠ DST_PATH t → p ≠ cnamePath t → w_fs w' !! p = None) ∧
  (∀ p, ¬ in_output t p → w_fs w' !! p = w_fs w !! p).
Proof.
  intros Hrun.
  assert (Hmarker_none :
    <[DST_PATH t := Dir]> (rimraf (w_fs w) (DST_PATH t)) !! cnamePath t = None).
  { rewrite lookup_insert_ne by (symmetry; apply snoc_neq).
    apply rimraf_below. by apply prefix_app_r. }
  assert (Hmarker :
    w_fs w' !! cnamePath t =
    match w_fs w !! cnamePath t with
    | Some (File bytes) =>
        if truthy (utf8_decode bytes) then Some (File (utf8_decode bytes)) else None
    | _ => None
    end).
  { destruct (cleanup_Ok_inv t _ _ _ Hrun) as [[-> ->]|(text & -> & ->)].
    - done.
    - apply cleaned_marker. }
  split; [|split; [done|split; [|split]]].
  - destruct (cleanup_Ok_inv t _ _ _ Hrun) as [[_ ->]|(text & _ & ->)].
    + by rewrite lookup_insert_eq.
    + unfold cleaned. destruct (truthy (utf8_decode text)).
      * rewrite lookup_insert_ne by apply snoc_neq. by rewrite lookup_insert_eq.
      * by rewrite lookup_insert_eq.
  - intros text Htext Hne Hvalid. rewrite Hmarker, Htext.
    rewrite (utf8_valid_decode text Hvalid). by rewrite truthy_nonempty.
  - intros p Hin Hdst Hp. by eapply cleanup_Ok_output_empty.
  - intros p Hp. by apply (writes_cleanup_output_folder t _ _ _ Hrun).
Qed.

Lemma cleanup_output_folder_result_witness :
  w_fs (cleanup_output_folder Demo.site Demo.with_invalid_marker).2 !! DST_PATH Demo.site
    = Some Dir ∧
  w_fs (cleanup_output_folder Demo.site Demo.with_invalid_marker).2 !! cnamePath Demo.site =
    match w_fs Demo.with_invalid_marker !! cnamePath Demo.site with
    | Some (File bytes) =>
        if truthy (utf8_decode bytes) then Some (File (utf8_decode bytes)) else None
    | _ => None
    end ∧
  (∀ text, w_fs Demo.with_invalid_marker !! cnamePath Demo.site = Some (File text) →
           text ≠ EmptyString → utf8_valid text = true →
           w_fs (cleanup_output_folder Demo.site Demo.with_invalid_marker).2
             !! cnamePath Demo.site = Some (File text)) ∧
  (∀ p, in_output Demo.site p → p ≠ DST_PATH Demo.site → p ≠ cnamePath Demo.site →
        w_fs (cleanup_output_folder Demo.site Demo.with_invalid_marker).2 !! p = None) ∧
  (∀ p, ¬ in_output Demo.site p →
        w_fs (cleanup_output_folder Demo.site Demo.with_invalid_marker).2 !! p
        = w_fs Demo.with_invalid_marker !! p).
Proof.
  apply (cleanup_output_folder_result Demo.site Demo.with_invalid_marker
           (cleanup_output_folder Demo.site Demo.with_invalid_marker).2 tt).
  vm_compute. reflexivity.
Defined.

(** ** What a build writes and what it leaves *)

Section BuildWrites.
Context (t : Tools).

Lemma in_output_file (a : string) : in_output t (path_join (DST_PATH t) [a]).
Proof. by apply prefix_app_r. Qed.

Lemma in_output_copied (p : path) : copied t p → in_output t p.
Proof. by intros [H|H]; apply prefix_app_l in H. Qed.

Lemma after_cleanup_keeps (startTime : Z) (v : string) (p : path) :
  p ≠ path_join (DST_PATH t) ["index.js"] →
  p ≠ path_join (DST_PATH t) ["style.css"] →
  p ≠ path_join (DST_PATH t) ["index.html"] →
  p ≠ path_join (DST_PATH t) ["sw.js"] →
  ¬ copied t p →
  respects (keeps p) (after_cleanup t startTime v).
Proof.
  intros Hjs Hcss Hhtml Hsw Hcopied. unfold after_cleanup.
  apply respects_bind; [apply _ | | intros _].
  { eapply keeps_step; [apply writes_generate_index_js|]. by intros <-. }
  apply respects_bind; [apply _ | | intros _].
  { eapply keeps_step; [apply writes_generate_style_css|]. by intros <-. }
  apply respects_bind; [apply _ | | intros _].
  { eapply keeps_step; [apply writes_generate_index_html|]. by intros <-. }
  apply respects_bind; [apply _ | | intros _].
  { eapply keeps_step; [apply writes_copy_images_and_favicons|]. done. }
  apply respects_bind; [apply _ | | intros _].
  { eapply keeps_step; [apply writes_generate_sw_js|]. by intros <-. }
  apply respects_bind; [apply _ | apply keeps_Date_now | intros finish].
  apply respects_bind; [apply _ | apply keeps_Date_now | intros now].
  apply keeps_emit.
Qed.

Lemma up_to_cleanup_keeps (p : path) :
  ¬ in_output t p → respects (keeps p) (up_to_cleanup t).
Proof.
  intros Hp. unfold up_to_cleanup.
  apply respects_bind; [apply _ | apply keeps_Date_now | intros startTime].
  apply respects_bind; [apply _ | | intros v].
  { unfold generateVersion, execAsync_git_log.
    apply respects_bind; [apply _ | apply respects_lift, _ | intros rev].
    apply respects_ret, _. }
  apply respects_bind; [apply _ | | intros _].
  { eapply keeps_step; [apply writes_cleanup_output_folder|]. done. }
  apply respects_ret, _.
Qed.
End BuildWrites.

(** X6.  However a build ends, it changes nothing outside the output
    directory: the source tree is only read. *)
Theorem build_writes_only_output (t : Tools) (w w' : World) (o : outcome unit) (p : path) :
  build t w = (o, w') →
  ¬ in_output t p →
  w_fs w' !! p = w_fs w !! p.
Proof.
  intros Hrun Hp. revert Hrun. unfold build.
  destruct (String.eqb (platform t) "win32"); [by intros [= _ <-]|].
  rewrite main_split. revert w o w'.
  change (respects (keeps p)
            (up_to_cleanup t ≫= fun sv => after_cleanup t sv.1 sv.2)).
  apply respects_bind; [apply _ | by apply up_to_cleanup_keeps | intros sv].
  apply after_cleanup_keeps.
  - intros ->. apply Hp, in_output_file.
  - intros ->. apply Hp, in_output_file.
  - intros ->. apply Hp, in_output_file.
  - intros ->. apply Hp, in_output_file.
  - intros Hc. by apply Hp, in_output_copied.
Qed.

Lemma build_writes_only_output_witness :
  w_fs (build Demo.site Demo.with_marker).2 !! ["site"; "src"; "index.js"]
  = w_fs Demo.with_marker !! ["site"; "src"; "index.js"].
Proof.
  apply (build_writes_only_output Demo.site Demo.with_marker
           (build Demo.site Demo.with_marker).2
           (build Demo.site Demo.with_marker).1).
  - vm_compute. reflexivity.
  - unfold in_output. intros H%prefix_cons_inv_2%prefix_cons_inv_1. discriminate.
Defined.

(** X7.  After a successful build nothing stale is left: every entry at or
    below the output directory is the directory itself, the marker file,
    one of [index.js], [style.css], [index.html], [sw.js], or lies below
    [images] or [favicons]. *)
Theorem successful_build_leaves_only_artifacts
    (t : Tools) (w w' : World) (u : unit) (p : path) :
  build t w = (Ok u, w') →
  in_output t p →
  is_Some (w_fs w' !! p) →
  artifact t p.
Proof.
  intros (sv & w1 & Hpre & Hpost)%build_Ok_inv Hin Hsome.
  unfold artifact.
  destruct (decide (p = DST_PATH t)); [by left|right].
  destruct (decide (p = cnamePath t)); [by left|right].
  destruct (decide (p = path_join (DST_PATH t) ["index.js"])); [by left|right].
  destruct (decide (p = path_join (DST_PATH t) ["style.css"])); [by left|right].
  destruct (decide (p = path_join (DST_PATH t) ["index.html"])); [by left|right].
  destruct (decide (p = path_join (DST_PATH t) ["sw.js"])); [by left|right].
  destruct (decide (path_join (DST_PATH t) ["images"] `prefix_of` p)); [by left|].
  destruct (decide (path_join (DST_PATH t) ["favicons"] `prefix_of` p)); [by right|].
  exfalso.
  apply (after_cleanup_keeps t _ _ p) in Hpost; [|done..|by intros [?|?]].
  unfold keeps in Hpost. rewrite Hpost in Hsome.
  rewrite (up_to_cleanup_Ok_output_empty t _ _ _ p Hpre) in Hsome by done.
  by destruct Hsome.
Qed.

Lemma successful_build_leaves_only_artifacts_witness :
  artifact Demo.site ["site"; "docs"; "images"; "logo.png"].
Proof.
  apply (successful_build_leaves_only_artifacts Demo.site Demo.with_marker
           (build Demo.site Demo.with_marker).2 tt).
  - vm_compute. reflexivity.
  - unfold in_output. by exists ["images"; "logo.png"].
  - vm_compute. eauto.
Defined.

(** ** Step 5: the copied trees *)

Lemma ncp_copies (fs fs' : FS) (from to rel : path) (e : entry) :
  ncp fs from to = Success fs' →
  fs !! (from ++ rel) = Some e →
  fs' !! (to ++ rel) = Some e.
Proof.
  unfold ncp.
  destruct (existsSync fs from); [|discriminate].
  destruct (is_dir fs (parent to)); [|discriminate].
  intros [= <-]. revert rel e.
  apply (map_fold_weak_ind (fun acc (m : FS) =>
           ∀ rel e, m !! (from ++ rel) = Some e → acc !! (to ++ rel) = Some e)).
  { intros rel e. by rewrite lookup_empty. }
  intros k x m acc Hk IH rel e Hlookup.
  destruct (decide (k = from ++ rel)) as [->|Hne].
  - rewrite lookup_insert_eq in Hlookup. injection Hlookup as ->.
    rewrite decide_True by (by apply prefix_app_r).
    rewrite drop_app_length. by rewrite lookup_insert_eq.
  - rewrite lookup_insert_ne in Hlookup by done.
    case_decide as Hpre; [|by apply IH].
    rewrite lookup_insert_ne; [by apply IH|].
    intros Heq%app_inv_head. apply Hne.
    destruct Hpre as [k' ->]. by rewrite drop_app_length in Heq; subst.
Qed.

Section Copy.
Context (t : Tools).

Lemma source_not_in_output (a : string) (rel : path) :
  ¬ in_output t (path_join (SRC_PATH t) [a] ++ rel).
Proof.
  unfold in_output, SRC_PATH, DST_PATH, path_join.
  rewrite <- !app_assoc. intros H%prefix_app_inv.
  by apply prefix_cons_inv_1 in H.
Qed.

Lemma copied_tree_not_below (a b : string) (rel : path) :
  a ≠ b →
  ¬ path_join (DST_PATH t) [a] `prefix_of` path_join (DST_PATH t) [b] ++ rel.
Proof.
  intros Hne. unfold path_join. rewrite <- app_assoc.
  intros H%prefix_app_inv. by apply prefix_cons_inv_1 in H.
Qed.

Lemma copy_images_and_favicons_Ok_inv (w w' : World) (u : unit) :
  copy_images_and_favicons t w = (Ok u, w') →
  ∃ fs1,
    ncp (w_fs w) (path_join (SRC_PATH t) ["images"])
        (path_join (DST_PATH t) ["images"]) = Success fs1 ∧
    ncp fs1 (path_join (SRC_PATH t) ["favicons"])
        (path_join (DST_PATH t) ["favicons"]) = Success (w_fs w').
Proof.
  unfold copy_images_and_favicons, cpAsync.
  intros ([] & w1 & (fs1 & H1 & ->)%fs_update_Ok_inv & H)%bind_Ok_inv.
  apply fs_update_Ok_inv in H as (fs2 & H2 & ->). eauto.
Qed.
End Copy.

Lemma copy_images_and_favicons_copies
    (t : Tools) (w w' : World) (u : unit) (rel : path) (e : entry) :
  copy_images_and_favicons t w = (Ok u, w') →
  (w_fs w !! (path_join (SRC_PATH t) ["images"] ++ rel) = Some e →
   w_fs w' !! (path_join (DST_PATH t) ["images"] ++ rel) = Some e) ∧
  (w_fs w !! (path_join (SRC_PATH t) ["favicons"] ++ rel) = Some e →
   w_fs w' !! (path_join (DST_PATH t) ["favicons"] ++ rel) = Some e).
Proof.
  intros (fs1 & H1 & H2)%copy_images_and_favicons_Ok_inv. split; intros Hsrc.
  - rewrite (ncp_other _ _ _ _ _ H2) by (by apply copied_tree_not_below).
    by eapply ncp_copies.
  - eapply ncp_copies; [done|].
    rewrite (ncp_other _ _ _ _ _ H1); [done|].
    intros H. apply (source_not_in_output t "favicons" rel).
    unfold in_output. by apply prefix_app_l in H.
Qed.

(** X8.  When step 5 completes, every file and directory at or below the
    source [images] directory is at the same relative path below the output
    [images] directory, and likewise for [favicons]. *)
Theorem copy_preserves_structure (t : Tools) (w w' : World) (u : unit) (rel : path) (e : entry) :
  copy_images_and_favicons t w = (Ok u, w') →
  (w_fs w !! (path_join (SRC_PATH t) ["images"] ++ rel) = Some e →
   w_fs w' !! (path_join (DST_PATH t) ["images"] ++ rel) = Some e) ∧
  (w_fs w !! (path_join (SRC_PATH t) ["favicons"] ++ rel) = Some e →
   w_fs w' !! (path_join (DST_PATH t) ["favicons"] ++ rel) = Some e).
Proof.
  intros Hrun. split.
  - apply (copy_images_and_favicons_copies t w w' u rel e Hrun).
  - apply (copy_images_and_favicons_copies t w w' u rel e Hrun).
Qed.

Lemma copy_preserves_structure_witness :
  (w_fs Demo.with_marker !! (path_join (SRC_PATH Demo.site) ["images"] ++ ["logo.png"])
     = Some (File "PNG") →
   w_fs (copy_images_and_favicons Demo.site Demo.with_marker).2
     !! (path_join (DST_PATH Demo.site) ["images"] ++ ["logo.png"]) = Some (File "PNG")) ∧
  (w_fs Demo.with_marker !! (path_join (SRC_PATH Demo.site) ["favicons"] ++ ["logo.png"])
     = Some (File "PNG") →
   w_fs (copy_images_and_favicons Demo.site Demo.with_marker).2
     !! (path_join (DST_PATH Demo.site) ["favicons"] ++ ["logo.png"]) = Some (File "PNG")).
Proof.
  apply (copy_preserves_structure Demo.site Demo.with_marker
           (copy_images_and_favicons Demo.site Demo.with_marker).2 tt).
  vm_compute. reflexivity.
Defined.

(** X9.  After a successful build, every file and directory that was at or
    below the source [images] or [favicons] directory before the build is at
    the same relative path below the output directory's [images] or
    [favicons]. *)
Theorem build_copies_assets (t : Tools) (w w' : World) (u : unit) (rel : path) (e : entry) :
  build t w = (Ok u, w') →
  (w_fs w !! (path_join (SRC_PATH t) ["images"] ++ rel) = Some e →
   w_fs w' !! (path_join (DST_PATH t) ["images"] ++ rel) = Some e) ∧
  (w_fs w !! (path_join (SRC_PATH t) ["favicons"] ++ rel) = Some e →
   w_fs w' !! (path_join (DST_PATH t) ["favicons"] ++ rel) = Some e).
Proof.
  intros (sv & w1 & Hpre & Hpost)%build_Ok_inv.
  apply up_to_cleanup_Ok_inv in Hpre as (rev & _ & -> & _ & Hsrc).
  apply after_cleanup_Ok_inv in Hpost
    as (w2 & w3 & w4 & w5 & w6 & H2 & H3 & H4 & H5 & H6 & ->).
  simpl.
  assert (Hframe : ∀ p, ¬ in_output t p → w_fs w4 !! p = w_fs w !! p).
  { intros p Hp.
    destruct (writes_step _ _ _ (writes_generate_index_js t _) _ _ _ H2) as [F2 _].
    destruct (writes_step _ _ _ (writes_generate_style_css t) _ _ _ H3) as [F3 _].
    destruct (writes_step _ _ _ (writes_generate_index_html t) _ _ _ H4) as [F4 _].
    rewrite F4, F3, F2, Hsrc; try done; intros <-; apply Hp, in_output_file. }
  apply step_Ok_inv in H5 as (w5c & H5 & ->).
  destruct (writes_step _ _ _ (writes_generate_sw_js t) _ _ _ H6) as [F6 _].
  simpl in F6.
  destruct (copy_images_and_favicons_copies t _ _ _ rel e H5) as [Himg Hfav].
  simpl in Himg, Hfav.
  split; intros Hfile.
  - rewrite F6.
    + apply Himg. rewrite Hframe; [done|]. apply source_not_in_output.
    + unfold path_join. rewrite <- app_assoc. intros H%app_inv_head.
      discriminate.
  - rewrite F6.
    + apply Hfav. rewrite Hframe; [done|]. apply source_not_in_output.
    + unfold path_join. rewrite <- app_assoc. intros H%app_inv_head.
      discriminate.
Qed.

Lemma build_copies_assets_witness :
  (w_fs Demo.with_marker !! (path_join (SRC_PATH Demo.site) ["images"] ++ ["logo.png"])
     = Some (File "PNG") →
   w_fs (build Demo.site Demo.with_marker).2
     !! (path_join (DST_PATH Demo.site) ["images"] ++ ["logo.png"]) = Some (File "PNG")) ∧
  (w_fs Demo.with_marker !! (path_join (SRC_PATH Demo.site) ["favicons"] ++ ["logo.png"])
     = Some (File "PNG") →
   w_fs (build Demo.site Demo.with_marker).2
     !! (path_join (DST_PATH Demo.site) ["favicons"] ++ ["logo.png"]) = Some (File "PNG")).
Proof.
  apply (build_copies_assets Demo.site Demo.with_marker
           (build Demo.site Demo.with_marker).2 tt).
  vm_compute. reflexivity.
Defined.

(** ** The artifacts of a successful build *)

Section Artifacts.
Context (t : Tools).

Lemma up_to_cleanup_Ok_output_dir (w w1 : World) (sv : Z * string) :
  up_to_cleanup t w = (Ok sv, w1) → w_fs w1 !! DST_PATH t = Some Dir.
Proof.
  unfold up_to_cleanup.
  intros (s & w0 & _ & H)%bind_Ok_inv.
  apply bind_Ok_inv in H as (v & w2 & _ & H).
  apply bind_Ok_inv in H as ([] & w3 & Hstep & Hret).
  rewrite run_ret in Hret. assert (w3 = w1) as -> by congruence.
  apply step_Ok_inv in Hstep as (w4 & Hclean & ->). simpl.
  destruct (cleanup_Ok_inv t _ _ _ Hclean) as [[_ ->]|(text & _ & ->)].
  - by rewrite lookup_insert_eq.
  - unfold cleaned. destruct (truthy (utf8_decode text)).
    + rewrite lookup_insert_ne by apply snoc_neq. by rewrite lookup_insert_eq.
    + by rewrite lookup_insert_eq.
Qed.

Lemma injectManifest_Ok_file (cfg : inject_config) (w w' : World) (r : inject_result) :
  injectManifest t cfg w = (Ok r, w') →
  ∃ c, w_fs w' !! swDest cfg = Some (File c).
Proof.
  unfold injectManifest.
  intros (fs & w0 & [= <- <-] & H)%bind_Ok_inv.
  apply bind_Ok_inv in H as (template & w1 & [_ ->]%lift_Ok_inv & H).
  apply bind_Ok_inv in H as ([] & w2 & Hw & [= _ <-]).
  apply fs_update_Ok_inv in Hw as (fs' & ->%writeFileSync_Success & ->).
  simpl. rewrite lookup_insert_eq. eauto.
Qed.
End Artifacts.

(** X10.  After a successful build the output directory is a directory and
    holds [index.js], [style.css], [index.html] and [sw.js] as regular
    files. *)
Theorem successful_build_artifacts (t : Tools) (w w' : World) (u : unit) :
  build t w = (Ok u, w') →
  w_fs w' !! DST_PATH t = Some Dir ∧
  ∀ a, a ∈ ["index.js"; "style.css"; "index.html"; "sw.js"] →
       ∃ c, w_fs w' !! path_join (DST_PATH t) [a] = Some (File c).
Proof.
  intros (sv & w1 & Hpre & Hpost)%build_Ok_inv. split.
  - apply (after_cleanup_keeps t _ _ (DST_PATH t)) in Hpost.
    + unfold keeps in Hpost. rewrite Hpost.
      by eapply up_to_cleanup_Ok_output_dir.
    + symmetry. apply snoc_neq.
    + symmetry. apply snoc_neq.
    + symmetry. apply snoc_neq.
    + symmetry. apply snoc_neq.
    + by intros [H|H]; apply output_not_below_file in H.
  - apply after_cleanup_Ok_inv in Hpost
      as (w2 & w3 & w4 & w5 & w6 & H2 & H3 & H4 & H5 & H6 & ->).
    simpl. intros a Ha.
    repeat (apply elem_of_cons in Ha as [->|Ha]); [| | | |by apply elem_of_nil in Ha].
    + apply step_Ok_inv in H2 as (w2c & H2 & ->).
      apply generate_index_js_Ok_inv in H2 as (bundled & _ & _ & Hfile).
      apply (step_3_keeps t "index.js") in H3; [|done].
      apply (step_4_keeps t "index.js") in H4; [|done].
      apply (step_5_keeps t "index.js") in H5; [|done..].
      apply (step_6_keeps t "index.js") in H6; [|done].
      unfold keeps in *. rewrite H6, H5, H4, H3. eauto.
    + apply step_Ok_inv in H3 as (w3c & H3 & ->).
      apply generate_style_css_Ok_inv in H3 as (? & ? & ? & ? & _ & _ & _ & _ & Hfile).
      apply (step_4_keeps t "style.css") in H4; [|done].
      apply (step_5_keeps t "style.css") in H5; [|done..].
      apply (step_6_keeps t "style.css") in H6; [|done].
      unfold keeps in *. rewrite H6, H5, H4. eauto.
    + apply step_Ok_inv in H4 as (w4c & H4 & ->).
      apply generate_index_html_Ok_inv in H4 as (? & ? & ? & _ & _ & _ & _ & Hfile).
      apply (step_5_keeps t "index.html") in H5; [|done..].
      apply (step_6_keeps t "index.html") in H6; [|done].
      unfold keeps in *. rewrite H6, H5. eauto.
    + apply step_Ok_inv in H6 as (w6c & H6 & ->).
      apply generate_sw_js_Ok_inv in H6 as (r & w6i & H6 & ->).
      by apply injectManifest_Ok_file in H6.
Qed.

Lemma successful_build_artifacts_witness :
  w_fs (build Demo.site Demo.with_marker).2 !! DST_PATH Demo.site = Some Dir ∧
  ∀ a, a ∈ ["index.js"; "style.css"; "index.html"; "sw.js"] →
       ∃ c, w_fs (build Demo.site Demo.with_marker).2
              !! path_join (DST_PATH Demo.site) [a] = Some (File c).
Proof.
  apply (successful_build_artifacts Demo.site Demo.with_marker
           (build Demo.site Demo.with_marker).2 tt).
  vm_compute. reflexivity.
Defined.

(** ** Steps that write one file write it last *)

Section AllOrNothing.

Lemma read_only_same_fs {A} (m : M A) (w w' : World) (o : outcome A) :
  respects (only_writes (fun _ => False)) m → m w = (o, w') → w_fs w' = w_fs w.
Proof.
  intros Hm Hrun. destruct (Hm _ _ _ Hrun) as [Hfs _].
  apply map_eq. intros p. apply Hfs. tauto.
Qed.

Lemma all_or_nothing_read_only {A} (m : M A) :
  respects (only_writes (fun _ => False)) m → all_or_nothing m.
Proof. intros Hm w o w' Hrun _. by eapply read_only_same_fs. Qed.

Lemma all_or_nothing_fs_update (op : FS → fallible FS) : all_or_nothing (fs_update op).
Proof.
  intros w o w'. unfold fs_update. rewrite run_bind. simpl. rewrite run_bind.
  destruct (op (w_fs w)) as [fs'|e]; simpl; intros [= <- <-] Hfail; [|done].
  by destruct (Hfail tt).
Qed.

Lemma all_or_nothing_after_reading {A B} (m : M A) (f : A → M B) :
  respects (only_writes (fun _ => False)) m →
  (∀ a, all_or_nothing (f a)) →
  all_or_nothing (m ≫= f).
Proof.
  intros Hm Hf w o w'. rewrite run_bind.
  destruct (m w) as [[a|c|e] w1] eqn:E.
  - intros Hrun Hfail. rewrite (Hf a _ _ _ Hrun Hfail).
    by eapply read_only_same_fs.
  - intros [= <- <-] _. by eapply read_only_same_fs.
  - intros [= <- <-] _. by eapply read_only_same_fs.
Qed.

Lemma all_or_nothing_then_ok {A B} (m : M A) (f : A → M B) :
  all_or_nothing m → (∀ a, always_ok (f a)) → all_or_nothing (m ≫= f).
Proof.
  intros Hm Hf w o w'. rewrite run_bind.
  destruct (m w) as [[a|c|e] w1] eqn:E.
  - destruct (Hf a w1) as (b & w2 & ->). intros [= <- <-] Hfail.
    by destruct (Hfail b).
  - intros [= <- <-] _. by apply (Hm _ _ _ E).
  - intros [= <- <-] _. by apply (Hm _ _ _ E).
Qed.

Lemma always_ok_emit (e : event) : always_ok (emit e).
Proof. intros w. by eexists _, _. Qed.

Lemma always_ok_ret {A} (a : A) : always_ok (mret a : M A).
Proof. intros w. by eexists _, _. Qed.

Lemma all_or_nothing_step (name : string) (callback : M unit) :
  all_or_nothing callback → all_or_nothing (step name callback).
Proof.
  intros Hcb. unfold step.
  apply all_or_nothing_after_reading; [apply writes_emit|intros _].
  apply all_or_nothing_then_ok; [done|]. intros _. apply always_ok_emit.
Qed.
End AllOrNothing.

(** Peels the reads in front of the final write of a step. *)
Ltac peel_reads :=
  repeat lazymatch goal with
         | |- all_or_nothing (fs_update _) => fail
         | |- all_or_nothing (_ ≫= _) =>
             apply all_or_nothing_after_reading; [solve_writes|intros ?]
         end.

Section WritingSteps.
Context (t : Tools).

Lemma all_or_nothing_generate_index_js (v : string) :
  all_or_nothing (generate_index_js t v).
Proof.
  unfold generate_index_js.
  apply all_or_nothing_after_reading; [solve_writes|intros bundled].
  destruct (error (uglify_minify t bundled)).
  - apply all_or_nothing_read_only. solve_writes.
  - apply all_or_nothing_fs_update.
Qed.

Lemma all_or_nothing_generate_style_css : all_or_nothing (generate_style_css t).
Proof.
  unfold generate_style_css, globAsync.
  peel_reads. apply all_or_nothing_fs_update.
Qed.

Lemma all_or_nothing_generate_index_html : all_or_nothing (generate_index_html t).
Proof.
  unfold generate_index_html, launch, goto.
  peel_reads. apply all_or_nothing_fs_update.
Qed.

Lemma all_or_nothing_generate_sw_js : all_or_nothing (generate_sw_js t).
Proof.
  unfold generate_sw_js, injectManifest.
  apply all_or_nothing_then_ok; [|intros r; apply always_ok_emit].
  apply all_or_nothing_after_reading; [solve_writes|intros fs].
  apply all_or_nothing_after_reading; [solve_writes|intros template].
  apply all_or_nothing_then_ok; [|intros _; apply always_ok_ret].
  apply all_or_nothing_fs_update.
Qed.
End WritingSteps.

(** X11.  Each of the steps that generate one file (2, 3, 4 and 6) writes it
    as its last fallible action: when such a step does not complete, the
    file system is exactly as the step found it. *)
Theorem failed_step_writes_nothing
    (t : Tools) (v : string) (m : M unit) (w w' : World) (o : outcome unit) :
  m ∈ [step "2. generate index.js" (generate_index_js t v);
       step "3. generate style.css" (generate_style_css t);
       step "4. generate index.html" (generate_index_html t);
       step "6. generate sw.js" (generate_sw_js t)] →
  m w = (o, w') →
  (∀ u, o ≠ Ok u) →
  w_fs w' = w_fs w.
Proof.
  intros Hm. revert w o w'. change (all_or_nothing m).
  repeat (apply elem_of_cons in Hm as [->|Hm]); [| | | |by apply elem_of_nil in Hm];
    apply all_or_nothing_step.
  - apply all_or_nothing_generate_index_js.
  - apply all_or_nothing_generate_style_css.
  - apply all_or_nothing_generate_index_html.
  - apply all_or_nothing_generate_sw_js.
Qed.

Lemma failed_step_writes_nothing_witness :
  w_fs (step "4. generate index.html" (generate_index_html Demo.site_foreign)
          Demo.with_marker).2
  = w_fs Demo.with_marker.
Proof.
  apply (failed_step_writes_nothing Demo.site_foreign "1.2.3+abc1234"
           (step "4. generate index.html" (generate_index_html Demo.site_foreign))
           Demo.with_marker _
           (Throw "TypeError: Cannot set property 'href' of undefined")).
  - apply elem_of_cons. right. apply elem_of_cons. right. apply elem_of_cons. by left.
  - vm_compute. reflexivity.
  - discriminate.
Defined.

(** ** Splitting into lines and joining again *)

Section Lines.

Lemma split_lines_nonempty (s : string) : split_lines s ≠ [].
Proof.
  induction s as [|c s IH]; simpl; [done|].
  destruct (Ascii.eqb c (ascii_of_nat 10)); [done|].
  by destruct (split_lines s).
Qed.

Lemma join_cons (sep x : string) (l : list string) :
  l ≠ [] → join sep (x :: l) = x +:+ sep +:+ join sep l.
Proof. by destruct l. Qed.

Lemma join_split_lines (s : string) : join nl (split_lines s) = s.
Proof.
  induction s as [|c s IH]; simpl; [done|].
  destruct (Ascii.eqb_spec c (ascii_of_nat 10)) as [->|Hc].
  - rewrite join_cons by apply split_lines_nonempty. by rewrite IH.
  - pose proof (split_lines_nonempty s) as Hne.
    destruct (split_lines s) as [|l ls]; [done|].
    rewrite <- IH. destruct ls; [done|].
    by rewrite !join_cons by done.
Qed.

Lemma split_lines_one (x : string) : no_line_feed x → split_lines x = [x].
Proof.
  induction x as [|c x IH]; simpl; [done|].
  intros [-> Hx]. by rewrite IH.
Qed.

Lemma split_lines_app (x rest : string) :
  no_line_feed x → split_lines (x +:+ nl +:+ rest) = x :: split_lines rest.
Proof.
  induction x as [|c x IH]; simpl; [done|].
  intros [-> Hx]. by rewrite IH.
Qed.

Lemma split_lines_join (l : list string) :
  l ≠ [] → Forall no_line_feed l → split_lines (join nl l) = l.
Proof.
  induction l as [|x l IH]; [done|]. intros _ Hl.
  apply Forall_cons in Hl as [Hx Hl].
  destruct l as [|y l]; [by apply split_lines_one|].
  rewrite join_cons by done. rewrite split_lines_app by done.
  by rewrite IH.
Qed.

Lemma split_lines_no_line_feed (s : string) : Forall no_line_feed (split_lines s).
Proof.
  induction s as [|c s IH]; simpl; [by repeat constructor|].
  destruct (Ascii.eqb c (ascii_of_nat 10)) eqn:Hc.
  - by constructor.
  - destruct (split_lines s) as [|l ls]; [by repeat constructor|].
    apply Forall_cons in IH as [Hl Hls]. by constructor.
Qed.

Lemma kept_lines_no_line_feed (s : string) : Forall no_line_feed (kept_lines s).
Proof.
  apply Forall_forall. intros x [_ Hx]%list_elem_of_filter.
  revert x Hx. apply Forall_forall, split_lines_no_line_feed.
Qed.

Lemma filter_all {A} (P : A → Prop) `{!∀ x, Decision (P x)} (l : list A) :
  Forall P l → filter P l = l.
Proof.
  induction 1 as [|x l Hx Hl IH]; [done|].
  by rewrite filter_cons, decide_True, IH.
Qed.

Lemma strip_blank_lines_kept (s : string) :
  strip_blank_lines s = join nl (kept_lines s).
Proof. reflexivity. Qed.

Lemma kept_lines_strip (s : string) :
  kept_lines s ≠ [] → split_lines (strip_blank_lines s) = kept_lines s.
Proof.
  intros Hne. rewrite strip_blank_lines_kept.
  apply split_lines_join; [done|apply kept_lines_no_line_feed].
Qed.
End Lines.

(** X12.  Splitting a string at its line feeds and joining the pieces with
    line feeds gives the string back. *)
Theorem split_join_round_trip (s : string) : join nl (split_lines s) = s.
Proof. apply join_split_lines. Qed.

(** X13.  The lines of what [strip_blank_lines] returns are the lines of its
    argument that are not blank, in their order; when every line is blank
    the result is the empty string. *)
Theorem strip_blank_lines_lines (s : string) :
  (kept_lines s = [] → strip_blank_lines s = EmptyString) ∧
  (kept_lines s ≠ [] →
   split_lines (strip_blank_lines s) =
   filter (fun line => is_blank line = false) (split_lines s)).
Proof.
  split.
  - intros H. by rewrite strip_blank_lines_kept, H.
  - apply kept_lines_strip.
Qed.

(** X14.  Stripping blank lines twice is the same as stripping them once, and
    a string none of whose lines is blank is returned as it is. *)
Theorem strip_blank_lines_idempotent (s : string) :
  strip_blank_lines (strip_blank_lines s) = strip_blank_lines s ∧
  (Forall (fun line => is_blank line = false) (split_lines s) →
   strip_blank_lines s = s).
Proof.
  split.
  - destruct (kept_lines s) as [|l ls] eqn:Hkept.
    + by rewrite (strip_blank_lines_kept s), Hkept.
    + rewrite (strip_blank_lines_kept (strip_blank_lines s)).
      unfold kept_lines at 1. rewrite kept_lines_strip by (by rewrite Hkept).
      unfold kept_lines. rewrite list_filter_filter_l by done.
      reflexivity.
  - intros Hall. rewrite strip_blank_lines_kept. unfold kept_lines.
    rewrite filter_all by done. apply join_split_lines.
Qed.

(** ** Step 3 on the stylesheets it finds *)

Section Styles.
Context (t : Tools).

Lemma run_mapM_read (paths : list path) (contents : list string) (w : World) :
  Forall2 (fun p c => readFileSync (w_fs w) p = Success c) paths contents →
  mapM (fun p => fs_read (fun fs => readFileSync fs p)) paths w = (Ok contents, w).
Proof.
  induction 1 as [|p c paths contents Hp _ IH]; simpl; [done|].
  rewrite run_bind. unfold fs_read at 1. rewrite run_bind. simpl. rewrite Hp. simpl.
  rewrite run_bind, IH. reflexivity.
Qed.

Lemma run_globAsync (cwd : path) (pattern : string) (files : list path) (w : World) :
  glob t (w_fs w) cwd pattern = Success files →
  globAsync t cwd pattern w = (Ok (map (fun file => path_join cwd file) files), w).
Proof.
  intros Hglob. unfold globAsync, fs_read. rewrite !run_bind. simpl.
  by rewrite Hglob.
Qed.
End Styles.

(** X15.  When the three globs succeed, every matched file can be read, and
    the output directory exists, step 3 completes and writes [style.css];
    with no stylesheet matched at all ([styles] empty) it still completes,
    and the file is the banner followed by what the minifier returns for the
    empty string. *)
Theorem generate_style_css_completes
    (t : Tools) (w : World) (ui pptr third_party : list path) (styles : list string) :
  glob t (w_fs w) (SRC_PATH t) "ui/**/*.css" = Success ui →
  glob t (w_fs w) (SRC_PATH t) "pptr/**/*.css" = Success pptr →
  glob t (w_fs w) (SRC_PATH t) "third_party/**/*.css" = Success third_party →
  Forall2 (fun rel content =>
             readFileSync (w_fs w) (path_join (SRC_PATH t) rel) = Success content)
          (ui ++ pptr ++ third_party) styles →
  is_dir (w_fs w) (DST_PATH t) = true →
  w_fs w !! path_join (DST_PATH t) ["style.css"] ≠ Some Dir →
  generate_style_css t w =
    (Ok tt,
     mkWorld (<[path_join (DST_PATH t) ["style.css"] :=
                  File (banner +:+ csso_minify t (join nl styles) false)]> (w_fs w))
             (w_events w) (w_browsers w) (w_ticks w)).
Proof.
  intros Hui Hpptr Hthird Hread Hdir Hfile.
  unfold generate_style_css.
  erewrite run_bind_Ok by (by apply run_globAsync).
  erewrite run_bind_Ok by (by apply run_globAsync).
  erewrite run_bind_Ok by (by apply run_globAsync).
  erewrite run_bind_Ok.
  2:{ apply run_mapM_read. rewrite <- !map_app. by apply Forall2_fmap_l. }
  apply run_fs_update_Success, writeFileSync_not_dir; [done|].
  by rewrite parent_output_file.
Qed.

Lemma generate_style_css_completes_witness :
  generate_style_css Demo.site_no_styles (Demo.world Demo.fs_cleaned) =
    (Ok tt,
     mkWorld (<[path_join (DST_PATH Demo.site_no_styles) ["style.css"] :=
                  File (banner +:+ csso_minify Demo.site_no_styles (join nl []) false)]>
                (w_fs (Demo.world Demo.fs_cleaned)))
             (w_events (Demo.world Demo.fs_cleaned))
             (w_browsers (Demo.world Demo.fs_cleaned))
             (w_ticks (Demo.world Demo.fs_cleaned))).
Proof.
  apply (generate_style_css_completes Demo.site_no_styles (Demo.world Demo.fs_cleaned)
           [] [] [] []).
  - reflexivity.
  - reflexivity.
  - reflexivity.
  - constructor.
  - vm_compute. reflexivity.
  - vm_compute. discriminate.
Defined.
